(** * wybe: stochastic route planning on a public-transport graph

    A shallow embedding of the planner of [notebooks/wybe]:
    [delay.py] (connection probabilities), [timedistance.py] (search
    labels), [route.py] (routes and their accessors) and [routing.py]
    (the backward search and the robust planner).

    Modelling conventions.
    - Times ([Time = float] in the source, seconds of the day) are
      integers [Z], that is whole seconds, on which the binary64
      additions and subtractions of the program are exact; the only
      non-finite values the program computes with, [inf] and [-inf], are
      explicit constructors of [xtime]. What depends on times that are
      not whole seconds is settled on the module [Binary64], which has
      the search on binary64 times.
    - Probabilities are rationals [Q]; the Gamma distribution of
      [scipy.stats] is not part of the repository and enters as a
      variable [gamma_cdf].
    - Python exceptions are the [Raise] results of the [res] type.
    - Attribute dictionaries of edges are objects: they live in a store
      and are named by their address, so that aliasing between the graph
      and the labels of a search is visible. Graphs are objects as well. *)

From Stdlib Require Import ZArith QArith Lia.
From Stdlib Require Import Floats.PrimFloat Numbers.Cyclic.Int63.Uint63.
From stdpp Require Import base option list gmap strings.

Local Open Scope string_scope.
Local Open Scope Z_scope.

(** ** Exceptions and results *)

Inductive error : Type :=
| KeyError (key : string)      (* a dictionary lookup that misses *)
| IndexError                   (* a list index out of range *)
| AssertionError (msg : string)
| UnboundLocalError (var : string)
| NetworkXError
| DanglingRef                  (* an address outside the store; never built *)
| OutOfFuel.                   (* the loop bound of the model is exhausted *)

Inductive res (A : Type) : Type :=
| Ok (a : A)
| Raise (e : error).
Arguments Ok {A} a.
Arguments Raise {A} e.

Definition res_bind {A B} (r : res A) (k : A -> res B) : res B :=
  match r with
  | Ok a => k a
  | Raise e => Raise e
  end.

(** ** utils.py: constants and type aliases *)

Definition ID := string.
Definition Name := string.

(** A [trip_id] is whatever the timetable holds (a string) or one of the
    integer flags below; Python's [==] never equates a string and an
    integer. *)
Inductive TripId : Type :=
| TripStr (s : string)
| TripInt (z : Z).

Definition FOOT_TTYPE : string := "Foot".
Definition FOOT_TRIP_ID : TripId := TripInt (-1).
Definition INIT_TTYPE : string := "Init".
Definition INIT_TRIP_ID : TripId := TripInt (-2).

Definition trip_eqb (a b : TripId) : bool :=
  match a, b with
  | TripStr s, TripStr s' => String.eqb s s'
  | TripInt z, TripInt z' => Z.eqb z z'
  | _, _ => false
  end.

#[global] Instance TripId_eq_dec : EqDecision TripId.
Proof. solve_decision. Defined.

(** Parameters [(shape, loc, scale)] of a Gamma distribution. *)
Definition GammaParams : Type := Q * Q * Q.

(** [EdgeProps = Dict[str, Any]]: the attribute dictionary of an edge. Every
    edge of a graph built by [Utils.create_graph] has the six keys; the
    [INIT_PROPS] dictionary of a fresh label has no ['travel_time']. *)
Record EdgeProps : Type := mkProps {
  gamma : option GammaParams;
  arr_time : Z;
  dep_time : Z;
  ttype : string;
  trip_id : TripId;
  travel_time : option Z
}.

(** ** delay.py *)

Module Delay.

(** The dictionary literal [EXTRA_TRANSFER_TIME]. *)
Definition EXTRA_TRANSFER_TIME : list (string * Z) :=
  [ ("Bus", 20); ("Foot", 20); ("Tram", 30); ("S-Bahn", 100);
    ("Extrazug", 100); ("InterRegio", 120); ("Eurocity", 120);
    ("RegioExpress", 120); ("ICE", 120); ("Eurostar", 120);
    ("Intercity", 120) ].

Fixpoint dict_get (d : list (string * Z)) (k : string) : option Z :=
  match d with
  | [] => None
  | (k', v) :: d' => if String.eqb k' k then Some v else dict_get d' k
  end.

(** [EXTRA_TRANSFER_TIME[ttype]] *)
Definition penalty (ttype : string) : res Z :=
  match dict_get EXTRA_TRANSFER_TIME ttype with
  | Some p => Ok p
  | None => Raise (KeyError ttype)
  end.

Definition __compute_delay (arrival_time next_departure_time : Z)
    (ttype : string) (previous_route_id next_route_id : TripId) : res Z :=
  let time_to_make_connection := next_departure_time - arrival_time in
  if negb (trip_eqb previous_route_id next_route_id)
  then res_bind (penalty ttype) (fun p => Ok (time_to_make_connection - p))
  else Ok time_to_make_connection.

Section WithGamma.

(** The cumulative distribution function of scipy's [gamma], applied to
    the unpacked [gamma_params], at [delay]. *)
Variable gamma_cdf : GammaParams -> Z -> Q.

Definition __connection_probability (delay : Z)
    (gamma_params : option GammaParams) (ttype : string)
    (previous_route_id next_route_id : TripId) : Q :=
  if String.eqb ttype "Foot" then 1%Q
  else if trip_eqb previous_route_id next_route_id then 1%Q
  else match gamma_params with
       | None => 1%Q
       | Some g => gamma_cdf g delay
       end.

Definition connection_probability (prev_props curr_props : EdgeProps) : res Q :=
  res_bind
    (__compute_delay (arr_time prev_props) (dep_time curr_props)
       (ttype prev_props) (trip_id prev_props) (trip_id curr_props))
    (fun d =>
       Ok (__connection_probability d (gamma prev_props) (ttype curr_props)
             (trip_id prev_props) (trip_id curr_props))).

End WithGamma.

End Delay.

(** ** The object store

    [dicts] holds the attribute dictionaries, [graphs] the graph objects;
    an address is an index. Allocation appends, so addresses are never
    reused. *)

Definition loc := nat.
Definition gref := nat.

(** A [networkx.MultiDiGraph]: for each node, in insertion order, its
    successors, and for each successor the parallel edges as pairs of an
    edge key and the address of the edge's attribute dictionary. *)
Definition KeyDict : Type := list (Z * loc).
Definition Graph : Type := list (ID * list (ID * KeyDict)).

Record State : Type := mkState {
  dicts : list EdgeProps;
  graphs : list Graph
}.

Definition M (A : Type) : Type := State -> res (A * State).

#[global] Instance res_ret : MRet res := fun A a => Ok a.
#[global] Instance res_mbind : MBind res := fun A B k r => res_bind r k.
#[global] Instance M_ret : MRet M := fun A a st => Ok (a, st).
#[global] Instance M_bind : MBind M := fun A B k m st =>
  match m st with
  | Ok (a, st') => k a st'
  | Raise e => Raise e
  end.

Definition raise {A} (e : error) : M A := fun _ => Raise e.

(** A computation that only reads the store. *)
Definition read {A} (f : State -> res A) : M A := fun st =>
  match f st with
  | Ok a => Ok (a, st)
  | Raise e => Raise e
  end.

Definition lift {A} (r : res A) : M A := read (fun _ => r).

Definition deref (st : State) (l : loc) : res EdgeProps :=
  match dicts st !! l with
  | Some p => Ok p
  | None => Raise DanglingRef
  end.

Definition alloc (p : EdgeProps) : M loc := fun st =>
  Ok (length (dicts st), mkState (dicts st ++ [p]) (graphs st)).

(** [d.copy()] *)
Definition dict_copy (l : loc) : M loc :=
  p ← read (fun st => deref st l); alloc p.

(** [d[key] = value], as an update of the dictionary at [l]. *)
Definition setitem (l : loc) (f : EdgeProps -> EdgeProps) : M unit := fun st =>
  match dicts st !! l with
  | Some p => Ok (tt, mkState (<[l := f p]> (dicts st)) (graphs st))
  | None => Raise DanglingRef
  end.

Definition set_dep_time (v : Z) (p : EdgeProps) : EdgeProps :=
  mkProps (gamma p) (arr_time p) v (ttype p) (trip_id p) (travel_time p).
Definition set_arr_time (v : Z) (p : EdgeProps) : EdgeProps :=
  mkProps (gamma p) v (dep_time p) (ttype p) (trip_id p) (travel_time p).

(** [d['travel_time']] *)
Definition getitem_travel_time (p : EdgeProps) : res Z :=
  match travel_time p with
  | Some t => Ok t
  | None => Raise (KeyError "travel_time")
  end.

Definition get_graph (st : State) (g : gref) : res Graph :=
  match graphs st !! g with
  | Some gr => Ok gr
  | None => Raise DanglingRef
  end.

(** ** timedistance.py *)

(** The values a cost can take: a finite time, [inf], and the [-inf] that
    [arr_time - inf] evaluates to. *)
Inductive xtime : Type :=
| Fin (z : Z)
| PInf
| NInf.

Definition xltb (a b : xtime) : bool :=
  match a, b with
  | Fin x, Fin y => x <? y
  | Fin _, PInf => true
  | NInf, Fin _ => true
  | NInf, PInf => true
  | _, _ => false
  end.

(** [a >= b] *)
Definition xgeb (a b : xtime) : bool :=
  match a, b with
  | Fin x, Fin y => x >=? y
  | PInf, _ => true
  | _, NInf => true
  | _, _ => false
  end.

(** [t - c] for a finite [t] *)
Definition xsub (t : Z) (c : xtime) : xtime :=
  match c with
  | Fin z => Fin (t - z)
  | PInf => NInf
  | NInf => PInf
  end.

Module TimeDistance.

(** A label. [updated] is only ever called on a label before it is shared
    (stored in the table, queued, put in a route), so labels are values;
    [prev_props] is the address of a dictionary. *)
Record t : Type := mk {
  first : bool;
  cum_time : Z;
  prev_props : loc
}.

Definition INIT_PROPS (time : Z) : EdgeProps :=
  mkProps None time time INIT_TTYPE INIT_TRIP_ID None.

Definition __init__ (first : bool) (cum_time : Z) (prev_props : option loc)
    (time : Z) : M t :=
  match prev_props with
  | None => l ← alloc (INIT_PROPS time); mret (mk first cum_time l)
  | Some l => mret (mk first cum_time l)
  end.

Definition updated (self : t) : t :=
  mk false (cum_time self) (prev_props self).

Definition __call__ (self : t) : xtime :=
  if first self then PInf else Fin (cum_time self).

Definition __lt__ (self other : t) : bool :=
  xltb (__call__ self) (__call__ other).

(** The sums and differences are those of whole seconds here, and exact;
    [Binary64.TimeDistance.__add__] has them rounded. *)
Definition __add__ (self : t) (props : loc) : M t :=
  p ← read (fun st => deref st props);
  props ← (if String.eqb (ttype p) "Foot" then
             props ← dict_copy props;
             sp ← read (fun st => deref st (prev_props self));
             p ← read (fun st => deref st props);
             tt ← lift (getitem_travel_time p);
             _ ← setitem props (set_dep_time (dep_time sp - tt));
             sp ← read (fun st => deref st (prev_props self));
             _ ← setitem props (set_arr_time (dep_time sp));
             mret props
           else mret props);
  sp ← read (fun st => deref st (prev_props self));
  p ← read (fun st => deref st props);
  tt ← lift (getitem_travel_time p);
  __init__ (first self)
    (cum_time self + dep_time sp - arr_time p + tt) (Some props) 0.

Definition previous_dep_time (st : State) (self : t) : res Z :=
  p ← deref st (prev_props self); mret (dep_time p).

End TimeDistance.

(** ** Python containers used by the planner *)

(** [l[i]] on a list *)
Definition getitem_list {A} (l : list A) (i : nat) : res A :=
  match l !! i with
  | Some a => Ok a
  | None => Raise IndexError
  end.

(** [d[k]] on a dictionary keyed by strings *)
Definition getitem_dict {A} (d : gmap string A) (k : string) : res A :=
  match d !! k with
  | Some a => Ok a
  | None => Raise (KeyError k)
  end.

(** Insertion-ordered dictionaries, where the order is observable. *)
Section AList.
Context {K V : Type} (eqb : K -> K -> bool).

Fixpoint alist_get (d : list (K * V)) (k : K) : option V :=
  match d with
  | [] => None
  | (k', v) :: d' => if eqb k' k then Some v else alist_get d' k
  end.

(** [d[k] = v] for a key already present: the position is kept. *)
Fixpoint alist_set (d : list (K * V)) (k : K) (v : V) : list (K * V) :=
  match d with
  | [] => [(k, v)]
  | (k', v') :: d' =>
      if eqb k' k then (k', v) :: d' else (k', v') :: alist_set d' k v
  end.

(** [del d[k]] *)
Fixpoint alist_del (d : list (K * V)) (k : K) : list (K * V) :=
  match d with
  | [] => []
  | (k', v') :: d' => if eqb k' k then d' else (k', v') :: alist_del d' k
  end.

End AList.

(** *** heapq, as used by [queue.PriorityQueue] *)
Section Heapq.
Context {A : Type} (lt : A -> A -> bool).

(** The loop of [_siftdown]; [newitem] is the item read at [pos] on entry.
    [pos] decreases at every turn, so [fuel >= pos] is enough. *)
Fixpoint _siftdown (fuel : nat) (heap : list A) (startpos pos : nat)
    (newitem : A) : list A :=
  match fuel with
  | O => <[pos := newitem]> heap
  | S fuel' =>
      if (startpos <? pos)%nat then
        let parentpos := Nat.div2 (pos - 1) in
        match heap !! parentpos with
        | Some parent =>
            if lt newitem parent
            then _siftdown fuel' (<[pos := parent]> heap) startpos parentpos newitem
            else <[pos := newitem]> heap
        | None => <[pos := newitem]> heap
        end
      else <[pos := newitem]> heap
  end.

(** The loop of [_siftup]: bubble the smaller child up until a leaf. *)
Fixpoint _siftup_loop (fuel : nat) (heap : list A) (pos : nat) : list A * nat :=
  match fuel with
  | O => (heap, pos)
  | S fuel' =>
      let endpos := length heap in
      let childpos := (2 * pos + 1)%nat in
      if (childpos <? endpos)%nat then
        let rightpos := (childpos + 1)%nat in
        let childpos :=
          match heap !! childpos, heap !! rightpos with
          | Some c, Some r => if negb (lt c r) then rightpos else childpos
          | _, _ => childpos
          end in
        match heap !! childpos with
        | Some c => _siftup_loop fuel' (<[pos := c]> heap) childpos
        | None => (heap, pos)
        end
      else (heap, pos)
  end.

Definition _siftup (heap : list A) (pos : nat) : list A :=
  match heap !! pos with
  | Some newitem =>
      let '(heap', pos') := _siftup_loop (length heap) heap pos in
      _siftdown (length heap) (<[pos' := newitem]> heap') pos pos' newitem
  | None => heap
  end.

Definition heappush (heap : list A) (item : A) : list A :=
  _siftdown (S (length heap)) (heap ++ [item]) 0 (length heap) item.

(** [None] on the empty heap. *)
Definition heappop (heap : list A) : option (A * list A) :=
  match last heap with
  | None => None
  | Some lastelt =>
      match removelast heap with
      | [] => Some (lastelt, [])
      | returnitem :: rest =>
          Some (returnitem, _siftup (lastelt :: rest) 0)
      end
  end.

End Heapq.

(** *** networkx.MultiDiGraph *)
Module nx.

Definition nodes (g : Graph) : list ID := g.*1.

(** [G.out_edges(stop, data=True)] *)
Definition out_edges (g : Graph) (stop : ID) : list (ID * ID * loc) :=
  match alist_get String.eqb g stop with
  | Some nbrs =>
      flat_map (fun nb : ID * KeyDict =>
                  map (fun kl : Z * loc => (stop, nb.1, kl.2)) nb.2) nbrs
  | None => []
  end.

(** [G[u][v]] *)
Definition getitem_uv (g : Graph) (u v : ID) : res KeyDict :=
  match alist_get String.eqb g u with
  | None => Raise (KeyError u)
  | Some nbrs =>
      match alist_get String.eqb nbrs v with
      | None => Raise (KeyError v)
      | Some kd => Ok kd
      end
  end.

(** [G.remove_edge(u, v, key)], on the graph value *)
Definition remove_edge_in (g : Graph) (u v : ID) (key : option Z) : res Graph :=
  match alist_get String.eqb g u with
  | None => Raise NetworkXError
  | Some nbrs =>
      match alist_get String.eqb nbrs v with
      | None => Raise NetworkXError
      | Some d =>
          d' ← match key with
               | None =>
                   match d with
                   | [] => Raise (KeyError "popitem")
                   | _ => Ok (removelast d)
                   end
               | Some k =>
                   match alist_get Z.eqb d k with
                   | None => Raise NetworkXError
                   | Some _ => Ok (alist_del Z.eqb d k)
                   end
               end;
          mret (alist_set String.eqb g u
                  (match d' with
                   | [] => alist_del String.eqb nbrs v
                   | _ => alist_set String.eqb nbrs v d'
                   end))
      end
  end.

(** [G.remove_edge(u, v, key)], on the graph object [g] *)
Definition remove_edge (g : gref) (u v : ID) (key : option Z) : M unit := fun st =>
  match graphs st !! g with
  | None => Raise DanglingRef
  | Some gr =>
      match remove_edge_in gr u v key with
      | Ok gr' => Ok (tt, mkState (dicts st) (<[g := gr']> (graphs st)))
      | Raise e => Raise e
      end
  end.

Fixpoint copy_keydict (kd : KeyDict) : M KeyDict :=
  match kd with
  | [] => mret []
  | (k, l) :: kd' =>
      l' ← dict_copy l; kd'' ← copy_keydict kd'; mret ((k, l') :: kd'')
  end.

Fixpoint copy_nbrs (nbrs : list (ID * KeyDict)) : M (list (ID * KeyDict)) :=
  match nbrs with
  | [] => mret []
  | (v, kd) :: nbrs' =>
      kd' ← copy_keydict kd; nbrs'' ← copy_nbrs nbrs'; mret ((v, kd') :: nbrs'')
  end.

Fixpoint copy_adj (g : Graph) : M Graph :=
  match g with
  | [] => mret []
  | (u, nbrs) :: g' =>
      nbrs' ← copy_nbrs nbrs; g'' ← copy_adj g'; mret ((u, nbrs') :: g'')
  end.

Definition alloc_graph (gr : Graph) : M gref := fun st =>
  Ok (length (graphs st), mkState (dicts st) (graphs st ++ [gr])).

(** [G.copy()]: a new graph object with the same nodes and edges, every
    edge with an attribute dictionary of its own. *)
Definition copy (g : gref) : M gref :=
  gr ← read (fun st => get_graph st g);
  gr' ← copy_adj gr;
  alloc_graph gr'.

End nx.

(** [a < b] on probabilities *)
Definition Qlt_bool (a b : Q) : bool :=
  (Qnum a * QDen b <? Qnum b * QDen a)%Z.

(** ** route.py *)

Module Route.

Record t : Type := mk {
  G : gref;
  connections : list ID;
  distances : list TimeDistance.t
}.

Definition __init__ (G : gref) : t := mk G [] [].

Definition append (self : t) (node : ID) (dist : TimeDistance.t) : t :=
  mk (G self) (connections self ++ [node]) (distances self ++ [dist]).

(** [assert len(self.connections)!=0,'Empty route'] *)
Definition assert_not_empty (self : t) : res unit :=
  match connections self with
  | [] => Raise (AssertionError "Empty route")
  | _ :: _ => Ok tt
  end.

Section WithGamma.
Variable gamma_cdf : GammaParams -> Z -> Q.

(** The [for] loop of [success_proba] over
    [enumerate(zip(connections, connections[1:]))], from index [i] on;
    [least_proba_edge] is [None] as long as it is unassigned. *)
Fixpoint success_loop (st : State) (dists : list TimeDistance.t)
    (pairs : list (ID * ID)) (i : nat) (proba least_proba : Q)
    (least_proba_edge : option (ID * ID * loc))
    : res (Q * option (ID * ID * loc)) :=
  match pairs with
  | [] => Ok (proba, least_proba_edge)
  | (dep_stop, arr_stop) :: rest =>
      di ← getitem_list dists i;
      pi ← deref st (TimeDistance.prev_props di);
      di1 ← getitem_list dists (S i);
      pi1 ← deref st (TimeDistance.prev_props di1);
      next_proba ← Delay.connection_probability gamma_cdf pi pi1;
      let proba := (proba * next_proba)%Q in
      if Qle_bool next_proba least_proba
      then success_loop st dists rest (S i) proba next_proba
             (Some (arr_stop, dep_stop, TimeDistance.prev_props di))
      else success_loop st dists rest (S i) proba least_proba least_proba_edge
  end.

Definition success_proba (st : State) (self : t) : res (Q * (ID * ID * loc)) :=
  _ ← assert_not_empty self;
  r ← success_loop st (distances self)
         (zip (connections self) (tail (connections self))) 0 1%Q 1%Q None;
  match r.2 with
  | Some least_proba_edge => Ok (r.1, least_proba_edge)
  | None => Raise (UnboundLocalError "least_proba_edge")
  end.

End WithGamma.

Definition travel_time (self : t) : res Z :=
  _ ← assert_not_empty self;
  d0 ← getitem_list (distances self) 0;
  mret (TimeDistance.cum_time d0).

(** An exact sum of whole seconds; [Binary64.Route.arr_time] has it
    rounded. *)
Definition arr_time (st : State) (self : t) : res Z :=
  _ ← assert_not_empty self;
  tr ← travel_time self;
  d0 ← getitem_list (distances self) 0;
  p ← deref st (TimeDistance.prev_props d0);
  mret (tr + dep_time p).

Definition dep_time (st : State) (self : t) : res Z :=
  _ ← assert_not_empty self;
  d0 ← getitem_list (distances self) 0;
  p ← deref st (TimeDistance.prev_props d0);
  mret (dep_time p).

End Route.

(** ** routing.py *)

Module Routing.

Definition MAX_WAITING_TIME : Z := 45 * 60.

Record t : Type := mk {
  G : gref;
  stop_name_to_id : gmap Name ID   (* name |-> its ['stop_id'] *)
}.

(** The tables of one search. *)
Record tables : Type := mkTables {
  distances : gmap ID TimeDistance.t;
  prev : gmap ID ID;
  visited : gset ID;
  queue : list (TimeDistance.t * ID)
}.

(** Queue entries are pairs [(label, node)] whose labels are distinct
    objects, so the tuple order is the order of the labels. *)
Definition entry_lt (a b : TimeDistance.t * ID) : bool :=
  TimeDistance.__lt__ a.1 b.1.

(** The body of the [for] loop over [neighbours(curr)], for one edge that
    the filter has let through. *)
Definition relax_body (curr : ID) (edge : ID * ID * loc) (s : tables)
    : M tables :=
  let neighbor := edge.1.2 in
  let properties := edge.2 in
  dcurr ← lift (getitem_dict (distances s) curr);
  new_dist ← TimeDistance.__add__ dcurr properties;
  dn ← lift (getitem_dict (distances s) neighbor);
  if TimeDistance.__lt__ new_dist dn then
    let distances' :=
      <[neighbor := TimeDistance.updated new_dist]> (distances s) in
    let prev' := <[neighbor := curr]> (prev s) in
    if bool_decide (neighbor ∈ visited s) then
      mret (mkTables distances' prev' (visited s) (queue s))
    else
      mret (mkTables distances' prev' ({[neighbor]} ∪ visited s)
              (heappush entry_lt (queue s)
                 (TimeDistance.updated new_dist, neighbor)))
  else mret s.

Section WithGamma.
Variable gamma_cdf : GammaParams -> Z -> Q.

(** [time_filter] of [neighbours], on the values of the two dictionaries.
    [prev_props], [previous_dep_time] and [current_best_dep_time] are the
    variables that [neighbours] binds when a stop is popped. *)
Definition time_filter (prev_props : EdgeProps) (previous_dep_time : Z)
    (current_best_dep_time : xtime) (threshold : Q) (props : EdgeProps)
    : res bool :=
  let isFoot := String.eqb (ttype props) "Foot" in
  let consecutiveFoot := isFoot && String.eqb (ttype prev_props) "Foot" in
  let inTimeRange :=
    (previous_dep_time >=? arr_time props)
    && (arr_time props >=? previous_dep_time - MAX_WAITING_TIME)
    && xgeb (Fin (dep_time props)) current_best_dep_time in
  if (isFoot || inTimeRange) && negb consecutiveFoot then
    p ← Delay.connection_probability gamma_cdf props prev_props;
    mret (Qle_bool threshold p)
  else Ok false.

(** One turn of the [for] loop over [neighbours(curr)]: the filter is
    lazy, so an edge is tested when the loop reaches it, and relaxed if it
    passes. *)
Definition relax (curr : ID) (prev_props : loc) (previous_dep_time : Z)
    (current_best_dep_time : xtime) (threshold : Q) (edge : ID * ID * loc)
    (s : tables) : M tables :=
  let neighbor := edge.1.2 in
  let properties := edge.2 in
  pp ← read (fun st => deref st prev_props);
  p ← read (fun st => deref st properties);
  ok ← lift (time_filter pp previous_dep_time current_best_dep_time
               threshold p);
  if ok : bool then
    dcurr ← lift (getitem_dict (distances s) curr);
    new_dist ← TimeDistance.__add__ dcurr properties;
    dn ← lift (getitem_dict (distances s) neighbor);
    if TimeDistance.__lt__ new_dist dn then
      let distances' :=
        <[neighbor := TimeDistance.updated new_dist]> (distances s) in
      let prev' := <[neighbor := curr]> (prev s) in
      if bool_decide (neighbor ∈ visited s) then
        mret (mkTables distances' prev' (visited s) (queue s))
      else
        mret (mkTables distances' prev' ({[neighbor]} ∪ visited s)
                (heappush entry_lt (queue s)
                   (TimeDistance.updated new_dist, neighbor)))
    else mret s
  else mret s.

Fixpoint relax_edges (es : list (ID * ID * loc)) (curr : ID)
    (prev_props : loc) (previous_dep_time : Z)
    (current_best_dep_time : xtime) (threshold : Q) (s : tables) : M tables :=
  match es with
  | [] => mret s
  | edge :: es' =>
      s' ← relax curr prev_props previous_dep_time current_best_dep_time
             threshold edge s;
      relax_edges es' curr prev_props previous_dep_time
        current_best_dep_time threshold s'
  end.

(** One turn of the [while] loop, for the popped node [curr]: the
    variables of [neighbours(curr)] are bound, then its out-edges are
    gone through. *)
Definition visit (G : gref) (start : ID) (arr_time : Z) (threshold : Q)
    (curr : ID) (s : tables) : M tables :=
  dcurr ← lift (getitem_dict (distances s) curr);
  let prev_props := TimeDistance.prev_props dcurr in
  previous_dep_time ←
    read (fun st => TimeDistance.previous_dep_time st dcurr);
  dstart ← lift (getitem_dict (distances s) start);
  let current_best_dep_time :=
    xsub arr_time (TimeDistance.__call__ dstart) in
  gr ← read (fun st => get_graph st G);
  relax_edges (nx.out_edges gr curr) curr prev_props previous_dep_time
    current_best_dep_time threshold s.

(** The [while not queue.empty()] loop. *)
Fixpoint search_loop (fuel : nat) (G : gref) (start : ID) (arr_time : Z)
    (threshold : Q) (s : tables) : M tables :=
  match heappop entry_lt (queue s) with
  | None => mret s
  | Some (entry, queue') =>
      match fuel with
      | O => raise OutOfFuel
      | S fuel' =>
          let curr := entry.2 in
          s' ← visit G start arr_time threshold curr
                 (mkTables (distances s) (prev s) ({[curr]} ∪ visited s)
                    queue');
          search_loop fuel' G start arr_time threshold s'
      end
  end.

(** The [while node != end] loop of [build_route]. *)
Fixpoint build_loop (fuel : nat) (s : tables) (end_ : ID) (route : Route.t)
    (node : ID) (dist : TimeDistance.t) : res Route.t :=
  if negb (String.eqb node end_) then
    match fuel with
    | O => Raise OutOfFuel
    | S fuel' =>
        let route := Route.append route node dist in
        node' ← getitem_dict (prev s) node;
        dist' ← getitem_dict (distances s) node';
        build_loop fuel' s end_ route node' dist'
    end
  else Ok (Route.append route node dist).

Definition build_route (fuel : nat) (G : gref) (s : tables) (start end_ : ID)
    : res (option Route.t) :=
  match prev s !! start with
  | None => Ok None
  | Some _ =>
      let route := Route.__init__ G in
      dist ← getitem_dict (distances s) start;
      r ← build_loop fuel s end_ route start dist;
      mret (Some r)
  end.

(** [{v: TimeDistance(time=arr_time) for v in nx.nodes(self.G)}] *)
Fixpoint init_distances (vs : list ID) (arr_time : Z)
    (d : gmap ID TimeDistance.t) : M (gmap ID TimeDistance.t) :=
  match vs with
  | [] => mret d
  | v :: vs' =>
      l ← TimeDistance.__init__ true 0 None arr_time;
      init_distances vs' arr_time (<[v := l]> d)
  end.

(** [arr_time] is a timestamp here (the conversion of ["HH:MM:SS"] strings
    is not modelled). [fuel] bounds the turns of the two [while] loops. *)
Definition stochastic_dijkstra (fuel : nat) (self : t) (start end_ : string)
    (arr_time : Z) (threshold : Q) (names_format : bool)
    : M (option Route.t) :=
  start ← (if names_format
           then lift (getitem_dict (stop_name_to_id self) start)
           else mret start);
  end_ ← (if names_format
          then lift (getitem_dict (stop_name_to_id self) end_)
          else mret end_);
  gr ← read (fun st => get_graph st (G self));
  distances ← init_distances (nx.nodes gr) arr_time ∅;
  dend ← lift (getitem_dict distances end_);
  let distances := <[end_ := TimeDistance.updated dend]> distances in
  dend ← lift (getitem_dict distances end_);
  let s := mkTables distances ∅ ∅ (heappush entry_lt [] (dend, end_)) in
  s ← search_loop fuel (G self) start arr_time threshold s;
  lift (build_route fuel (G self) s start end_).

(** [isSameEdge] of [find_edge_key] *)
Definition isSameEdge (e props : EdgeProps) : bool :=
  ((dep_time e =? dep_time props) && (arr_time e =? arr_time props)
   && trip_eqb (trip_id e) (trip_id props))
  || (String.eqb (ttype props) "Foot" && String.eqb (ttype e) "Foot").

Fixpoint find_loop (st : State) (edges : KeyDict) (props : EdgeProps)
    : res (option Z) :=
  match edges with
  | [] => Ok None
  | (e, l) :: edges' =>
      pe ← deref st l;
      if isSameEdge pe props then Ok (Some e) else find_loop st edges' props
  end.

Definition find_edge_key (st : State) (graph : gref) (u v : ID) (props : loc)
    : res (option Z) :=
  gr ← get_graph st graph;
  edges ← nx.getitem_uv gr u v;
  p ← deref st props;
  find_loop st edges p.

(** [if not routes_list: routes_list.append(route)], then [routes_list] *)
Definition or_best (routes_list : list Route.t) (route : Route.t)
    : list Route.t :=
  match routes_list with
  | [] => [route]
  | _ :: _ => routes_list
  end.

(** The [while i < max_iter and len(routes_list) < number_of_routes] loop;
    [n] is [max_iter - i], and [i] itself is only printed. *)
Fixpoint robust_loop (n : nat) (fuel : nat) (self : t) (graph : gref)
    (start end_ : string) (arr_time : Z) (threshold : Q)
    (number_of_routes : Z) (routes_list : list Route.t) (route : Route.t)
    (proba : Q) (weakest : ID * ID * loc) : M (list Route.t) :=
  match n with
  | O => mret (or_best routes_list route)
  | S n' =>
      if Z.of_nat (length routes_list) <? number_of_routes then
        let '(u, v, props) := weakest in
        to_remove ← read (fun st => find_edge_key st graph u v props);
        _ ← nx.remove_edge graph u v to_remove;
        let new_routing := mk graph (stop_name_to_id self) in
        new_route ← stochastic_dijkstra fuel new_routing start end_ arr_time
                      threshold true;
        match new_route with
        | None => mret (or_best routes_list route)
        | Some new_route =>
            r ← read (fun st => Route.success_proba gamma_cdf st new_route);
            let new_proba := r.1 in
            let routes_list :=
              if Qle_bool threshold new_proba
              then (routes_list ++ [new_route])%list else routes_list in
            if Qlt_bool proba new_proba
            then robust_loop n' fuel self graph start end_ arr_time threshold
                   number_of_routes routes_list new_route new_proba r.2
            else robust_loop n' fuel self graph start end_ arr_time threshold
                   number_of_routes routes_list route proba r.2
        end
      else mret (or_best routes_list route)
  end.

(** [verbose] only prints and is left out. *)
Definition robust (fuel : nat) (self : t) (start end_ : string)
    (arr_time : Z) (threshold : Q) (max_iter number_of_routes : Z)
    : M (option (list Route.t)) :=
  graph ← nx.copy (G self);
  route ← stochastic_dijkstra fuel self start end_ arr_time threshold true;
  match route with
  | None => mret None
  | Some route =>
      r ← read (fun st => Route.success_proba gamma_cdf st route);
      let proba := r.1 in
      let routes_list := if Qle_bool threshold proba then [route] else [] in
      rl ← robust_loop (Z.to_nat (max_iter - 1)) fuel self graph start end_
             arr_time threshold number_of_routes routes_list route proba r.2;
      mret (Some rl)
  end.

End WithGamma.

End Routing.

(** ** The planner on binary64 times

    [Time] is [float] in utils.py: the target of a search, the times of
    the timetable and above all the walking times ([dist /
    WALKING_SPEED]) are binary64 numbers in general, and Python adds and
    subtracts them with rounding. The definitions above take times that
    are whole seconds, on which that arithmetic is exact; the module below
    is the search again, from the same source lines, on binary64 times. It
    shares the exceptions, the heap, the graphs and the penalty table with
    the definitions above. *)
Module Binary64.

(** An [int] operand of a [float] operation. *)
Definition of_int (z : Z) : float := PrimFloat.of_uint63 (Uint63.of_Z z).

Definition WALKING_SPEED : float := (50 / 60)%float.

Record EdgeProps : Type := mkProps {
  gamma : option GammaParams;
  arr_time : float;
  dep_time : float;
  ttype : string;
  trip_id : TripId;
  travel_time : option float
}.

Record State : Type := mkState {
  dicts : list EdgeProps;
  graphs : list Graph
}.

Definition M (A : Type) : Type := State -> res (A * State).

#[global] Instance M_ret : MRet M := fun A a st => Ok (a, st).
#[global] Instance M_bind : MBind M := fun A B k m st =>
  match m st with
  | Ok (a, st') => k a st'
  | Raise e => Raise e
  end.

Definition raise {A} (e : error) : M A := fun _ => Raise e.

Definition read {A} (f : State -> res A) : M A := fun st =>
  match f st with
  | Ok a => Ok (a, st)
  | Raise e => Raise e
  end.

Definition lift {A} (r : res A) : M A := read (fun _ => r).

Definition deref (st : State) (l : loc) : res EdgeProps :=
  match dicts st !! l with
  | Some p => Ok p
  | None => Raise DanglingRef
  end.

Definition alloc (p : EdgeProps) : M loc := fun st =>
  Ok (length (dicts st), mkState (dicts st ++ [p]) (graphs st)).

Definition dict_copy (l : loc) : M loc :=
  p ← read (fun st => deref st l); alloc p.

Definition setitem (l : loc) (f : EdgeProps -> EdgeProps) : M unit := fun st =>
  match dicts st !! l with
  | Some p => Ok (tt, mkState (<[l := f p]> (dicts st)) (graphs st))
  | None => Raise DanglingRef
  end.

Definition set_dep_time (v : float) (p : EdgeProps) : EdgeProps :=
  mkProps (gamma p) (arr_time p) v (ttype p) (trip_id p) (travel_time p).
Definition set_arr_time (v : float) (p : EdgeProps) : EdgeProps :=
  mkProps (gamma p) v (dep_time p) (ttype p) (trip_id p) (travel_time p).

Definition getitem_travel_time (p : EdgeProps) : res float :=
  match travel_time p with
  | Some t => Ok t
  | None => Raise (KeyError "travel_time")
  end.

Definition get_graph (st : State) (g : gref) : res Graph :=
  match graphs st !! g with
  | Some gr => Ok gr
  | None => Raise DanglingRef
  end.

(** [EXTRA_TRANSFER_TIME[ttype]], an [int] *)
Definition penalty (ttype : string) : res float :=
  res_bind (Delay.penalty ttype) (fun p => Ok (of_int p)).

Module TimeDistance.

Record t : Type := mk {
  first : bool;
  cum_time : float;
  prev_props : loc
}.

Definition INIT_PROPS (time : float) : EdgeProps :=
  mkProps None time time INIT_TTYPE INIT_TRIP_ID None.

Definition __init__ (first : bool) (cum_time : float)
    (prev_props : option loc) (time : float) : M t :=
  match prev_props with
  | None => l ← alloc (INIT_PROPS time); mret (mk first cum_time l)
  | Some l => mret (mk first cum_time l)
  end.

Definition updated (self : t) : t :=
  mk false (cum_time self) (prev_props self).

Definition __call__ (self : t) : float :=
  if first self then infinity else cum_time self.

Definition __lt__ (self other : t) : bool :=
  (__call__ self <? __call__ other)%float.

Definition __add__ (self : t) (props : loc) : M t :=
  p ← read (fun st => deref st props);
  props ← (if String.eqb (ttype p) "Foot" then
             props ← dict_copy props;
             sp ← read (fun st => deref st (prev_props self));
             p ← read (fun st => deref st props);
             tt ← lift (getitem_travel_time p);
             _ ← setitem props (set_dep_time (dep_time sp - tt)%float);
             sp ← read (fun st => deref st (prev_props self));
             _ ← setitem props (set_arr_time (dep_time sp));
             mret props
           else mret props);
  sp ← read (fun st => deref st (prev_props self));
  p ← read (fun st => deref st props);
  tt ← lift (getitem_travel_time p);
  __init__ (first self)
    (cum_time self + dep_time sp - arr_time p + tt)%float (Some props)
    0%float.

Definition previous_dep_time (st : State) (self : t) : res float :=
  p ← deref st (prev_props self); mret (dep_time p).

End TimeDistance.

Definition __compute_delay (arrival_time next_departure_time : float)
    (ttype : string) (previous_route_id next_route_id : TripId)
    : res float :=
  let time_to_make_connection :=
    (next_departure_time - arrival_time)%float in
  if negb (trip_eqb previous_route_id next_route_id)
  then res_bind (penalty ttype)
         (fun p => Ok (time_to_make_connection - p)%float)
  else Ok time_to_make_connection.

Section WithGamma.
Variable gamma_cdf : GammaParams -> float -> Q.

Definition __connection_probability (delay : float)
    (gamma_params : option GammaParams) (ttype : string)
    (previous_route_id next_route_id : TripId) : Q :=
  if String.eqb ttype "Foot" then 1%Q
  else if trip_eqb previous_route_id next_route_id then 1%Q
  else match gamma_params with
       | None => 1%Q
       | Some g => gamma_cdf g delay
       end.

Definition connection_probability (prev_props curr_props : EdgeProps)
    : res Q :=
  res_bind
    (__compute_delay (arr_time prev_props) (dep_time curr_props)
       (ttype prev_props) (trip_id prev_props) (trip_id curr_props))
    (fun d =>
       Ok (__connection_probability d (gamma prev_props) (ttype curr_props)
             (trip_id prev_props) (trip_id curr_props))).

End WithGamma.

Module Route.

Record t : Type := mk {
  G : gref;
  connections : list ID;
  distances : list TimeDistance.t
}.

Definition __init__ (G : gref) : t := mk G [] [].

Definition append (self : t) (node : ID) (dist : TimeDistance.t) : t :=
  mk (G self) (connections self ++ [node]) (distances self ++ [dist]).

Definition assert_not_empty (self : t) : res unit :=
  match connections self with
  | [] => Raise (AssertionError "Empty route")
  | _ :: _ => Ok tt
  end.

Definition travel_time (self : t) : res float :=
  _ ← assert_not_empty self;
  d0 ← getitem_list (distances self) 0;
  mret (TimeDistance.cum_time d0).

Definition arr_time (st : State) (self : t) : res float :=
  _ ← assert_not_empty self;
  tr ← travel_time self;
  d0 ← getitem_list (distances self) 0;
  p ← deref st (TimeDistance.prev_props d0);
  mret (tr + dep_time p)%float.

End Route.

Module Routing.

Definition MAX_WAITING_TIME : float := of_int (45 * 60).

Record t : Type := mk {
  G : gref;
  stop_name_to_id : gmap Name ID
}.

Record tables : Type := mkTables {
  distances : gmap ID TimeDistance.t;
  prev : gmap ID ID;
  visited : gset ID;
  queue : list (TimeDistance.t * ID)
}.

Definition entry_lt (a b : TimeDistance.t * ID) : bool :=
  TimeDistance.__lt__ a.1 b.1.

Section WithGamma.
Variable gamma_cdf : GammaParams -> float -> Q.

Definition time_filter (prev_props : EdgeProps) (previous_dep_time : float)
    (current_best_dep_time : float) (threshold : Q) (props : EdgeProps)
    : res bool :=
  let isFoot := String.eqb (ttype props) "Foot" in
  let consecutiveFoot := isFoot && String.eqb (ttype prev_props) "Foot" in
  let inTimeRange :=
    (arr_time props <=? previous_dep_time)%float
    && (previous_dep_time - MAX_WAITING_TIME <=? arr_time props)%float
    && (current_best_dep_time <=? dep_time props)%float in
  if (isFoot || inTimeRange) && negb consecutiveFoot then
    p ← connection_probability gamma_cdf props prev_props;
    mret (Qle_bool threshold p)
  else Ok false.

Definition relax (curr : ID) (prev_props : loc) (previous_dep_time : float)
    (current_best_dep_time : float) (threshold : Q) (edge : ID * ID * loc)
    (s : tables) : M tables :=
  let neighbor := edge.1.2 in
  let properties := edge.2 in
  pp ← read (fun st => deref st prev_props);
  p ← read (fun st => deref st properties);
  ok ← lift (time_filter pp previous_dep_time current_best_dep_time
               threshold p);
  if ok : bool then
    dcurr ← lift (getitem_dict (distances s) curr);
    new_dist ← TimeDistance.__add__ dcurr properties;
    dn ← lift (getitem_dict (distances s) neighbor);
    if TimeDistance.__lt__ new_dist dn then
      let distances' :=
        <[neighbor := TimeDistance.updated new_dist]> (distances s) in
      let prev' := <[neighbor := curr]> (prev s) in
      if bool_decide (neighbor ∈ visited s) then
        mret (mkTables distances' prev' (visited s) (queue s))
      else
        mret (mkTables distances' prev' ({[neighbor]} ∪ visited s)
                (heappush entry_lt (queue s)
                   (TimeDistance.updated new_dist, neighbor)))
    else mret s
  else mret s.

Fixpoint relax_edges (es : list (ID * ID * loc)) (curr : ID)
    (prev_props : loc) (previous_dep_time : float)
    (current_best_dep_time : float) (threshold : Q) (s : tables)
    : M tables :=
  match es with
  | [] => mret s
  | edge :: es' =>
      s' ← relax curr prev_props previous_dep_time current_best_dep_time
             threshold edge s;
      relax_edges es' curr prev_props previous_dep_time
        current_best_dep_time threshold s'
  end.

Definition visit (G : gref) (start : ID) (arr_time : float) (threshold : Q)
    (curr : ID) (s : tables) : M tables :=
  dcurr ← lift (getitem_dict (distances s) curr);
  let prev_props := TimeDistance.prev_props dcurr in
  previous_dep_time ←
    read (fun st => TimeDistance.previous_dep_time st dcurr);
  dstart ← lift (getitem_dict (distances s) start);
  let current_best_dep_time :=
    (arr_time - TimeDistance.__call__ dstart)%float in
  gr ← read (fun st => get_graph st G);
  relax_edges (nx.out_edges gr curr) curr prev_props previous_dep_time
    current_best_dep_time threshold s.

Fixpoint search_loop (fuel : nat) (G : gref) (start : ID) (arr_time : float)
    (threshold : Q) (s : tables) : M tables :=
  match heappop entry_lt (queue s) with
  | None => mret s
  | Some (entry, queue') =>
      match fuel with
      | O => raise OutOfFuel
      | S fuel' =>
          let curr := entry.2 in
          s' ← visit G start arr_time threshold curr
                 (mkTables (distances s) (prev s) ({[curr]} ∪ visited s)
                    queue');
          search_loop fuel' G start arr_time threshold s'
      end
  end.

Fixpoint build_loop (fuel : nat) (s : tables) (end_ : ID) (route : Route.t)
    (node : ID) (dist : TimeDistance.t) : res Route.t :=
  if negb (String.eqb node end_) then
    match fuel with
    | O => Raise OutOfFuel
    | S fuel' =>
        let route := Route.append route node dist in
        node' ← getitem_dict (prev s) node;
        dist' ← getitem_dict (distances s) node';
        build_loop fuel' s end_ route node' dist'
    end
  else Ok (Route.append route node dist).

Definition build_route (fuel : nat) (G : gref) (s : tables) (start end_ : ID)
    : res (option Route.t) :=
  match prev s !! start with
  | None => Ok None
  | Some _ =>
      let route := Route.__init__ G in
      dist ← getitem_dict (distances s) start;
      r ← build_loop fuel s end_ route start dist;
      mret (Some r)
  end.

Fixpoint init_distances (vs : list ID) (arr_time : float)
    (d : gmap ID TimeDistance.t) : M (gmap ID TimeDistance.t) :=
  match vs with
  | [] => mret d
  | v :: vs' =>
      l ← TimeDistance.__init__ true 0%float None arr_time;
      init_distances vs' arr_time (<[v := l]> d)
  end.

Definition stochastic_dijkstra (fuel : nat) (self : t) (start end_ : string)
    (arr_time : float) (threshold : Q) (names_format : bool)
    : M (option Route.t) :=
  start ← (if names_format
           then lift (getitem_dict (stop_name_to_id self) start)
           else mret start);
  end_ ← (if names_format
          then lift (getitem_dict (stop_name_to_id self) end_)
          else mret end_);
  gr ← read (fun st => get_graph st (G self));
  distances ← init_distances (nx.nodes gr) arr_time ∅;
  dend ← lift (getitem_dict distances end_);
  let distances := <[end_ := TimeDistance.updated dend]> distances in
  dend ← lift (getitem_dict distances end_);
  let s := mkTables distances ∅ ∅ (heappush entry_lt [] (dend, end_)) in
  s ← search_loop fuel (G self) start arr_time threshold s;
  lift (build_route fuel (G self) s start end_).

End WithGamma.

End Routing.

(** The data model of the timetable, on binary64 times. *)
Definition timetable_edge (e : EdgeProps) : Prop :=
  (ttype e <> "Foot" ->
   travel_time e = Some (arr_time e - dep_time e)%float)
  /\ (ttype e = "Foot" ->
      exists t, travel_time e = Some t /\ (0 <=? t)%float = true).

(** Two stops 320.9 m apart, joined by a walk from S to E (stored
    reversed, as out-edge of E), and a search that must arrive at E by
    08:20:00.3. *)
Module Sample.

Definition cdf (g : GammaParams) (t : float) : Q :=
  if (t <=? 0)%float then 0%Q else 1%Q.

Definition walk : EdgeProps :=
  mkProps None 0%float 0%float "Foot" FOOT_TRIP_ID
    (Some (of_int 3209 / 10 / WALKING_SPEED)%float).

Definition graph : Graph := [ ("S", []); ("E", [("S", [(0, 0%nat)])]) ].
Definition store : State := mkState [walk] [graph].
Definition planner : Routing.t :=
  Routing.mk 0%nat {[ "S" := "S"; "E" := "E" ]}.
Definition target : float := (of_int 300003 / 10)%float.

End Sample.

End Binary64.

(** ** Sample data, to run the definitions on

    A step function that has the shape of a distribution function with
    [loc = 0]: null up to 0, non-decreasing, at most 1. *)
Module Sample.

Definition cdf (g : GammaParams) (t : Z) : Q :=
  if t <=? 0 then 0%Q else if t <? 60 then (1 # 2)%Q else 1%Q.

Definition g0 : GammaParams := (2%Q, 0%Q, 30%Q).

(** The 08:00 -> 08:10 ride of trip T1 and a later bus of trip T2. *)
Definition ride : EdgeProps :=
  mkProps (Some g0) 29400 28800 "Bus" (TripStr "T1") (Some 600).
Definition bus2 : EdgeProps :=
  mkProps (Some g0) 30300 29430 "Bus" (TripStr "T2") (Some 870).
Definition walk : EdgeProps :=
  mkProps None 0 0 "Foot" FOOT_TRIP_ID (Some 300).

(** The line A -> B -> C, stored reversed: [ride] from A to B, [bus2] from
    B to C, and the names of the stops. *)
Definition graph : Graph :=
  [ ("A", []); ("B", [("A", [(0, 0%nat)])]); ("C", [("B", [(0, 1%nat)])]) ].
Definition store : State := mkState [ride; bus2] [graph].
Definition planner : Routing.t :=
  Routing.mk 0%nat {[ "A" := "A"; "B" := "B"; "C" := "C" ]}.

(** The store and the tables of a search that must arrive at C by 08:26:40,
    before its first pop: the label of C is the initial one, at address
    2, the other stops have no cost yet. *)
Definition store0 : State :=
  mkState [ride; bus2; TimeDistance.INIT_PROPS 30400] [graph].
Definition tables0 : Routing.tables :=
  Routing.mkTables
    {[ "A" := TimeDistance.mk true 0 2%nat;
       "B" := TimeDistance.mk true 0 2%nat;
       "C" := TimeDistance.mk false 0 2%nat ]}
    ∅ ∅ [(TimeDistance.mk false 0 2%nat, "C")].

End Sample.

(** ** Vocabulary of the statements *)

(** The modes that have a transfer penalty. *)
Definition has_penalty (m : string) : Prop :=
  is_Some (Delay.dict_get Delay.EXTRA_TRANSFER_TIME m).

(** What a foot edge becomes when it is relaxed from a label whose last
    edge leaves at [d]. *)
Definition rewritten (d : Z) (e : EdgeProps) : EdgeProps :=
  match travel_time e with
  | Some t =>
      if String.eqb (ttype e) "Foot"
      then set_arr_time d (set_dep_time (d - t) e)
      else e
  | None => e
  end.


(** [st'] has every dictionary and every graph of [st], unchanged, and
    possibly new dictionaries. *)
Definition extends (st st' : State) : Prop :=
  dicts st `prefix_of` dicts st' /\ graphs st' = graphs st.

(** [st'] has every dictionary and every graph of [st], unchanged, and
    possibly new dictionaries and new graphs. *)
Definition grows (st st' : State) : Prop :=
  dicts st `prefix_of` dicts st' /\ graphs st `prefix_of` graphs st'.

(** The addresses of the attribute dictionaries of a graph. *)
Definition edge_locs (gr : Graph) : list loc :=
  flat_map (fun un : ID * list (ID * KeyDict) =>
              flat_map (fun vk : ID * KeyDict => vk.2.*2) un.2) gr.

(** The data model of the timetable: a scheduled edge lasts from its
    departure to its arrival, a walk has a duration that is not negative. *)
Definition timetable_edge (e : EdgeProps) : Prop :=
  (ttype e <> "Foot" -> travel_time e = Some (arr_time e - dep_time e))
  /\ (ttype e = "Foot" -> exists t, travel_time e = Some t /\ 0 <= t).

(** * Properties *)

Lemma trip_eqb_eq a b : trip_eqb a b = true <-> a = b.
Proof.
  destruct a as [s|z], b as [s'|z']; simpl; split; try congruence.
  - intros H%String.eqb_eq. by subst.
  - intros [= ->]. apply String.eqb_refl.
  - intros H%Z.eqb_eq. by subst.
  - intros [= ->]. apply Z.eqb_refl.
Qed.

Lemma trip_eqb_neq a b : trip_eqb a b = false <-> a <> b.
Proof.
  rewrite <- trip_eqb_eq. destruct (trip_eqb a b); split; congruence.
Qed.

Lemma string_eqb_neq (a b : string) : String.eqb a b = false <-> a <> b.
Proof. apply String.eqb_neq. Qed.

Lemma dict_get_is_Some d k : is_Some (Delay.dict_get d k) <-> k ∈ d.*1.
Proof.
  induction d as [|[k' v] d IH]; simpl.
  - split; [intros [? [=]] | intros H; by apply elem_of_nil in H].
  - rewrite elem_of_cons. destruct (String.eqb_spec k' k) as [->|Hne].
    + split; [by left | eauto].
    + rewrite IH. split; [by right | intros [->|H]; [done | exact H]].
Qed.

Lemma has_penalty_modes m :
  has_penalty m <->
  m ∈ ["Bus"; "Foot"; "Tram"; "S-Bahn"; "Extrazug"; "InterRegio"; "Eurocity";
       "RegioExpress"; "ICE"; "Eurostar"; "Intercity"].
Proof. apply dict_get_is_Some. Qed.

Section DelayFacts.
Variable gamma_cdf : GammaParams -> Z -> Q.

Lemma compute_delay_same a d m (r1 r2 : TripId) :
  r1 = r2 -> Delay.__compute_delay a d m r1 r2 = Ok (d - a).
Proof.
  intros <-. unfold Delay.__compute_delay.
  by rewrite (proj2 (trip_eqb_eq r1 r1) eq_refl).
Qed.

Lemma compute_delay_change a d m (r1 r2 : TripId) pen :
  r1 <> r2 -> Delay.dict_get Delay.EXTRA_TRANSFER_TIME m = Some pen ->
  Delay.__compute_delay a d m r1 r2 = Ok (d - a - pen).
Proof.
  intros Hne Hp. unfold Delay.__compute_delay, Delay.penalty.
  by rewrite (proj2 (trip_eqb_neq r1 r2) Hne), Hp.
Qed.

Lemma compute_delay_missing a d m (r1 r2 : TripId) :
  r1 <> r2 -> Delay.dict_get Delay.EXTRA_TRANSFER_TIME m = None ->
  Delay.__compute_delay a d m r1 r2 = Raise (KeyError m).
Proof.
  intros Hne Hp. unfold Delay.__compute_delay, Delay.penalty.
  by rewrite (proj2 (trip_eqb_neq r1 r2) Hne), Hp.
Qed.

(** The lookup is the only way for [connection_probability] to fail. *)
Lemma connection_probability_total prev_props curr_props :
  has_penalty (ttype prev_props) ->
  exists q, Delay.connection_probability gamma_cdf prev_props curr_props = Ok q.
Proof.
  intros [pen Hpen]. unfold Delay.connection_probability.
  destruct (decide (trip_id prev_props = trip_id curr_props)) as [He|Hne].
  - rewrite compute_delay_same by done. simpl. eauto.
  - rewrite (compute_delay_change _ _ _ _ _ pen) by done. simpl. eauto.
Qed.

(** The value of [connection_probability] when the lookup can succeed. *)
Lemma connection_probability_value prev_props curr_props pen :
  (trip_id prev_props <> trip_id curr_props ->
   Delay.dict_get Delay.EXTRA_TRANSFER_TIME (ttype prev_props) = Some pen) ->
  Delay.connection_probability gamma_cdf prev_props curr_props
  = Ok (if decide (ttype curr_props = "Foot"
                   \/ trip_id prev_props = trip_id curr_props)
        then 1%Q
        else match gamma prev_props with
             | None => 1%Q
             | Some g =>
                 gamma_cdf g
                   (dep_time curr_props - arr_time prev_props - pen)
             end).
Proof.
  intros Hpen. unfold Delay.connection_probability.
  destruct (decide (trip_id prev_props = trip_id curr_props)) as [He|Hne].
  - rewrite compute_delay_same by done. simpl.
    unfold Delay.__connection_probability.
    rewrite (proj2 (trip_eqb_eq _ _) He), decide_True by auto.
    by destruct (String.eqb _ _).
  - rewrite (compute_delay_change _ _ _ _ _ pen) by auto. simpl.
    unfold Delay.__connection_probability.
    rewrite (proj2 (trip_eqb_neq _ _) Hne).
    destruct (String.eqb_spec (ttype curr_props) "Foot") as [Hf|Hf].
    + by rewrite decide_True by auto.
    + by rewrite decide_False by tauto.
Qed.

End DelayFacts.

(** ** delay.py: the connection probability *)

(** C1, as the code has it. Whenever the lookup of the penalty can succeed
    (the two trips are equal, or the mode of [prev_props] is a key of
    [EXTRA_TRANSFER_TIME] with penalty [pen]), [connection_probability] is
    1 for equal trips, for a [curr_props] on foot and for a [prev_props]
    without [gamma]; otherwise it is the distribution function of
    [prev_props.gamma] at the slack minus the penalty of [prev_props.ttype].
    The delay has the penalty subtracted exactly when the trips differ, and
    the table is the one of the specification. *)
Theorem connection_probability_spec (gamma_cdf : GammaParams -> Z -> Q)
    (prev_props curr_props : EdgeProps) (pen : Z) :
  (trip_id prev_props <> trip_id curr_props ->
   Delay.dict_get Delay.EXTRA_TRANSFER_TIME (ttype prev_props) = Some pen) ->
  let cp := Delay.connection_probability gamma_cdf prev_props curr_props in
  let slack := dep_time curr_props - arr_time prev_props in
  (trip_id prev_props = trip_id curr_props -> cp = Ok 1%Q)
  /\ (ttype curr_props = "Foot" -> cp = Ok 1%Q)
  /\ (gamma prev_props = None -> cp = Ok 1%Q)
  /\ (forall g, trip_id prev_props <> trip_id curr_props ->
        ttype curr_props <> "Foot" -> gamma prev_props = Some g ->
        cp = Ok (gamma_cdf g (slack - pen)))
  /\ Delay.__compute_delay (arr_time prev_props) (dep_time curr_props)
       (ttype prev_props) (trip_id prev_props) (trip_id curr_props)
     = Ok (if decide (trip_id prev_props = trip_id curr_props)
           then slack else slack - pen)
  /\ Delay.dict_get Delay.EXTRA_TRANSFER_TIME <$>
       ["Bus"; "Foot"; "Tram"; "S-Bahn"; "Extrazug"; "InterRegio";
        "Eurocity"; "RegioExpress"; "ICE"; "Eurostar"; "Intercity"]
     = Some <$> [20; 20; 30; 100; 100; 120; 120; 120; 120; 120; 120].
Proof.
  intros Hpen cp slack.
  pose proof (connection_probability_value gamma_cdf _ _ _ Hpen) as Hcp.
  fold cp in Hcp. repeat split.
  - intros He. by rewrite Hcp, decide_True by auto.
  - intros Hf. by rewrite Hcp, decide_True by auto.
  - intros Hg. rewrite Hcp, Hg. by case_decide.
  - intros g Hne Hf Hg. by rewrite Hcp, Hg, decide_False by tauto.
  - clear Hcp.
    destruct (decide (trip_id prev_props = trip_id curr_props)) as [He|Hne].
    + by apply compute_delay_same.
    + apply compute_delay_change; auto.
Qed.

Lemma connection_probability_spec_witness :
  Delay.connection_probability Sample.cdf Sample.ride Sample.bus2
  = Ok (Sample.cdf Sample.g0 (29430 - 29400 - 20)).
Proof.
  destruct (connection_probability_spec Sample.cdf Sample.ride Sample.bus2 20
              (fun _ => eq_refl)) as (_ & _ & _ & H & _).
  apply H; [discriminate | discriminate | reflexivity].
Defined.

(** C1 as stated fails where the mode of [prev_props] has no penalty: with
    the [INIT_PROPS] dictionary of a fresh label as [prev_props] ([gamma]
    absent) the call raises [KeyError] instead of returning 1. *)
Lemma connection_probability_init_raises :
  gamma (TimeDistance.INIT_PROPS 29400) = None
  /\ Delay.connection_probability Sample.cdf
       (TimeDistance.INIT_PROPS 29400) Sample.ride
     = Raise (KeyError "Init")
  /\ Delay.connection_probability Sample.cdf
       (TimeDistance.INIT_PROPS 29400) Sample.ride
     <> Ok 1%Q.
Proof. split; [reflexivity|]. split; [reflexivity | discriminate]. Qed.


(** ** routing.py: the filter of the out-edges *)



(** ** The store *)

Lemma M_bind_Ok {A B} (m : M A) (k : A -> M B) st b st' :
  (a ← m; k a) st = Ok (b, st') <->
  exists a st1, m st = Ok (a, st1) /\ k a st1 = Ok (b, st').
Proof.
  unfold mbind, M_bind. destruct (m st) as [[a st1]|e].
  - split; [eauto | intros (? & ? & [= <- <-] & H); exact H].
  - split; [discriminate | intros (? & ? & [=] & _)].
Qed.

Lemma read_Ok {A} (f : State -> res A) st a st' :
  read f st = Ok (a, st') <-> f st = Ok a /\ st' = st.
Proof.
  unfold read. destruct (f st) as [a'|e].
  - split; [intros [= -> ->]; done | intros [[= ->] ->]; done].
  - split; [discriminate | intros [[=] _]].
Qed.

Lemma deref_Ok st l p : deref st l = Ok p <-> dicts st !! l = Some p.
Proof.
  unfold deref. destruct (dicts st !! l); split; congruence.
Qed.

Lemma add_Ok (self : TimeDistance.t) (props : loc) (st : State) e sp t :
  dicts st !! props = Some e ->
  dicts st !! TimeDistance.prev_props self = Some sp ->
  travel_time e = Some t ->
  TimeDistance.__add__ self props st
  = Ok (TimeDistance.mk (TimeDistance.first self)
          (TimeDistance.cum_time self + dep_time sp
           - arr_time (rewritten (dep_time sp) e) + t)
          (if String.eqb (ttype e) "Foot" then length (dicts st) else props),
        mkState
          (if String.eqb (ttype e) "Foot"
           then dicts st ++ [rewritten (dep_time sp) e] else dicts st)
          (graphs st)).
Proof.
  intros He Hsp Ht.
  unfold TimeDistance.__add__, rewritten. rewrite Ht.
  unfold mbind at 1, M_bind, read at 1, deref at 1. rewrite He.
  destruct (String.eqb (ttype e) "Foot") eqn:Hfoot.
  - unfold dict_copy, alloc, setitem, lift, read, deref, mbind, M_bind,
      mret, M_ret, getitem_travel_time, TimeDistance.__init__; simpl.
    rewrite He; simpl.
    rewrite (lookup_app_l_Some _ _ _ _ Hsp); simpl.
    rewrite list_lookup_middle by done; simpl.
    rewrite Ht; simpl.
    rewrite list_lookup_middle by done; simpl.
    rewrite !(insert_app_r_alt _ _ (length (dicts st))), Nat.sub_diag by lia.
    simpl.
    rewrite (lookup_app_l_Some _ _ _ _ Hsp); simpl.
    rewrite list_lookup_middle by done; simpl.
    rewrite !(insert_app_r_alt _ _ (length (dicts st))), Nat.sub_diag by lia.
    simpl.
    rewrite (lookup_app_l_Some _ _ _ _ Hsp); simpl.
    rewrite list_lookup_middle by done; simpl.
    rewrite Ht. reflexivity.
  - unfold lift, read, deref, mbind, M_bind, mret, M_ret,
      getitem_travel_time, TimeDistance.__init__; simpl.
    rewrite Hsp, He; simpl. rewrite Ht. destruct st; reflexivity.
Qed.

(** ** timedistance.py: relaxation *)

(** C3. Relaxing the edge whose dictionary [e] is at [e_loc] from the label
    [ell], whose last edge is [sp]: the new label points to a dictionary
    [e'] that is [e] itself (the same object) for a scheduled edge and, for
    a foot edge, a copy of [e] with [dep_time = sp.dep_time - travel_time]
    and [arr_time = sp.dep_time]; its [cum_time] is
    [ell.cum_time + (sp.dep_time - e'.arr_time) + e'.travel_time] and its
    [first] flag is the one of [ell]. *)
Theorem add_relaxes (ell : TimeDistance.t) (e_loc : loc) (st : State)
    (e sp : EdgeProps) (t : Z) :
  dicts st !! e_loc = Some e ->
  dicts st !! TimeDistance.prev_props ell = Some sp ->
  travel_time e = Some t ->
  exists new st' e',
    TimeDistance.__add__ ell e_loc st = Ok (new, st')
    /\ dicts st' !! TimeDistance.prev_props new = Some e'
    /\ (ttype e = "Foot" ->
        dep_time e' = dep_time sp - t /\ arr_time e' = dep_time sp
        /\ gamma e' = gamma e /\ ttype e' = ttype e
        /\ trip_id e' = trip_id e)
    /\ (ttype e <> "Foot" -> e' = e /\ TimeDistance.prev_props new = e_loc)
    /\ travel_time e' = Some t
    /\ TimeDistance.cum_time new
       = TimeDistance.cum_time ell + (dep_time sp - arr_time e') + t
    /\ TimeDistance.first new = TimeDistance.first ell.
Proof.
  intros He Hsp Ht.
  eexists _, _, (rewritten (dep_time sp) e).
  split; [by apply add_Ok|]. simpl.
  unfold rewritten. rewrite Ht.
  destruct (String.eqb_spec (ttype e) "Foot") as [Hf|Hf]; simpl.
  - split; [by apply list_lookup_middle|].
    split; [done|]. split; [congruence|]. split; [done|]. split; [lia|done].
  - split; [done|]. split; [congruence|]. split; [done|]. split; [done|].
    split; [lia|done].
Qed.

Lemma add_relaxes_witness :
  exists new st' e',
    TimeDistance.__add__ (TimeDistance.mk false 870 1%nat) 0%nat
      (mkState [Sample.walk; Sample.bus2] []) = Ok (new, st')
    /\ dicts st' !! TimeDistance.prev_props new = Some e'
    /\ dep_time e' = 29430 - 300 /\ arr_time e' = 29430
    /\ TimeDistance.cum_time new = 870 + (29430 - 29430) + 300.
Proof.
  destruct (add_relaxes (TimeDistance.mk false 870 1%nat) 0%nat
              (mkState [Sample.walk; Sample.bus2] [])
              Sample.walk Sample.bus2 300 eq_refl eq_refl eq_refl)
    as (new & st' & e' & Hadd & Hl & Hfoot & _ & _ & Hcum & _).
  destruct (Hfoot eq_refl) as (Hd & Ha & _).
  exists new, st', e'. rewrite Ha in Hcum. by repeat split.
Defined.

(** ** route.py: the accessors of a route *)

Lemma length_tail_pred {A} (l : list A) : length (tail l) = pred (length l).
Proof. by destruct l. Qed.

Section RouteFacts.
Variable gamma_cdf : GammaParams -> Z -> Q.
Hypothesis gamma_cdf_le_1 : forall g x, (gamma_cdf g x <= 1)%Q.

Lemma connection_probability_le_1 p p' q :
  Delay.connection_probability gamma_cdf p p' = Ok q -> (q <= 1)%Q.
Proof.
  unfold Delay.connection_probability.
  destruct (Delay.__compute_delay _ _ _ _ _) as [d|]; [|discriminate].
  simpl. intros [= <-]. unfold Delay.__connection_probability.
  destruct (String.eqb _ _); [apply Qle_refl|].
  destruct (trip_eqb _ _); [apply Qle_refl|].
  destruct (gamma p); [apply gamma_cdf_le_1 | apply Qle_refl].
Qed.

Variable st : State.
Variable cs : list ID.
Variable ds : list TimeDistance.t.
Variable ps : list EdgeProps.
Variable qs : list Q.

Hypothesis cs_ds : length cs = length ds.
Hypothesis ds_ps :
  Forall2 (fun d p => dicts st !! TimeDistance.prev_props d = Some p) ds ps.
Hypothesis qs_length : S (length qs) = length cs.
Hypothesis ps_qs : forall i p p' q,
  ps !! i = Some p -> ps !! S i = Some p' -> qs !! i = Some q ->
  Delay.connection_probability gamma_cdf p p' = Ok q.

(** The state of the loop of [success_proba] before pair [i]. *)
Definition weakest_upto (i : nat) (least : Q)
    (edge : option (ID * ID * loc)) : Prop :=
  (forall j qj, (j < i)%nat -> qs !! j = Some qj -> (least <= qj)%Q)
  /\ match edge with
     | None => i = 0%nat /\ least = 1%Q
     | Some (u, v, l) =>
         exists k d,
           (k < i)%nat /\ cs !! k = Some v /\ cs !! S k = Some u
           /\ ds !! k = Some d /\ l = TimeDistance.prev_props d
           /\ qs !! k = Some least
           /\ forall j qj, (k < j < i)%nat -> qs !! j = Some qj ->
                (least < qj)%Q
     end.

Lemma success_loop_spec n : forall i proba least edge,
  (i + n)%nat = length qs ->
  weakest_upto i least edge ->
  exists least' edge',
    Route.success_loop gamma_cdf st ds (drop i (zip cs (tail cs))) i
      proba least edge
    = Ok (fold_left Qmult (drop i qs) proba, edge')
    /\ weakest_upto (length qs) least' edge'.
Proof.
  induction n as [|n IH]; intros i proba least edge Hi Hinv.
  - assert (i = length qs) as -> by lia.
    rewrite (drop_ge qs) by lia.
    rewrite (drop_ge (zip cs (tail cs))).
    2:{ rewrite length_zip_with, length_tail_pred. lia. }
    simpl. eauto.
  - assert (Hlt : (i < length qs)%nat) by lia.
    destruct (lookup_lt_is_Some_2 qs i Hlt) as [q Hq].
    destruct (lookup_lt_is_Some_2 cs i ltac:(lia)) as [v Hv].
    destruct (lookup_lt_is_Some_2 cs (S i) ltac:(lia)) as [u Hu].
    destruct (lookup_lt_is_Some_2 ds i ltac:(lia)) as [d Hd].
    destruct (lookup_lt_is_Some_2 ds (S i) ltac:(lia)) as [d' Hd'].
    destruct (Forall2_lookup_l _ _ _ _ _ ds_ps Hd) as (p & Hp & Hdp).
    destruct (Forall2_lookup_l _ _ _ _ _ ds_ps Hd') as (p' & Hp' & Hdp').
    pose proof (ps_qs _ _ _ _ Hp Hp' Hq) as Hcp.
    pose proof (connection_probability_le_1 _ _ _ Hcp) as Hq1.
    assert (Hpair : zip cs (tail cs) !! i = Some (v, u)).
    { apply lookup_zip_with_Some. exists v, u.
      by rewrite lookup_tail. }
    rewrite (drop_S _ _ _ Hpair), (drop_S _ _ _ Hq). simpl.
    unfold getitem_list, deref. rewrite Hd, Hd'. simpl.
    rewrite Hdp, Hdp'. simpl. rewrite Hcp. simpl.
    destruct Hinv as [Hmin Hedge].
    destruct (Qle_bool q least) eqn:Hle.
    + apply Qle_bool_iff in Hle. apply IH; [lia|]. split.
      * intros j qj Hj Hqj. destruct (decide (j = i)) as [->|Hne].
        -- rewrite Hq in Hqj. injection Hqj as <-. apply Qle_refl.
        -- eapply Qle_trans; [exact Hle|]. apply (Hmin j); [lia | done].
      * exists i, d. repeat split; try done; try lia.
    + assert (Hlt' : (least < q)%Q).
      { apply Qnot_le_lt. intros H%Qle_bool_iff. congruence. }
      apply IH; [lia|]. split.
      * intros j qj Hj Hqj. destruct (decide (j = i)) as [->|Hne].
        -- rewrite Hq in Hqj. injection Hqj as <-. by apply Qlt_le_weak.
        -- apply (Hmin j); [lia | done].
      * destruct edge as [[[u0 v0] l0]|].
        -- destruct Hedge as (k & d0 & Hk & Hv0 & Hu0 & Hd0 & Hl0 & Hq0 & Hs).
           exists k, d0. repeat split; try done; try lia.
           intros j qj Hj Hqj. destruct (decide (j = i)) as [->|Hne].
           ++ rewrite Hq in Hqj. by injection Hqj as <-.
           ++ apply (Hs j); [lia | done].
        -- destruct Hedge as [_ ->]. exfalso.
           by apply (Qlt_not_le _ _ Hlt').
Qed.

(** C4. On a route of at least two stops whose labels point to the
    dictionaries [ps], with [qs] the probabilities of the consecutive pairs
    ([qs[i] = connection_probability(ps[i], ps[i+1])]), [success_proba]
    returns the product of [qs] and the triple
    [(connections[k+1], connections[k], distances[k].prev_props)] of the
    pair [k] that has the least probability, the last such pair if
    several have it. *)
Theorem success_proba_spec (r : Route.t) :
  Route.connections r = cs ->
  Route.distances r = ds ->
  (2 <= length cs)%nat ->
  exists k d u v q,
    Route.success_proba gamma_cdf st r
    = Ok (fold_left Qmult qs 1%Q, (u, v, TimeDistance.prev_props d))
    /\ cs !! k = Some v /\ cs !! S k = Some u /\ ds !! k = Some d
    /\ qs !! k = Some q
    /\ (forall j qj, qs !! j = Some qj -> (q <= qj)%Q)
    /\ (forall j qj, (k < j)%nat -> qs !! j = Some qj -> (q < qj)%Q).
Proof.
  intros Hcs Hds Hlen.
  destruct (success_loop_spec (length qs) 0 1%Q 1%Q None)
    as (least & edge & Hloop & Hmin & Hedge); [lia | |].
  { split; [intros; lia | done]. }
  rewrite !drop_0 in Hloop.
  unfold Route.success_proba, Route.assert_not_empty. rewrite Hcs, Hds.
  destruct cs as [|c0 cs'] eqn:Ecs; [simpl in Hlen; lia|]. simpl.
  simpl in Hloop. rewrite Hloop. simpl.
  destruct edge as [[[u v] l]|].
  - destruct Hedge as (k & d & Hk & Hv & Hu & Hd & -> & Hq & Hs).
    exists k, d, u, v, least. repeat split; try done.
    + intros j qj Hqj. apply (Hmin j); [|done].
      by apply lookup_lt_is_Some_1.
    + intros j qj Hj Hqj. apply (Hs j); [|done].
      split; [done|]. by apply lookup_lt_is_Some_1.
  - destruct Hedge as [Hz _]. simpl in *. lia.
Qed.

End RouteFacts.

Lemma sample_cdf_le_1 g x : (Sample.cdf g x <= 1)%Q.
Proof.
  unfold Sample.cdf. destruct (x <=? 0); [done|].
  destruct (x <? 60); done.
Qed.

Lemma success_proba_spec_witness :
  let st := mkState [Sample.ride; Sample.bus2; TimeDistance.INIT_PROPS 30330]
              [] in
  let ds := [TimeDistance.mk false 1530 0%nat; TimeDistance.mk false 870 1%nat;
             TimeDistance.mk false 0 2%nat] in
  let r := Route.mk 0%nat ["A"; "B"; "C"] ds in
  exists k d u v q,
    Route.success_proba Sample.cdf st r
    = Ok (fold_left Qmult [(1 # 2)%Q; (1 # 2)%Q] 1%Q,
          (u, v, TimeDistance.prev_props d))
    /\ ["A"; "B"; "C"] !! k = Some v /\ ["A"; "B"; "C"] !! S k = Some u
    /\ ds !! k = Some d
    /\ [(1 # 2)%Q; (1 # 2)%Q] !! k = Some q
    /\ (forall j qj, [(1 # 2)%Q; (1 # 2)%Q] !! j = Some qj -> (q <= qj)%Q)
    /\ (forall j qj, (k < j)%nat ->
          [(1 # 2)%Q; (1 # 2)%Q] !! j = Some qj -> (q < qj)%Q).
Proof.
  intros st ds r.
  apply (success_proba_spec Sample.cdf sample_cdf_le_1 st ["A"; "B"; "C"] ds
           [Sample.ride; Sample.bus2; TimeDistance.INIT_PROPS 30330]
           [(1 # 2)%Q; (1 # 2)%Q]);
    try reflexivity.
  - repeat constructor.
  - intros [|[|[|i]]] p p' q; simpl; intros; simplify_eq; reflexivity.
  - simpl. lia.
Defined.

(** C10. A route with a single stop passes the assertion of
    [success_proba], runs no turn of its loop and fails on the unassigned
    [least_proba_edge]; [dep_time], [travel_time] and [arr_time] succeed on
    it. More generally [success_proba] returns only on routes of at least
    two stops. *)
Theorem success_proba_one_stop (gamma_cdf : GammaParams -> Z -> Q)
    (st : State) (r : Route.t) (c : ID) (d : TimeDistance.t) (p : EdgeProps) :
  Route.connections r = [c] ->
  Route.distances r = [d] ->
  dicts st !! TimeDistance.prev_props d = Some p ->
  Route.assert_not_empty r = Ok tt
  /\ Route.success_proba gamma_cdf st r
     = Raise (UnboundLocalError "least_proba_edge")
  /\ Route.dep_time st r = Ok (dep_time p)
  /\ Route.travel_time r = Ok (TimeDistance.cum_time d)
  /\ Route.arr_time st r = Ok (TimeDistance.cum_time d + dep_time p)
  /\ (forall r' x, Route.success_proba gamma_cdf st r' = Ok x ->
        (2 <= length (Route.connections r'))%nat).
Proof.
  intros Hc Hd Hp.
  unfold Route.success_proba, Route.dep_time, Route.arr_time,
    Route.travel_time, Route.assert_not_empty, deref.
  rewrite Hc, Hd. simpl. unfold deref. rewrite Hp. simpl.
  do 5 (split; [reflexivity|]).
  intros r' x. destruct (Route.connections r') as [|c1 [|c2 cs']]; simpl.
  - discriminate.
  - discriminate.
  - intros _. lia.
Qed.

Lemma success_proba_one_stop_witness :
  let st := mkState [TimeDistance.INIT_PROPS 29400] [] in
  let r := Route.mk 0%nat ["A"] [TimeDistance.mk false 0 0%nat] in
  Route.success_proba Sample.cdf st r
  = Raise (UnboundLocalError "least_proba_edge")
  /\ Route.arr_time st r = Ok 29400.
Proof.
  intros st r.
  destruct (success_proba_one_stop Sample.cdf st r "A"
              (TimeDistance.mk false 0 0%nat) (TimeDistance.INIT_PROPS 29400)
              eq_refl eq_refl eq_refl) as (_ & H1 & _ & _ & H2 & _).
  by split.
Defined.

(** ** Frame: what a computation leaves untouched *)

Lemma lift_Ok {A} (r : res A) st a st' :
  lift r st = Ok (a, st') <-> r = Ok a /\ st' = st.
Proof. unfold lift. apply read_Ok. Qed.

Lemma mret_Ok {A} (a b : A) (st st' : State) :
  (mret a : M A) st = Ok (b, st') <-> b = a /\ st' = st.
Proof.
  unfold mret, M_ret. split; [intros [= -> ->]; done | intros [-> ->]; done].
Qed.

Lemma extends_refl st : extends st st.
Proof. done. Qed.

Lemma extends_trans st1 st2 st3 :
  extends st1 st2 -> extends st2 st3 -> extends st1 st3.
Proof.
  intros [H1 G1] [H2 G2]. split; [by etrans | congruence].
Qed.

Lemma extends_lookup st st' l p :
  extends st st' -> dicts st !! l = Some p -> dicts st' !! l = Some p.
Proof. intros [H _] Hl. by eapply prefix_lookup_Some. Qed.

Lemma add_frame self props st new st' :
  TimeDistance.__add__ self props st = Ok (new, st') -> extends st st'.
Proof.
  unfold TimeDistance.__add__.
  unfold mbind at 1, M_bind, read at 1, deref at 1.
  destruct (dicts st !! props) as [e|] eqn:He; [|discriminate].
  destruct (String.eqb (ttype e) "Foot").
  - unfold dict_copy, alloc, setitem, lift, read, deref, mbind, M_bind,
      mret, M_ret, getitem_travel_time, TimeDistance.__init__; simpl.
    rewrite He; simpl.
    destruct ((dicts st ++ [e])%list !! TimeDistance.prev_props self) as [sp|];
      [simpl|discriminate].
    rewrite list_lookup_middle by done; simpl.
    destruct (travel_time e) as [t|] eqn:Ht; [simpl|discriminate].
    rewrite list_lookup_middle by done; simpl.
    rewrite (insert_app_r_alt _ _ (length (dicts st))), Nat.sub_diag by lia.
    simpl.
    destruct ((dicts st ++ _)%list !! TimeDistance.prev_props self) as [sp'|];
      [simpl|discriminate].
    rewrite list_lookup_middle by done; simpl.
    rewrite (insert_app_r_alt _ _ (length (dicts st))), Nat.sub_diag by lia.
    simpl.
    destruct ((dicts st ++ _)%list !! TimeDistance.prev_props self) as [sp''|];
      [simpl|discriminate].
    rewrite list_lookup_middle by done; simpl.
    rewrite Ht; simpl.
    intros [= <- <-]. split; [by apply prefix_app_r | done].
  - unfold lift, read, deref, mbind, M_bind, mret, M_ret,
      getitem_travel_time, TimeDistance.__init__; simpl.
    destruct (dicts st !! TimeDistance.prev_props self); [simpl|discriminate].
    rewrite He; simpl.
    destruct (travel_time e); [simpl|discriminate].
    intros [= <- <-]. done.
Qed.

Section SearchFrame.
Variable gamma_cdf : GammaParams -> Z -> Q.

Lemma relax_frame curr pp pdt cbdt thr edge s st s' st' :
  Routing.relax gamma_cdf curr pp pdt cbdt thr edge s st = Ok (s', st') ->
  extends st st'.
Proof.
  unfold Routing.relax. intros H.
  apply M_bind_Ok in H as (p1 & st1 & [_ ->]%read_Ok & H).
  apply M_bind_Ok in H as (p2 & st2 & [_ ->]%read_Ok & H).
  apply M_bind_Ok in H as (ok & st3 & [_ ->]%lift_Ok & H).
  destruct ok.
  - apply M_bind_Ok in H as (dcurr & st4 & [_ ->]%lift_Ok & H).
    apply M_bind_Ok in H as (new_dist & st5 & Hadd%add_frame & H).
    apply M_bind_Ok in H as (dn & st6 & [_ ->]%lift_Ok & H).
    destruct (TimeDistance.__lt__ new_dist dn);
      [destruct (bool_decide _)|];
      apply mret_Ok in H as [_ ->]; exact Hadd.
  - apply mret_Ok in H as [_ ->]. done.
Qed.

Lemma relax_edges_frame es : forall curr pp pdt cbdt thr s st s' st',
  Routing.relax_edges gamma_cdf es curr pp pdt cbdt thr s st = Ok (s', st') ->
  extends st st'.
Proof.
  induction es as [|edge es IH]; intros curr pp pdt cbdt thr s st s' st' H.
  - simpl in H. apply mret_Ok in H as [_ ->]. done.
  - simpl in H.
    apply M_bind_Ok in H as (s1 & st1 & H1%relax_frame & H).
    eapply extends_trans; [exact H1 | eapply IH, H].
Qed.

Lemma visit_frame G start t thr curr s st s' st' :
  Routing.visit gamma_cdf G start t thr curr s st = Ok (s', st') ->
  extends st st'.
Proof.
  unfold Routing.visit. intros H.
  apply M_bind_Ok in H as (dcurr & st1 & [_ ->]%lift_Ok & H).
  apply M_bind_Ok in H as (pdt & st2 & [_ ->]%read_Ok & H).
  apply M_bind_Ok in H as (dstart & st3 & [_ ->]%lift_Ok & H).
  apply M_bind_Ok in H as (gr & st4 & [_ ->]%read_Ok & H).
  by eapply relax_edges_frame.
Qed.

Lemma search_loop_frame fuel : forall G start t thr s st s' st',
  Routing.search_loop gamma_cdf fuel G start t thr s st = Ok (s', st') ->
  extends st st'.
Proof.
  induction fuel as [|fuel IH]; intros G start t thr s st s' st' H;
    simpl in H;
    destruct (heappop Routing.entry_lt (Routing.queue s)) as [[entry q']|];
    try discriminate;
    try (apply mret_Ok in H as [_ ->]; done).
  apply M_bind_Ok in H as (s1 & st1 & H1%visit_frame & H).
  eapply extends_trans; [exact H1 | eapply IH, H].
Qed.

Lemma init_distances_frame vs : forall t d st d' st',
  Routing.init_distances vs t d st = Ok (d', st') -> extends st st'.
Proof.
  induction vs as [|v vs IH]; intros t d st d' st' H; simpl in H.
  - apply mret_Ok in H as [_ ->]. done.
  - apply M_bind_Ok in H as (l & st1 & Hl & H).
    apply IH in H. eapply extends_trans; [|exact H].
    unfold TimeDistance.__init__ in Hl.
    apply M_bind_Ok in Hl as (l0 & st2 & Hl0 & Hl).
    apply mret_Ok in Hl as [_ ->].
    unfold alloc in Hl0. injection Hl0 as <- <-.
    split; [by apply prefix_app_r | done].
Qed.

Lemma stochastic_dijkstra_frame fuel self start end_ t thr nf st r st' :
  Routing.stochastic_dijkstra gamma_cdf fuel self start end_ t thr nf st
  = Ok (r, st') ->
  extends st st'.
Proof.
  unfold Routing.stochastic_dijkstra. intros H.
  apply M_bind_Ok in H as (start' & st1 & H1 & H).
  assert (st1 = st) as ->.
  { destruct nf; [by apply lift_Ok in H1 as [_ ->]|].
    by apply mret_Ok in H1 as [_ ->]. }
  apply M_bind_Ok in H as (end' & st2 & H2 & H).
  assert (st2 = st) as ->.
  { destruct nf; [by apply lift_Ok in H2 as [_ ->]|].
    by apply mret_Ok in H2 as [_ ->]. }
  apply M_bind_Ok in H as (gr & st3 & [_ ->]%read_Ok & H).
  apply M_bind_Ok in H as (d & st4 & Hinit%init_distances_frame & H).
  apply M_bind_Ok in H as (dend & st5 & [_ ->]%lift_Ok & H).
  apply M_bind_Ok in H as (dend' & st6 & [_ ->]%lift_Ok & H).
  apply M_bind_Ok in H as (s & st7 & Hloop%search_loop_frame & H).
  apply lift_Ok in H as [_ ->].
  by eapply extends_trans.
Qed.

End SearchFrame.

Lemma extends_grows st st' : extends st st' -> grows st st'.
Proof. intros [H1 H2]. split; [done | by rewrite H2]. Qed.

Lemma grows_trans st1 st2 st3 : grows st1 st2 -> grows st2 st3 -> grows st1 st3.
Proof. intros [H1 G1] [H2 G2]. split; by etrans. Qed.

Lemma prefix_keeps {A} (l1 l2 : list A) :
  l1 `prefix_of` l2 -> forall i x, l1 !! i = Some x -> l2 !! i = Some x.
Proof. intros H i x Hi. by eapply prefix_lookup_Some. Qed.

Lemma prefix_insert_ge {A} (l1 l2 : list A) i x :
  l1 `prefix_of` l2 -> (length l1 <= i)%nat -> l1 `prefix_of` <[i := x]> l2.
Proof.
  intros [k ->] Hi. rewrite insert_app_r_alt by done. by apply prefix_app_r.
Qed.

Lemma copy_keydict_frame kd : forall st kd' st',
  nx.copy_keydict kd st = Ok (kd', st') -> extends st st'.
Proof.
  induction kd as [|[k l] kd IH]; intros st kd' st' H; simpl in H.
  - apply mret_Ok in H as [_ ->]. done.
  - apply M_bind_Ok in H as (l' & st1 & Hl & H).
    apply M_bind_Ok in H as (kd1 & st2 & Hkd%IH & H).
    apply mret_Ok in H as [_ ->].
    eapply extends_trans; [|exact Hkd].
    unfold dict_copy in Hl.
    apply M_bind_Ok in Hl as (p & st3 & [_ ->]%read_Ok & Hl).
    unfold alloc in Hl. injection Hl as <- <-.
    split; [by apply prefix_app_r | done].
Qed.

Lemma copy_nbrs_frame nbrs : forall st nbrs' st',
  nx.copy_nbrs nbrs st = Ok (nbrs', st') -> extends st st'.
Proof.
  induction nbrs as [|[v kd] nbrs IH]; intros st nbrs' st' H; simpl in H.
  - apply mret_Ok in H as [_ ->]. done.
  - apply M_bind_Ok in H as (kd' & st1 & Hkd%copy_keydict_frame & H).
    apply M_bind_Ok in H as (n1 & st2 & Hn%IH & H).
    apply mret_Ok in H as [_ ->]. by eapply extends_trans.
Qed.

Lemma copy_adj_frame g : forall st g' st',
  nx.copy_adj g st = Ok (g', st') -> extends st st'.
Proof.
  induction g as [|[u nbrs] g IH]; intros st g' st' H; simpl in H.
  - apply mret_Ok in H as [_ ->]. done.
  - apply M_bind_Ok in H as (n' & st1 & Hn%copy_nbrs_frame & H).
    apply M_bind_Ok in H as (g1 & st2 & Hg%IH & H).
    apply mret_Ok in H as [_ ->]. by eapply extends_trans.
Qed.

(** The copy is a new object: its reference is past every graph that
    existed before. *)
Lemma copy_frame g st g' st' :
  nx.copy g st = Ok (g', st') ->
  grows st st' /\ (length (graphs st) <= g')%nat.
Proof.
  unfold nx.copy. intros H.
  apply M_bind_Ok in H as (gr & st1 & [_ ->]%read_Ok & H).
  apply M_bind_Ok in H as (gr' & st2 & [Hd Hg]%copy_adj_frame & H).
  unfold nx.alloc_graph in H. simpl in H. injection H as <- <-. simpl.
  split; [split|]; [done | rewrite Hg; by apply prefix_app_r | by rewrite Hg].
Qed.

Lemma remove_edge_frame st0 (g : gref) u v key st st' :
  grows st0 st -> (length (graphs st0) <= g)%nat ->
  nx.remove_edge g u v key st = Ok (tt, st') -> grows st0 st'.
Proof.
  intros [Hd Hg] Hle. unfold nx.remove_edge.
  destruct (graphs st !! g) as [gr|]; [|discriminate].
  destruct (nx.remove_edge_in gr u v key) as [gr'|]; [|discriminate].
  intros [= <-]. split; simpl; [done | by apply prefix_insert_ge].
Qed.

Section RobustFrame.
Variable gamma_cdf : GammaParams -> Z -> Q.

Lemma robust_loop_frame st0 n : forall fuel self graph start end_ t thr nr
    rl route proba weakest st res st',
  grows st0 st -> (length (graphs st0) <= graph)%nat ->
  Routing.robust_loop gamma_cdf n fuel self graph start end_ t thr nr rl
    route proba weakest st = Ok (res, st') ->
  grows st0 st'.
Proof.
  induction n as [|n IH];
    intros fuel self graph start end_ t thr nr rl route proba weakest st res
      st' Hst Hg H; simpl in H.
  - apply mret_Ok in H as [_ ->]. done.
  - destruct (Z.of_nat (length rl) <? nr);
      [|apply mret_Ok in H as [_ ->]; done].
    destruct weakest as [[u v] props].
    apply M_bind_Ok in H as (key & st1 & [_ ->]%read_Ok & H).
    apply M_bind_Ok in H as ([] & st2 & Hrm & H).
    pose proof (remove_edge_frame _ _ _ _ _ _ _ Hst Hg Hrm) as Hst2.
    apply M_bind_Ok in H as (nr' & st3 & Hs%stochastic_dijkstra_frame & H).
    assert (Hst3 : grows st0 st3).
    { eapply grows_trans; [exact Hst2 | by apply extends_grows]. }
    destruct nr' as [new_route|]; [|apply mret_Ok in H as [_ ->]; done].
    apply M_bind_Ok in H as (r & st4 & [_ ->]%read_Ok & H).
    destruct (Qlt_bool proba r.1); eapply IH; eauto.
Qed.

Lemma robust_frame fuel self start end_ t thr mi nr st res st' :
  Routing.robust gamma_cdf fuel self start end_ t thr mi nr st
  = Ok (res, st') ->
  grows st st'.
Proof.
  unfold Routing.robust. intros H.
  apply M_bind_Ok in H as (graph & st1 & [Hc Hg]%copy_frame & H).
  apply M_bind_Ok in H as (route & st2 & Hs%stochastic_dijkstra_frame & H).
  assert (Hst2 : grows st st2).
  { eapply grows_trans; [exact Hc | by apply extends_grows]. }
  destruct route as [route|]; [|apply mret_Ok in H as [_ ->]; done].
  apply M_bind_Ok in H as (r & st3 & [_ ->]%read_Ok & H).
  apply M_bind_Ok in H as (rl & st4 & Hl & H).
  apply mret_Ok in H as [_ ->].
  eapply robust_loop_frame; eauto.
Qed.

End RobustFrame.

(** C8. Nothing that exists when a computation starts is changed by it:
    relaxing an edge only adds a dictionary to the store (the copy of a
    foot edge, which is what gets the new times); a search leaves every
    graph and every dictionary as it was; and the robust planner, which
    removes edges, leaves every graph that existed before the call, the
    planner's own graph among them, and every dictionary as it was. *)
Theorem graph_not_mutated (gamma_cdf : GammaParams -> Z -> Q) :
  (forall ell e_loc st new st',
     TimeDistance.__add__ ell e_loc st = Ok (new, st') ->
     graphs st' = graphs st
     /\ forall l e, dicts st !! l = Some e -> dicts st' !! l = Some e)
  /\ (forall fuel self start end_ t thr nf st r st',
        Routing.stochastic_dijkstra gamma_cdf fuel self start end_ t thr nf st
        = Ok (r, st') ->
        graphs st' = graphs st
        /\ forall l e, dicts st !! l = Some e -> dicts st' !! l = Some e)
  /\ (forall fuel self start end_ t thr mi nr st res st',
        Routing.robust gamma_cdf fuel self start end_ t thr mi nr st
        = Ok (res, st') ->
        (forall g gr, graphs st !! g = Some gr -> graphs st' !! g = Some gr)
        /\ forall l e, dicts st !! l = Some e -> dicts st' !! l = Some e).
Proof.
  split; [|split].
  - intros ell e_loc st new st' [Hd Hg]%add_frame. split; [done|].
    by apply prefix_keeps.
  - intros fuel self start end_ t thr nf st r st'
      [Hd Hg]%stochastic_dijkstra_frame.
    split; [done|]. by apply prefix_keeps.
  - intros fuel self start end_ t thr mi nr st res st' [Hd Hg]%robust_frame.
    split; by apply prefix_keeps.
Qed.

(** ** Invariants of the search *)

Lemma getitem_dict_Ok {A} (d : gmap string A) k a :
  getitem_dict d k = Ok a <-> d !! k = Some a.
Proof. unfold getitem_dict. destruct (d !! k); split; congruence. Qed.

Lemma add_without_travel_time self props st e sp :
  dicts st !! props = Some e ->
  dicts st !! TimeDistance.prev_props self = Some sp ->
  travel_time e = None ->
  TimeDistance.__add__ self props st = Raise (KeyError "travel_time").
Proof.
  intros He Hsp Ht. unfold TimeDistance.__add__.
  unfold mbind at 1, M_bind, read at 1, deref at 1. rewrite He.
  destruct (String.eqb (ttype e) "Foot").
  - unfold dict_copy, alloc, setitem, lift, read, deref, mbind, M_bind,
      mret, M_ret, getitem_travel_time; simpl.
    rewrite He; simpl.
    rewrite (lookup_app_l_Some _ _ _ _ Hsp); simpl.
    rewrite list_lookup_middle by done; simpl.
    by rewrite Ht.
  - unfold lift, read, deref, mbind, M_bind, mret, M_ret,
      getitem_travel_time; simpl.
    rewrite Hsp, He; simpl. by rewrite Ht.
Qed.

Lemma alist_get_In {V} (d : list (string * V)) k v :
  alist_get String.eqb d k = Some v -> (k, v) ∈ d.
Proof.
  induction d as [|[k' v'] d IH]; simpl; [discriminate|].
  destruct (String.eqb_spec k' k) as [->|Hne].
  - intros [= ->]. by left.
  - intros H. right. by apply IH.
Qed.

Lemma out_edges_locs gr u x : x ∈ nx.out_edges gr u -> x.2 ∈ edge_locs gr.
Proof.
  unfold nx.out_edges, edge_locs.
  destruct (alist_get String.eqb gr u) as [nbrs|] eqn:Hu;
    [|by intros ?%elem_of_nil].
  apply alist_get_In in Hu.
  rewrite !list_elem_of_In, !in_flat_map.
  intros ([v kd] & Hv & Hx). simpl in Hx.
  apply in_map_iff in Hx as ([k l] & <- & Hkl). simpl.
  exists (u, nbrs). split; [by apply list_elem_of_In|].
  simpl. apply in_flat_map. exists (v, kd). split; [done|]. simpl.
  apply list_elem_of_In, list_elem_of_fmap. exists (k, l).
  split; [done | by apply list_elem_of_In].
Qed.

Section SearchInvariant.
Variable gamma_cdf : GammaParams -> Z -> Q.

(** [Gedge] holds of the dictionaries of the graph, [P] relates the
    [cum_time] of a label to the dictionary it points to, and [R] holds of
    the dictionary of a label that was set by a relaxation. *)
Variable Gedge : EdgeProps -> Prop.
Variable P : Z -> EdgeProps -> Prop.
Variable R : EdgeProps -> Prop.
Variable target : Z.

Hypothesis P_init : P 0 (TimeDistance.INIT_PROPS target).
Hypothesis P_step : forall cum sp e t,
  P cum sp -> Gedge e -> travel_time e = Some t ->
  P (cum + dep_time sp - arr_time (rewritten (dep_time sp) e) + t)
    (rewritten (dep_time sp) e).
Hypothesis R_step : forall d e, Gedge e -> R (rewritten d e).

Definition graph_ok (st : State) (G : gref) : Prop :=
  forall gr l, graphs st !! G = Some gr -> l ∈ edge_locs gr ->
    exists e, dicts st !! l = Some e /\ Gedge e.

Definition label_ok (st : State) (in_prev : Prop) (l : TimeDistance.t) : Prop :=
  exists p,
    dicts st !! TimeDistance.prev_props l = Some p
    /\ P (TimeDistance.cum_time l) p
    /\ (in_prev -> R p).

Definition labels_ok (st : State) (distances : gmap ID TimeDistance.t)
    (prev : gmap ID ID) : Prop :=
  forall v l, distances !! v = Some l -> label_ok st (is_Some (prev !! v)) l.

Lemma graph_ok_extends st st' G :
  graph_ok st G -> extends st st' -> graph_ok st' G.
Proof.
  intros Hg Hext gr l Hgr Hl. destruct Hext as [Hd Hgs].
  rewrite Hgs in Hgr. destruct (Hg gr l Hgr Hl) as (e & He & HG).
  exists e. split; [by eapply prefix_lookup_Some | done].
Qed.

Lemma label_ok_extends st st' Q l :
  label_ok st Q l -> extends st st' -> label_ok st' Q l.
Proof.
  intros (p & Hp & HP) Hext. exists p.
  split; [by eapply extends_lookup | done].
Qed.

Lemma labels_ok_extends st st' d pr :
  labels_ok st d pr -> extends st st' -> labels_ok st' d pr.
Proof. intros H Hext v l Hl. eapply label_ok_extends; eauto. Qed.

Lemma relax_inv curr pp pdt cbdt thr edge s st s' st' :
  (exists e, dicts st !! edge.2 = Some e /\ Gedge e) ->
  labels_ok st (Routing.distances s) (Routing.prev s) ->
  Routing.relax gamma_cdf curr pp pdt cbdt thr edge s st = Ok (s', st') ->
  labels_ok st' (Routing.distances s') (Routing.prev s').
Proof.
  intros (e & He & HG) Hinv H.
  pose proof (relax_frame _ _ _ _ _ _ _ _ _ _ _ H) as Hext.
  unfold Routing.relax in H.
  apply M_bind_Ok in H as (p1 & st1 & [_ ->]%read_Ok & H).
  apply M_bind_Ok in H as (p2 & st2 & [_ ->]%read_Ok & H).
  apply M_bind_Ok in H as (ok & st3 & [_ ->]%lift_Ok & H).
  destruct ok;
    [|apply mret_Ok in H as [-> ->]; by eapply labels_ok_extends].
  apply M_bind_Ok in H as (dcurr & st4 & [Hcurr%getitem_dict_Ok ->]%lift_Ok & H).
  apply M_bind_Ok in H as (new_dist & st5 & Hadd & H).
  apply M_bind_Ok in H as (dn & st6 & [_ ->]%lift_Ok & H).
  destruct (TimeDistance.__lt__ new_dist dn);
    [|apply mret_Ok in H as [-> ->]; by eapply labels_ok_extends].
  destruct (Hinv _ _ Hcurr) as (sp & Hsp & HP & _).
  destruct (travel_time e) as [t|] eqn:Ht;
    [|by rewrite (add_without_travel_time _ _ _ _ _ He Hsp Ht) in Hadd].
  rewrite (add_Ok _ _ _ _ _ _ He Hsp Ht) in Hadd.
  injection Hadd as <- <-.
  assert (Hnew : forall Q,
    label_ok st' Q
      (TimeDistance.updated
         {| TimeDistance.first := TimeDistance.first dcurr;
            TimeDistance.cum_time :=
              TimeDistance.cum_time dcurr + dep_time sp
              - arr_time (rewritten (dep_time sp) e) + t;
            TimeDistance.prev_props :=
              if String.eqb (ttype e) "Foot" then length (dicts st)
              else edge.2 |})).
  { intros Q. exists (rewritten (dep_time sp) e). simpl.
    split; [|split; [by apply P_step | intros _; by apply R_step]].
    assert (st' = {|
          dicts :=
            if String.eqb (ttype e) "Foot"
            then (dicts st ++ [rewritten (dep_time sp) e])%list else dicts st;
          graphs := graphs st |}) as ->.
    { destruct (bool_decide _); by apply mret_Ok in H as [_ ->]. }
    simpl. unfold rewritten. rewrite Ht.
    destruct (String.eqb (ttype e) "Foot"); [|done].
    by apply list_lookup_middle. }
  assert (Hs' : Routing.distances s'
                = <[edge.1.2 := TimeDistance.updated
                      {| TimeDistance.first := TimeDistance.first dcurr;
                         TimeDistance.cum_time :=
                           TimeDistance.cum_time dcurr + dep_time sp
                           - arr_time (rewritten (dep_time sp) e) + t;
                         TimeDistance.prev_props :=
                           if String.eqb (ttype e) "Foot"
                           then length (dicts st) else edge.2 |}]>
                    (Routing.distances s)
                /\ Routing.prev s' = <[edge.1.2 := curr]> (Routing.prev s)).
  { destruct (bool_decide _); by apply mret_Ok in H as [-> _]. }
  destruct Hs' as [-> ->].
  intros v l. destruct (decide (edge.1.2 = v)) as [<-|Hne].
  - rewrite lookup_insert_eq. intros [= <-]. apply Hnew.
  - rewrite !lookup_insert_ne by done. intros Hl.
    eapply label_ok_extends; eauto.
Qed.

Lemma relax_edges_inv es : forall curr pp pdt cbdt thr s st s' st',
  Forall (fun x => exists e, dicts st !! x.2 = Some e /\ Gedge e) es ->
  labels_ok st (Routing.distances s) (Routing.prev s) ->
  Routing.relax_edges gamma_cdf es curr pp pdt cbdt thr s st = Ok (s', st') ->
  labels_ok st' (Routing.distances s') (Routing.prev s').
Proof.
  induction es as [|edge es IH]; intros curr pp pdt cbdt thr s st s' st'
    Hes Hinv H; simpl in H.
  - by apply mret_Ok in H as [-> ->].
  - apply M_bind_Ok in H as (s1 & st1 & H1 & H).
    apply Forall_cons in Hes as [He Hes].
    pose proof (relax_frame _ _ _ _ _ _ _ _ _ _ _ H1) as Hext.
    eapply IH; [| |exact H].
    + eapply Forall_impl; [exact Hes|]. intros x (e & Hx & HG).
      exists e. split; [by eapply extends_lookup | done].
    + eapply relax_inv; eauto.
Qed.

Lemma visit_inv G start thr curr s st s' st' :
  graph_ok st G ->
  labels_ok st (Routing.distances s) (Routing.prev s) ->
  Routing.visit gamma_cdf G start target thr curr s st = Ok (s', st') ->
  labels_ok st' (Routing.distances s') (Routing.prev s').
Proof.
  intros Hg Hinv H. unfold Routing.visit in H.
  apply M_bind_Ok in H as (dcurr & st1 & [_ ->]%lift_Ok & H).
  apply M_bind_Ok in H as (pdt & st2 & [_ ->]%read_Ok & H).
  apply M_bind_Ok in H as (dstart & st3 & [_ ->]%lift_Ok & H).
  apply M_bind_Ok in H as (gr & st4 & [Hgr ->]%read_Ok & H).
  eapply relax_edges_inv; [|exact Hinv|exact H].
  apply Forall_forall. intros x Hx%out_edges_locs.
  apply (Hg gr); [|done].
  unfold get_graph in Hgr. by destruct (graphs st !! G) as [?|]; simplify_eq.
Qed.

Lemma search_loop_inv fuel : forall G start thr s st s' st',
  graph_ok st G ->
  labels_ok st (Routing.distances s) (Routing.prev s) ->
  Routing.search_loop gamma_cdf fuel G start target thr s st = Ok (s', st') ->
  labels_ok st' (Routing.distances s') (Routing.prev s').
Proof.
  induction fuel as [|fuel IH]; intros G start thr s st s' st' Hg Hinv H;
    simpl in H;
    destruct (heappop Routing.entry_lt (Routing.queue s)) as [[entry q']|];
    try discriminate;
    try (by apply mret_Ok in H as [-> ->]).
  apply M_bind_Ok in H as (s1 & st1 & H1 & H).
  pose proof (visit_frame _ _ _ _ _ _ _ _ _ _ H1) as Hext.
  eapply IH; [| |exact H].
  - by eapply graph_ok_extends.
  - eapply visit_inv; [exact Hg| |exact H1]. done.
Qed.

Lemma init_distances_inv vs : forall d st d' st',
  labels_ok st d ∅ ->
  Routing.init_distances vs target d st = Ok (d', st') ->
  labels_ok st' d' ∅.
Proof.
  induction vs as [|v vs IH]; intros d st d' st' Hinv H; simpl in H.
  - by apply mret_Ok in H as [-> ->].
  - apply M_bind_Ok in H as (l & st1 & Hl & H).
    eapply IH; [|exact H].
    unfold TimeDistance.__init__ in Hl.
    apply M_bind_Ok in Hl as (l0 & st2 & Hl0 & Hl).
    apply mret_Ok in Hl as [-> ->].
    unfold alloc in Hl0. injection Hl0 as <- <-.
    intros v' l'. destruct (decide (v = v')) as [<-|Hne].
    + rewrite lookup_insert_eq. intros [= <-].
      exists (TimeDistance.INIT_PROPS target). simpl.
      split; [by apply list_lookup_middle|].
      split; [done|]. rewrite lookup_empty. by intros [? [=]].
    + rewrite lookup_insert_ne by done. intros Hl'.
      eapply label_ok_extends; [by eapply Hinv|].
      split; [by apply prefix_app_r | done].
Qed.

(** What [build_route] makes of tables that satisfy the invariant: every
    label of the route satisfies [P], and every label but the last one
    satisfies [R]. *)
Definition route_ok (st : State) (r : Route.t) : Prop :=
  length (Route.connections r) = length (Route.distances r)
  /\ Route.distances r <> []
  /\ forall i l, Route.distances r !! i = Some l ->
       label_ok st (S i < length (Route.distances r))%nat l.

Lemma build_loop_inv st s end_ fuel : forall route node dist r,
  labels_ok st (Routing.distances s) (Routing.prev s) ->
  Routing.distances s !! node = Some dist ->
  length (Route.connections route) = length (Route.distances route) ->
  (forall i l, Route.distances route !! i = Some l -> label_ok st True l) ->
  Routing.build_loop fuel s end_ route node dist = Ok r ->
  route_ok st r.
Proof.
  induction fuel as [|fuel IH]; intros route node dist r Hinv Hnode Hlen Hacc H;
    simpl in H; destruct (String.eqb node end_); simpl in H;
    try discriminate.
  - injection H as <-. split; [|split].
    + simpl. rewrite !length_app. simpl. lia.
    + simpl. by destruct (Route.distances route).
    + intros i l Hl. simpl in *.
      apply lookup_snoc_Some in Hl as [[Hi Hl]|[-> <-]].
      * destruct (Hacc i l Hl) as (p & Hp & HP & HR). exists p. eauto.
      * destruct (Hinv _ _ Hnode) as (p & Hp & HP & _). exists p.
        split; [done|]. split; [done|]. rewrite length_app. simpl. lia.
  - injection H as <-. split; [|split].
    + simpl. rewrite !length_app. simpl. lia.
    + simpl. by destruct (Route.distances route).
    + intros i l Hl. simpl in *.
      apply lookup_snoc_Some in Hl as [[Hi Hl]|[-> <-]].
      * destruct (Hacc i l Hl) as (p & Hp & HP & HR). exists p. eauto.
      * destruct (Hinv _ _ Hnode) as (p & Hp & HP & _). exists p.
        split; [done|]. split; [done|]. rewrite length_app. simpl. lia.
  - destruct (getitem_dict (Routing.prev s) node) as [node'|] eqn:Hp;
      [|discriminate].
    simpl in H.
    destruct (getitem_dict (Routing.distances s) node') as [dist'|] eqn:Hd;
      [|discriminate].
    simpl in H. apply getitem_dict_Ok in Hp, Hd.
    eapply IH; [exact Hinv|exact Hd| | |exact H].
    + simpl. rewrite !length_app. simpl. lia.
    + intros i l Hl. simpl in Hl.
      apply lookup_snoc_Some in Hl as [[Hi Hl]|[-> <-]]; [by eapply Hacc|].
      destruct (Hinv _ _ Hnode) as (p & Hp' & HP & HR). exists p.
      split; [done|]. split; [done|]. intros _. apply HR. by eexists.
Qed.

Lemma stochastic_dijkstra_inv fuel self start end_ thr nf st r st' :
  graph_ok st (Routing.G self) ->
  Routing.stochastic_dijkstra gamma_cdf fuel self start end_ target thr nf st
  = Ok (Some r, st') ->
  route_ok st' r.
Proof.
  intros Hg H. unfold Routing.stochastic_dijkstra in H.
  apply M_bind_Ok in H as (start' & st1 & H1 & H).
  assert (st1 = st) as ->.
  { destruct nf; [by apply lift_Ok in H1 as [_ ->]|].
    by apply mret_Ok in H1 as [_ ->]. }
  apply M_bind_Ok in H as (end' & st2 & H2 & H).
  assert (st2 = st) as ->.
  { destruct nf; [by apply lift_Ok in H2 as [_ ->]|].
    by apply mret_Ok in H2 as [_ ->]. }
  apply M_bind_Ok in H as (gr & st3 & [_ ->]%read_Ok & H).
  apply M_bind_Ok in H as (d & st4 & Hinit & H).
  pose proof (init_distances_frame _ _ _ _ _ _ Hinit) as Hext.
  apply init_distances_inv in Hinit; [|by intros v l; rewrite lookup_empty].
  apply M_bind_Ok in H as (dend & st5 & [Hend%getitem_dict_Ok ->]%lift_Ok & H).
  apply M_bind_Ok in H as (dend' & st6 & [_ ->]%lift_Ok & H).
  apply M_bind_Ok in H as (s & st7 & Hloop & H).
  apply lift_Ok in H as [H ->].
  apply search_loop_inv in Hloop; [|by eapply graph_ok_extends|].
  - unfold Routing.build_route in H.
    destruct (Routing.prev s !! start') as [x|]; [|discriminate].
    destruct (getitem_dict (Routing.distances s) start') as [dist|] eqn:Hd;
      [|discriminate].
    simpl in H.
    destruct (Routing.build_loop fuel s end' (Route.__init__ (Routing.G self))
                start' dist) as [r'|] eqn:Hb; [|discriminate].
    simpl in H. injection H as <-.
    refine (build_loop_inv _ _ _ _ _ _ _ _ Hloop _ _ _ Hb).
    + by apply getitem_dict_Ok.
    + reflexivity.
    + intros i l. simpl. by rewrite lookup_nil.
  - simpl. intros v l. destruct (decide (end' = v)) as [<-|Hne].
    + rewrite lookup_insert_eq. intros [= <-].
      destruct (Hinit _ _ Hend) as (p & Hp & HP & _). exists p.
      simpl. split; [done|]. split; [done|].
      rewrite lookup_empty. by intros [? [=]].
    + rewrite lookup_insert_ne by done. apply Hinit.
Qed.

End SearchInvariant.

(** ** routing.py: the routes of a search *)

Lemma rewritten_ttype d e : ttype (rewritten d e) = ttype e.
Proof.
  unfold rewritten. destruct (travel_time e); [|done].
  by destruct (String.eqb (ttype e) "Foot").
Qed.






(** ** routing.py: the robust planner *)

Section RobustFacts.
Variable gamma_cdf : GammaParams -> Z -> Q.

Lemma or_best_not_empty rl route : Routing.or_best rl route <> [].
Proof. by destruct rl. Qed.

Lemma robust_loop_not_empty n : forall fuel self graph start end_ t thr nr rl
    route proba weakest st res st',
  Routing.robust_loop gamma_cdf n fuel self graph start end_ t thr nr rl
    route proba weakest st = Ok (res, st') ->
  res <> [].
Proof.
  induction n as [|n IH];
    intros fuel self graph start end_ t thr nr rl route proba weakest st res
      st' H; simpl in H.
  - apply mret_Ok in H as [-> _]. apply or_best_not_empty.
  - destruct (Z.of_nat (length rl) <? nr);
      [|apply mret_Ok in H as [-> _]; apply or_best_not_empty].
    destruct weakest as [[u v] props].
    apply M_bind_Ok in H as (key & st1 & _ & H).
    apply M_bind_Ok in H as (x & st2 & _ & H).
    apply M_bind_Ok in H as (nr' & st3 & _ & H).
    destruct nr' as [new_route|];
      [|apply mret_Ok in H as [-> _]; apply or_best_not_empty].
    apply M_bind_Ok in H as (r & st4 & _ & H).
    destruct (Qlt_bool proba r.1); eapply IH; eauto.
Qed.

End RobustFacts.

(** C5, as the code has it. When the first search finds no route, the
    robust planner returns [None], not a list. When a later search finds
    no route, and when the turns are exhausted or enough routes are
    accepted, it returns the list of accepted routes, or the one-element
    list of the best route so far if none was accepted; a turn that finds a
    route keeps as best the more probable of the old best and the new
    route; the list returned is never empty. *)
Theorem robust_no_route (gamma_cdf : GammaParams -> Z -> Q) :
  (forall fuel self start end_ t thr mi nr st graph st1 st2,
     nx.copy (Routing.G self) st = Ok (graph, st1) ->
     Routing.stochastic_dijkstra gamma_cdf fuel self start end_ t thr true st1
     = Ok (None, st2) ->
     Routing.robust gamma_cdf fuel self start end_ t thr mi nr st
     = Ok (None, st2))
  /\ (forall n fuel self graph start end_ t thr nr rl route proba u v props
        st key st1 st2,
        Z.of_nat (length rl) < nr ->
        Routing.find_edge_key st graph u v props = Ok key ->
        nx.remove_edge graph u v key st = Ok (tt, st1) ->
        Routing.stochastic_dijkstra gamma_cdf fuel
          (Routing.mk graph (Routing.stop_name_to_id self)) start end_ t thr
          true st1 = Ok (None, st2) ->
        Routing.robust_loop gamma_cdf (S n) fuel self graph start end_ t thr
          nr rl route proba (u, v, props) st
        = Ok (Routing.or_best rl route, st2))
  /\ (forall n fuel self graph start end_ t thr nr rl route proba w st,
        n = 0%nat \/ nr <= Z.of_nat (length rl) ->
        Routing.robust_loop gamma_cdf n fuel self graph start end_ t thr nr
          rl route proba w st
        = Ok (Routing.or_best rl route, st))
  /\ (forall route, Routing.or_best [] route = [route])
  /\ (forall r0 rl route, Routing.or_best (r0 :: rl) route = r0 :: rl)
  /\ (forall n fuel self graph start end_ t thr nr rl route proba u v props
        st key st1 new_route st2 new_proba w,
        Z.of_nat (length rl) < nr ->
        Routing.find_edge_key st graph u v props = Ok key ->
        nx.remove_edge graph u v key st = Ok (tt, st1) ->
        Routing.stochastic_dijkstra gamma_cdf fuel
          (Routing.mk graph (Routing.stop_name_to_id self)) start end_ t thr
          true st1 = Ok (Some new_route, st2) ->
        Route.success_proba gamma_cdf st2 new_route = Ok (new_proba, w) ->
        Routing.robust_loop gamma_cdf (S n) fuel self graph start end_ t thr
          nr rl route proba (u, v, props) st
        = Routing.robust_loop gamma_cdf n fuel self graph start end_ t thr nr
            (if Qle_bool thr new_proba then rl ++ [new_route] else rl)%list
            (if Qlt_bool proba new_proba then new_route else route)
            (if Qlt_bool proba new_proba then new_proba else proba)
            w st2)
  /\ (forall fuel self start end_ t thr mi nr st graph st1 route st2 proba w,
        nx.copy (Routing.G self) st = Ok (graph, st1) ->
        Routing.stochastic_dijkstra gamma_cdf fuel self start end_ t thr true
          st1 = Ok (Some route, st2) ->
        Route.success_proba gamma_cdf st2 route = Ok (proba, w) ->
        Routing.robust gamma_cdf fuel self start end_ t thr mi nr st
        = match Routing.robust_loop gamma_cdf (Z.to_nat (mi - 1)) fuel self
                  graph start end_ t thr nr
                  (if Qle_bool thr proba then [route] else []) route proba w
                  st2
          with
          | Ok (rl, st3) => Ok (Some rl, st3)
          | Raise e => Raise e
          end)
  /\ (forall fuel self start end_ t thr mi nr st rl st',
        Routing.robust gamma_cdf fuel self start end_ t thr mi nr st
        = Ok (Some rl, st') ->
        rl <> []).
Proof.
  repeat apply conj.
  - intros fuel self start end_ t thr mi nr st graph st1 st2 Hc Hs.
    unfold Routing.robust, mbind, M_bind. by rewrite Hc, Hs.
  - intros n fuel self graph start end_ t thr nr rl route proba u v props
      st key st1 st2 Hlt Hk Hrm Hs.
    simpl. rewrite (proj2 (Z.ltb_lt _ _) Hlt).
    unfold mbind, M_bind, read. by rewrite Hk, Hrm, Hs.
  - intros n fuel self graph start end_ t thr nr rl route proba w st
      [->|Hle]; [done|].
    destruct n; [done|]. simpl.
    by rewrite (proj2 (Z.ltb_ge _ _) Hle).
  - done.
  - done.
  - intros n fuel self graph start end_ t thr nr rl route proba u v props
      st key st1 new_route st2 new_proba w Hlt Hk Hrm Hs Hp.
    simpl. rewrite (proj2 (Z.ltb_lt _ _) Hlt).
    unfold mbind, M_bind, read. rewrite Hk, Hrm, Hs, Hp. simpl.
    by destruct (Qlt_bool proba new_proba).
  - intros fuel self start end_ t thr mi nr st graph st1 route st2 proba w
      Hc Hs Hp.
    unfold Routing.robust, mbind, M_bind, read. rewrite Hc, Hs, Hp. simpl.
    by destruct (Routing.robust_loop _ _ _ _ _ _ _ _ _ _ _ _ _ _ _)
      as [[rl st3]|].
  - intros fuel self start end_ t thr mi nr st rl st' H.
    unfold Routing.robust in H.
    apply M_bind_Ok in H as (graph & st1 & _ & H).
    apply M_bind_Ok in H as (route & st2 & _ & H).
    destruct route as [route|]; [|by apply mret_Ok in H as [[=] _]].
    apply M_bind_Ok in H as (r & st3 & _ & H).
    apply M_bind_Ok in H as (rl' & st4 & Hl & H).
    apply mret_Ok in H as [[= ->] _].
    by eapply robust_loop_not_empty.
Qed.

(** C5 as stated fails at the first search: asked to arrive by 00:00, the
    first search finds no route and the planner returns [None], not a
    list. *)
Lemma robust_first_search_none :
  exists graph st1 st2,
    nx.copy (Routing.G Sample.planner) Sample.store = Ok (graph, st1)
    /\ Routing.stochastic_dijkstra Sample.cdf 10 Sample.planner "A" "C" 0
         (1 # 2)%Q true st1 = Ok (None, st2)
    /\ Routing.robust Sample.cdf 10 Sample.planner "A" "C" 0 (1 # 2)%Q 10 1
         Sample.store = Ok (None, st2).
Proof.
  eexists _, _, _. split; [vm_compute; reflexivity|].
  split; vm_compute; reflexivity.
Qed.

(** A run in which the first route has probability 1/4, below the
    threshold 1/2: its weakest edge is removed from the copy, the second
    search finds nothing, and the planner falls back on that route. *)
Lemma robust_no_route_witness :
  exists rl st',
    Routing.robust Sample.cdf 10 Sample.planner "A" "C" 30330 (1 # 2)%Q 10 1
      Sample.store = Ok (Some rl, st')
    /\ length rl = 1%nat /\ rl <> [].
Proof.
  eexists _, _. split; [vm_compute; reflexivity|]. split; [reflexivity|].
  destruct (robust_no_route Sample.cdf)
    as (_ & _ & _ & _ & _ & _ & _ & Hne).
  eapply (Hne 10%nat Sample.planner "A" "C" 30330 (1 # 2)%Q 10 1 Sample.store).
  vm_compute. reflexivity.
Defined.

(** The same run: the planner's graph and the two dictionaries of its
    edges are as before, although an edge was removed from the copy. *)
Lemma graph_not_mutated_witness :
  exists res st',
    Routing.robust Sample.cdf 10 Sample.planner "A" "C" 30330 (1 # 2)%Q 10 1
      Sample.store = Ok (res, st')
    /\ graphs st' !! 0%nat = Some Sample.graph
    /\ graphs st' !! 1%nat
       = Some [("A", []); ("B", [("A", [(0, 2%nat)])]); ("C", [])]
    /\ dicts st' !! 0%nat = Some Sample.ride
    /\ dicts st' !! 1%nat = Some Sample.bus2.
Proof.
  destruct (Routing.robust Sample.cdf 10 Sample.planner "A" "C" 30330
              (1 # 2)%Q 10 1 Sample.store) as [[res st']|] eqn:H;
    [|vm_compute in H; discriminate].
  destruct (graph_not_mutated Sample.cdf) as (_ & _ & Hrobust).
  destruct (Hrobust _ _ _ _ _ _ _ _ _ _ _ H) as [Hg Hd].
  exists res, st'. split; [done|].
  split; [by apply Hg|].
  split; [vm_compute in H; by injection H as _ <-|].
  split; by apply Hd.
Defined.

Lemma sample_graph_penalties gr l :
  graphs Sample.store !! Routing.G Sample.planner = Some gr ->
  l ∈ edge_locs gr ->
  exists e, dicts Sample.store !! l = Some e /\ has_penalty (ttype e).
Proof.
  intros [= <-] Hl. simpl in Hl.
  apply elem_of_cons in Hl as [->|Hl];
    [|apply elem_of_cons in Hl as [->|Hl]; [|by apply elem_of_nil in Hl]];
    eexists; (split; [reflexivity|]); by eexists.
Qed.

(** ** routing.py: the gate of the search *)

Lemma search_loop_first gamma_cdf fuel G start t thr s st entry q' :
  heappop Routing.entry_lt (Routing.queue s) = Some (entry, q') ->
  Routing.search_loop gamma_cdf (S fuel) G start t thr s st
  = match Routing.visit gamma_cdf G start t thr entry.2
            (Routing.mkTables (Routing.distances s) (Routing.prev s)
               ({[entry.2]} ∪ Routing.visited s) q') st
    with
    | Ok (s', st') => Routing.search_loop gamma_cdf fuel G start t thr s' st'
    | Raise e => Raise e
    end.
Proof. intros H. cbn [Routing.search_loop]. by rewrite H. Qed.

(** What [neighbours] binds when the stop [u] is popped, and the loop that
    follows. *)
Lemma visit_bindings gamma_cdf (G : gref) (start u : ID) t thr s st
    (gr : Graph) label_u label_start pp :
  graphs st !! G = Some gr ->
  Routing.distances s !! u = Some label_u ->
  dicts st !! TimeDistance.prev_props label_u = Some pp ->
  Routing.distances s !! start = Some label_start ->
  Routing.visit gamma_cdf G start t thr u s st
  = Routing.relax_edges gamma_cdf (nx.out_edges gr u) u
      (TimeDistance.prev_props label_u) (dep_time pp)
      (xsub t (TimeDistance.__call__ label_start)) thr s st.
Proof.
  intros Hgr Hu Hpp Hstart.
  assert (H1 : getitem_dict (Routing.distances s) u = Ok label_u)
    by (by apply getitem_dict_Ok).
  assert (H2 : getitem_dict (Routing.distances s) start = Ok label_start)
    by (by apply getitem_dict_Ok).
  unfold Routing.visit, mbind, M_bind, lift, read.
  rewrite H1. unfold TimeDistance.previous_dep_time, deref.
  rewrite Hpp. simpl. rewrite H2. unfold get_graph. by rewrite Hgr.
Qed.

(** One turn of the [for] loop: the filter, on the two dictionaries, then
    the body. *)
Lemma relax_gate gamma_cdf (u : ID) (ppl : loc) pdt cbdt thr
    (edge : ID * ID * loc) s st pp props :
  dicts st !! ppl = Some pp ->
  dicts st !! edge.2 = Some props ->
  Routing.relax gamma_cdf u ppl pdt cbdt thr edge s st
  = match Routing.time_filter gamma_cdf pp pdt cbdt thr props with
    | Ok true => Routing.relax_body u edge s st
    | Ok false => Ok (s, st)
    | Raise e => Raise e
    end.
Proof.
  intros Hpp Hp.
  unfold Routing.relax, Routing.relax_body, mbind, M_bind, lift, read, deref.
  rewrite Hpp, Hp.
  by destruct (Routing.time_filter gamma_cdf pp pdt cbdt thr props)
    as [[|]|].
Qed.

Lemma time_filter_cases gamma_cdf pp pdt cbdt thr props :
  (exists b, Routing.time_filter gamma_cdf pp pdt cbdt thr props = Ok b)
  \/ exists e,
       Delay.connection_probability gamma_cdf props pp = Raise e
       /\ Routing.time_filter gamma_cdf pp pdt cbdt thr props = Raise e.
Proof.
  unfold Routing.time_filter. destruct (_ && _); [|by left; eexists].
  destruct (Delay.connection_probability gamma_cdf props pp) as [q|e];
    simpl; [left | right]; by eexists.
Qed.







(** C9. With a graph whose edges all have a mode of the penalty table. A
    call with such a dictionary as [prev_props] never fails. When the
    search pops a stop, every turn of its loop over the out-edges calls
    the gate with the dictionary of the out-edge, a graph edge, as
    [prev_props] (and the dictionary of the label of the popped stop as
    [curr_props]), so the probability is returned and the turn is the body
    of the loop or nothing, as the filter says. In a route returned by the
    search every label but the last points to a dictionary with such a
    mode, so that the calls of [success_proba], on consecutive labels,
    never fail either. A direct call with the [INIT_PROPS] dictionary as
    [prev_props] and another trip fails. *)
Theorem penalty_lookup_total (gamma_cdf : GammaParams -> Z -> Q) :
  (forall prev_props curr_props,
     has_penalty (ttype prev_props) ->
     exists q,
       Delay.connection_probability gamma_cdf prev_props curr_props = Ok q)
  /\ (forall (G : gref) (start u : ID) target threshold s st (gr : Graph)
        label_u label_start prev_props,
        graphs st !! G = Some gr ->
        (forall l, l ∈ edge_locs gr ->
           exists e, dicts st !! l = Some e /\ has_penalty (ttype e)) ->
        Routing.distances s !! u = Some label_u ->
        dicts st !! TimeDistance.prev_props label_u = Some prev_props ->
        Routing.distances s !! start = Some label_start ->
        let best := xsub target (TimeDistance.__call__ label_start) in
        Routing.visit gamma_cdf G start target threshold u s st
        = Routing.relax_edges gamma_cdf (nx.out_edges gr u) u
            (TimeDistance.prev_props label_u) (dep_time prev_props) best
            threshold s st
        /\ forall (edge : ID * ID * loc) s1 st1,
             edge ∈ nx.out_edges gr u ->
             extends st st1 ->
             exists props q b,
               dicts st1 !! edge.2 = Some props
               /\ has_penalty (ttype props)
               /\ Delay.connection_probability gamma_cdf props prev_props
                  = Ok q
               /\ Routing.time_filter gamma_cdf prev_props
                    (dep_time prev_props) best threshold props = Ok b
               /\ Routing.relax gamma_cdf u
                    (TimeDistance.prev_props label_u) (dep_time prev_props)
                    best threshold edge s1 st1
                  = if b then Routing.relax_body u edge s1 st1
                    else Ok (s1, st1))
  /\ (forall fuel self start end_ target threshold names_format st r st',
        (forall gr l,
           graphs st !! Routing.G self = Some gr -> l ∈ edge_locs gr ->
           exists e, dicts st !! l = Some e /\ has_penalty (ttype e)) ->
        Routing.stochastic_dijkstra gamma_cdf fuel self start end_ target
          threshold names_format st = Ok (Some r, st') ->
        forall i l l',
          Route.distances r !! i = Some l ->
          Route.distances r !! S i = Some l' ->
          exists p p' q,
            dicts st' !! TimeDistance.prev_props l = Some p
            /\ dicts st' !! TimeDistance.prev_props l' = Some p'
            /\ has_penalty (ttype p)
            /\ Delay.connection_probability gamma_cdf p p' = Ok q)
  /\ (forall time curr_props,
        trip_id curr_props <> INIT_TRIP_ID ->
        Delay.connection_probability gamma_cdf (TimeDistance.INIT_PROPS time)
          curr_props = Raise (KeyError "Init")).
Proof.
  split; [|split; [|split]].
  - intros. by apply connection_probability_total.
  - intros G start u target threshold s st gr label_u label_start prev_props
      Hgr Hg Hu Hpp Hstart best.
    split.
    { by rewrite (visit_bindings gamma_cdf G start u target threshold s st gr
                    label_u label_start prev_props Hgr Hu Hpp Hstart). }
    intros edge s1 st1 Hedge%out_edges_locs Hext.
    destruct (Hg _ Hedge) as (props & Hprops & Hpen).
    pose proof (extends_lookup _ _ _ _ Hext Hprops) as Hprops1.
    pose proof (extends_lookup _ _ _ _ Hext Hpp) as Hpp1.
    destruct (connection_probability_total gamma_cdf props prev_props Hpen)
      as [q Hq].
    destruct (time_filter_cases gamma_cdf prev_props (dep_time prev_props)
                best threshold props) as [[b Hb]|(e & He & _)];
      [|congruence].
    exists props, q, b. do 4 (split; [done|]).
    rewrite (relax_gate gamma_cdf u _ (dep_time prev_props) best threshold
               edge s1 st1 prev_props props Hpp1 Hprops1).
    rewrite Hb. by destruct b.
  - intros fuel self start end_ target threshold names_format st r st' Hg H
      i l l' Hl Hl'.
    pose proof (stochastic_dijkstra_inv gamma_cdf
                  (fun e => has_penalty (ttype e)) (fun _ _ => True)
                  (fun e => has_penalty (ttype e)) target) as Hinv.
    assert (Hstep : forall (d : Z) (e : EdgeProps),
              has_penalty (ttype e) -> has_penalty (ttype (rewritten d e))).
    { intros d e He. by rewrite rewritten_ttype. }
    destruct (Hinv I (fun _ _ _ _ _ _ _ => I) Hstep fuel self start end_
                threshold names_format st r st' Hg H) as (_ & _ & Hall).
    destruct (Hall i l Hl) as (p & Hp & _ & HR).
    destruct (Hall (S i) l' Hl') as (p' & Hp' & _ & _).
    assert (Hpen : has_penalty (ttype p)).
    { apply HR. by apply lookup_lt_is_Some_1. }
    destruct (connection_probability_total gamma_cdf p p' Hpen) as [q Hq].
    by exists p, p', q.
  - intros time curr_props Hne. unfold Delay.connection_probability. simpl.
    rewrite compute_delay_missing; [done | | reflexivity].
    intros Heq. apply Hne. by rewrite <- Heq.
Qed.

Lemma sample_store0_penalties l :
  l ∈ edge_locs Sample.graph ->
  exists e, dicts Sample.store0 !! l = Some e /\ has_penalty (ttype e).
Proof.
  intros Hl. simpl in Hl.
  apply elem_of_cons in Hl as [->|Hl];
    [|apply elem_of_cons in Hl as [->|Hl]; [|by apply elem_of_nil in Hl]];
    eexists; (split; [reflexivity|]); by eexists.
Qed.

Lemma penalty_lookup_total_witness :
  (exists q b,
     Delay.connection_probability Sample.cdf Sample.bus2
       (TimeDistance.INIT_PROPS 30400) = Ok q
     /\ Routing.relax Sample.cdf "C" 2%nat 30400 NInf (1 # 2)%Q
          ("C", "B", 1%nat) Sample.tables0 Sample.store0
        = if b : bool
          then Routing.relax_body "C" ("C", "B", 1%nat) Sample.tables0
                 Sample.store0
          else Ok (Sample.tables0, Sample.store0))
  /\ exists r st' l l' p p' q,
       Routing.stochastic_dijkstra Sample.cdf 10 Sample.planner "A" "C" 30400
         (1 # 2)%Q true Sample.store = Ok (Some r, st')
       /\ Route.distances r !! 1%nat = Some l
       /\ Route.distances r !! 2%nat = Some l'
       /\ dicts st' !! TimeDistance.prev_props l = Some p
       /\ dicts st' !! TimeDistance.prev_props l' = Some p'
       /\ ttype p' = "Init"
       /\ has_penalty (ttype p)
       /\ Delay.connection_probability Sample.cdf p p' = Ok q.
Proof.
  destruct (penalty_lookup_total Sample.cdf) as (_ & Hgate & Hroute & _).
  split.
  - destruct (Hgate 0%nat "A" "C" 30400 (1 # 2)%Q Sample.tables0
                Sample.store0 Sample.graph (TimeDistance.mk false 0 2%nat)
                (TimeDistance.mk true 0 2%nat) (TimeDistance.INIT_PROPS 30400)
                eq_refl sample_store0_penalties eq_refl eq_refl eq_refl)
      as [_ Hturn].
    destruct (Hturn ("C", "B", 1%nat) Sample.tables0 Sample.store0)
      as (props & q & b & Hprops & _ & Hq & _ & Hrelax);
      [vm_compute; apply list_elem_of_here | apply extends_refl |].
    injection Hprops as <-. by exists q, b.
  - destruct (Routing.stochastic_dijkstra Sample.cdf 10 Sample.planner "A"
                "C" 30400 (1 # 2)%Q true Sample.store)
      as [[[r|] st']|] eqn:H;
      try (vm_compute in H; discriminate).
    pose proof (Hroute _ _ _ _ _ _ _ _ _ _ sample_graph_penalties H) as Hr.
    vm_compute in H. injection H as <- <-.
    destruct (Hr 1%nat _ _ eq_refl eq_refl)
      as (p & p' & q & Hp & Hp' & Hpen & Hq).
    eexists _, _, _, _, p, p', q.
    split; [reflexivity|]. split; [reflexivity|]. split; [reflexivity|].
    split; [exact Hp|]. split; [exact Hp'|]. split; [|by split].
    by injection Hp' as <-.
Defined.

(** * Further properties of the code *)

(** ** timedistance.py: the order of the labels *)

(** X1. [__lt__] compares costs, the cost of a label that was never assigned
    being infinite: [a < b] exactly when [a] is assigned and [b] is
    unassigned or has a larger [cum_time]. It is a strict order whose
    incomparable labels have the same cost; an unassigned label is below
    nothing, and [updated] puts a label below every unassigned one. *)
Theorem label_order (a b c : TimeDistance.t) :
  (TimeDistance.__lt__ a b = true
   <-> TimeDistance.first a = false
       /\ (TimeDistance.first b = true
           \/ TimeDistance.cum_time a < TimeDistance.cum_time b))
  /\ TimeDistance.__lt__ a a = false
  /\ (TimeDistance.__lt__ a b = true -> TimeDistance.__lt__ b c = true ->
      TimeDistance.__lt__ a c = true)
  /\ (TimeDistance.__lt__ a b = true -> TimeDistance.__lt__ b a = false)
  /\ (TimeDistance.__lt__ a b = false -> TimeDistance.__lt__ b a = false ->
      TimeDistance.__call__ a = TimeDistance.__call__ b)
  /\ (TimeDistance.first a = true -> TimeDistance.__lt__ a b = false)
  /\ (TimeDistance.first b = true ->
      TimeDistance.__lt__ (TimeDistance.updated a) b = true)
  /\ TimeDistance.__call__ (TimeDistance.updated a)
     = Fin (TimeDistance.cum_time a).
Proof.
  unfold TimeDistance.__lt__, TimeDistance.__call__, TimeDistance.updated.
  destruct a as [fa ca pa], b as [fb cb pb], c as [fc cc pc]; simpl.
  destruct fa, fb, fc; simpl; rewrite ?Z.ltb_lt, ?Z.ltb_ge, ?Z.ltb_irrefl;
    repeat split; try tauto; try discriminate; try lia;
    try (intros; f_equal; lia); try (intros [? [?|?]]; (discriminate || lia)).
Qed.

(** ** routing.py and timedistance.py: the weight of a relaxed edge *)



(** ** delay.py: bounds and monotonicity *)

Section DelayBounds.
Variable gamma_cdf : GammaParams -> Z -> Q.
Hypothesis gamma_cdf_bounds :
  forall g x, (0 <= gamma_cdf g x)%Q /\ (gamma_cdf g x <= 1)%Q.

(** X3. With a distribution function that takes its values in [0, 1], so does
    [connection_probability]. *)
Theorem connection_probability_bounds (prev_props curr_props : EdgeProps)
    (q : Q) :
  Delay.connection_probability gamma_cdf prev_props curr_props = Ok q ->
  (0 <= q)%Q /\ (q <= 1)%Q.
Proof.
  unfold Delay.connection_probability.
  destruct (Delay.__compute_delay _ _ _ _ _) as [d|]; [|discriminate].
  simpl. intros [= <-]. unfold Delay.__connection_probability.
  destruct (String.eqb _ _); [done|].
  destruct (trip_eqb _ _); [done|].
  destruct (gamma prev_props); [apply gamma_cdf_bounds | done].
Qed.

Hypothesis gamma_cdf_mono :
  forall g x y, x <= y -> (gamma_cdf g x <= gamma_cdf g y)%Q.

(** X4. With a non-decreasing distribution function, leaving later never
    lowers the probability of a connection: [connection_probability] is
    non-decreasing in [curr_props.dep_time], all else fixed, and whether
    it fails does not depend on the times. *)
Theorem connection_probability_mono (prev_props curr_props : EdgeProps)
    (d : Z) (q : Q) :
  dep_time curr_props <= d ->
  Delay.connection_probability gamma_cdf prev_props curr_props = Ok q ->
  exists q',
    Delay.connection_probability gamma_cdf prev_props
      (set_dep_time d curr_props) = Ok q'
    /\ (q <= q')%Q.
Proof.
  unfold Delay.connection_probability, Delay.__compute_delay. simpl.
  intros Hd.
  destruct (trip_eqb (trip_id prev_props) (trip_id curr_props)) eqn:Ht; simpl.
  - intros [= <-]. eexists. split; [reflexivity|].
    unfold Delay.__connection_probability. rewrite Ht.
    destruct (String.eqb _ _); apply Qle_refl.
  - destruct (Delay.penalty (ttype prev_props)) as [pen|]; [|discriminate].
    simpl. intros [= <-]. eexists. split; [reflexivity|].
    unfold Delay.__connection_probability. rewrite Ht.
    destruct (String.eqb _ _); [apply Qle_refl|].
    destruct (gamma prev_props); [|apply Qle_refl].
    apply gamma_cdf_mono. lia.
Qed.

End DelayBounds.

Lemma sample_cdf_bounds g x : (0 <= Sample.cdf g x)%Q /\ (Sample.cdf g x <= 1)%Q.
Proof.
  unfold Sample.cdf. destruct (x <=? 0); [done|]. destruct (x <? 60); done.
Qed.

Lemma sample_cdf_mono g x y : x <= y -> (Sample.cdf g x <= Sample.cdf g y)%Q.
Proof.
  unfold Sample.cdf. intros Hxy.
  destruct (Z.leb_spec x 0), (Z.leb_spec y 0); try done; try lia;
    destruct (Z.ltb_spec x 60); destruct (Z.ltb_spec y 60);
    try done; try lia.
Qed.

Lemma connection_probability_bounds_witness :
  (0 <= 1 # 2)%Q /\ (1 # 2 <= 1)%Q.
Proof.
  apply (connection_probability_bounds Sample.cdf sample_cdf_bounds
           Sample.ride Sample.bus2 (1 # 2)%Q).
  reflexivity.
Defined.

Lemma connection_probability_mono_witness :
  exists q',
    Delay.connection_probability Sample.cdf Sample.ride
      (set_dep_time 29500 Sample.bus2) = Ok q'
    /\ (1 # 2 <= q')%Q.
Proof.
  apply (connection_probability_mono Sample.cdf sample_cdf_mono
           Sample.ride Sample.bus2 29500 (1 # 2)%Q);
    [simpl; lia | reflexivity].
Defined.

(** ** route.py: accessors, construction and the probability of a route *)

(** X5. [append] adds one stop and one label at the end, so the departure,
    travel and arrival times of a route that has a stop are those of its
    first label whatever is appended later; and the first [append] on a new
    route is what sets them. *)
Theorem append_keeps_times (st : State) (r : Route.t) (node : ID)
    (dist : TimeDistance.t) :
  Route.connections r <> [] ->
  Route.distances r <> [] ->
  Route.connections (Route.append r node dist)
  = (Route.connections r ++ [node])%list
  /\ Route.distances (Route.append r node dist)
     = (Route.distances r ++ [dist])%list
  /\ Route.dep_time st (Route.append r node dist) = Route.dep_time st r
  /\ Route.travel_time (Route.append r node dist) = Route.travel_time r
  /\ Route.arr_time st (Route.append r node dist) = Route.arr_time st r
  /\ (forall G,
        Route.travel_time (Route.append (Route.__init__ G) node dist)
        = Ok (TimeDistance.cum_time dist)).
Proof.
  intros Hc Hd.
  unfold Route.append, Route.dep_time, Route.travel_time, Route.arr_time,
    Route.travel_time, Route.assert_not_empty.
  destruct r as [G cs ds]. simpl in *.
  destruct cs as [|c cs]; [done|]. destruct ds as [|d ds]; [done|].
  by repeat split.
Qed.

Lemma append_keeps_times_witness :
  let r := Route.mk 0%nat ["A"] [TimeDistance.mk false 1200 0%nat] in
  Route.travel_time (Route.append r "B" (TimeDistance.mk false 0 1%nat))
  = Route.travel_time r.
Proof.
  intros r.
  destruct (append_keeps_times (mkState [] []) r "B"
              (TimeDistance.mk false 0 1%nat)) as (_ & _ & _ & H & _);
    [discriminate | discriminate | exact H].
Defined.

Section RouteBounds.
Variable gamma_cdf : GammaParams -> Z -> Q.
Hypothesis gamma_cdf_bounds :
  forall g x, (0 <= gamma_cdf g x)%Q /\ (gamma_cdf g x <= 1)%Q.
Variable st : State.
Variable cs : list ID.
Variable ds : list TimeDistance.t.

(** The running product is between 0 and the least probability so far,
    and the edge held, if any, is the one of a pair with that
    probability. *)
Definition product_below (proba least : Q)
    (edge : option (ID * ID * loc)) : Prop :=
  (0 <= proba)%Q /\ (proba <= least)%Q /\ (least <= 1)%Q
  /\ match edge with
     | None => True
     | Some (u, v, l) =>
         exists k d d' pk pk',
           cs !! k = Some v /\ cs !! S k = Some u
           /\ ds !! k = Some d /\ ds !! S k = Some d'
           /\ l = TimeDistance.prev_props d
           /\ dicts st !! TimeDistance.prev_props d = Some pk
           /\ dicts st !! TimeDistance.prev_props d' = Some pk'
           /\ Delay.connection_probability gamma_cdf pk pk' = Ok least
     end.

Lemma success_loop_bounds pairs : forall i proba least edge p' edge',
  pairs = drop i (zip cs (tail cs)) ->
  product_below proba least edge ->
  Route.success_loop gamma_cdf st ds pairs i proba least edge
  = Ok (p', edge') ->
  exists least', product_below p' least' edge'.
Proof.
  induction pairs as [|[dep_stop arr_stop] pairs IH];
    intros i proba least edge p' edge' Hpairs Hinv H; simpl in H.
  - injection H as <- <-. eauto.
  - assert (Hi : zip cs (tail cs) !! i = Some (dep_stop, arr_stop)).
    { rewrite <- (Nat.add_0_r i), <- lookup_drop, <- Hpairs. done. }
    assert (Hrest : pairs = drop (S i) (zip cs (tail cs))).
    { rewrite (drop_S _ _ _ Hi) in Hpairs. by injection Hpairs. }
    apply lookup_zip_with_Some in Hi as (v & u & [= -> ->] & Hv & Hu).
    rewrite lookup_tail in Hu.
    unfold getitem_list, deref in H.
    destruct (ds !! i) as [d|] eqn:Hd; [|discriminate]. simpl in H.
    destruct (dicts st !! TimeDistance.prev_props d) as [pk|] eqn:Hpk;
      [|discriminate].
    simpl in H.
    destruct (ds !! S i) as [d'|] eqn:Hd'; [|discriminate]. simpl in H.
    destruct (dicts st !! TimeDistance.prev_props d') as [pk'|] eqn:Hpk';
      [|discriminate].
    simpl in H.
    destruct (Delay.connection_probability gamma_cdf pk pk') as [q|] eqn:Hq;
      [|discriminate].
    simpl in H.
    destruct (connection_probability_bounds gamma_cdf gamma_cdf_bounds
                _ _ _ Hq) as [Hq0 Hq1].
    destruct Hinv as (Hp0 & Hpl & Hl1 & Hedge).
    assert (Hmul0 : (0 <= proba * q)%Q) by by apply Qmult_le_0_compat.
    assert (Hmulq : (proba * q <= q)%Q).
    { rewrite <- (Qmult_1_l q) at 2. apply Qmult_le_compat_r; [|done].
      by eapply Qle_trans. }
    assert (Hmulp : (proba * q <= proba)%Q).
    { rewrite <- (Qmult_1_r proba) at 2. rewrite !(Qmult_comm proba).
      by apply Qmult_le_compat_r. }
    destruct (Qle_bool q least) eqn:Hle.
    + eapply IH; [exact Hrest| |exact H].
      split; [done|]. split; [done|]. split; [done|].
      exists i, d, d', pk, pk'. by repeat split.
    + eapply IH; [exact Hrest| |exact H].
      split; [done|]. split; [by eapply Qle_trans|]. by split.
Qed.

(** X6. With a distribution function that takes its values in [0, 1]: the
    probability that [success_proba] returns is in [0, 1] and is at most
    the probability of the connection of the edge returned with it, which
    is the edge [(connections[k+1], connections[k],
    distances[k].prev_props)] of some pair [k]. A route accepted at a
    threshold thus has no connection below the threshold at its weakest
    edge. *)
Theorem success_proba_bounds (r : Route.t) (p : Q) (u v : ID) (l : loc) :
  Route.connections r = cs ->
  Route.distances r = ds ->
  Route.success_proba gamma_cdf st r = Ok (p, (u, v, l)) ->
  (0 <= p)%Q /\ (p <= 1)%Q
  /\ exists k d d' pk pk' q,
       cs !! k = Some v /\ cs !! S k = Some u
       /\ ds !! k = Some d /\ ds !! S k = Some d'
       /\ l = TimeDistance.prev_props d
       /\ dicts st !! TimeDistance.prev_props d = Some pk
       /\ dicts st !! TimeDistance.prev_props d' = Some pk'
       /\ Delay.connection_probability gamma_cdf pk pk' = Ok q
       /\ (p <= q)%Q.
Proof.
  intros Hcs Hds H. unfold Route.success_proba in H.
  destruct (Route.assert_not_empty r); [|discriminate]. simpl in H.
  rewrite Hcs, Hds in H.
  destruct (Route.success_loop gamma_cdf st ds (zip cs (tail cs)) 0 1%Q 1%Q
              None) as [[p' edge']|] eqn:Hloop; [|discriminate].
  simpl in H. destruct edge' as [[[u' v'] l']|]; [|discriminate].
  injection H as -> -> -> ->.
  destruct (success_loop_bounds (zip cs (tail cs)) 0%nat 1%Q 1%Q None p
              (Some (u, v, l)))
    as (least & Hp0 & Hpl & Hl1 & Hedge); [by rewrite drop_0| |exact Hloop|].
  { by repeat split. }
  split; [done|]. split; [by eapply Qle_trans|].
  destruct Hedge as (k & d & d' & pk & pk' & ? & ? & ? & ? & ? & ? & ? & ?).
  exists k, d, d', pk, pk', least. by repeat split.
Qed.

End RouteBounds.

Lemma success_proba_bounds_witness :
  let st := mkState [Sample.ride; Sample.bus2; TimeDistance.INIT_PROPS 30330]
              [] in
  let ds := [TimeDistance.mk false 1530 0%nat; TimeDistance.mk false 870 1%nat;
             TimeDistance.mk false 0 2%nat] in
  let r := Route.mk 0%nat ["A"; "B"; "C"] ds in
  Route.success_proba Sample.cdf st r = Ok ((1 # 4)%Q, ("C", "B", 1%nat))
  /\ (0 <= 1 # 4)%Q /\ (1 # 4 <= 1)%Q.
Proof.
  intros st ds r. split; [reflexivity|].
  destruct (success_proba_bounds Sample.cdf sample_cdf_bounds st
              ["A"; "B"; "C"] ds r (1 # 4)%Q "C" "B" 1%nat
              eq_refl eq_refl eq_refl) as (H0 & H1 & _).
  by split.
Defined.

(** ** routing.py: a returned route is a path of the graph *)

Lemma out_edges_src gr u x : x ∈ nx.out_edges gr u -> x.1.1 = u.
Proof.
  unfold nx.out_edges.
  destruct (alist_get String.eqb gr u) as [nbrs|]; [|by intros ?%elem_of_nil].
  rewrite list_elem_of_In, in_flat_map.
  intros ([v kd] & _ & Hx). by apply in_map_iff in Hx as ([k l] & <- & _).
Qed.

Section SearchPath.
Variable gamma_cdf : GammaParams -> Z -> Q.
Variable gr : Graph.
Variable G : gref.
Variable end_ : ID.

(** The label [l] of [v] was set by relaxing, from [u], an edge of the
    graph from [u] to [v]; its dictionary is the one of that edge, with
    the times of a walk rewritten. *)
Definition hop_ok (st : State) (u v : ID) (l : TimeDistance.t) : Prop :=
  exists eloc e d,
    (u, v, eloc) ∈ nx.out_edges gr u
    /\ dicts st !! eloc = Some e
    /\ dicts st !! TimeDistance.prev_props l = Some (rewritten d e)
    /\ TimeDistance.first l = false.

Definition path_ok (st : State) (s : Routing.tables) : Prop :=
  graphs st !! G = Some gr
  /\ (forall v l, Routing.distances s !! v = Some l ->
        is_Some (dicts st !! TimeDistance.prev_props l))
  /\ (forall v u, Routing.prev s !! v = Some u ->
        exists l, Routing.distances s !! v = Some l /\ hop_ok st u v l)
  /\ (forall l, Routing.distances s !! end_ = Some l ->
        TimeDistance.first l = false).

Lemma hop_ok_extends st st' u v l :
  hop_ok st u v l -> extends st st' -> hop_ok st' u v l.
Proof.
  intros (eloc & e & d & Hin & He & Hl & Hf) Hext.
  exists eloc, e, d. repeat split; try done; by eapply extends_lookup.
Qed.

Lemma path_ok_extends st st' s :
  path_ok st s -> extends st st' -> path_ok st' s.
Proof.
  intros (Hg & Hv & Hp & He) Hext. split; [|split; [|split]].
  - destruct Hext as [_ ->]. done.
  - intros v l Hl. destruct (Hv v l Hl) as [p Hp'].
    exists p. by eapply extends_lookup.
  - intros v u Hu. destruct (Hp v u Hu) as (l & Hl & Hh).
    exists l. split; [done|]. by eapply hop_ok_extends.
  - done.
Qed.

Lemma path_ok_tables st s s' :
  path_ok st s -> Routing.distances s' = Routing.distances s ->
  Routing.prev s' = Routing.prev s -> path_ok st s'.
Proof. unfold path_ok. by intros H -> ->. Qed.

Lemma relax_path curr pp pdt cbdt thr edge s st s' st' :
  edge ∈ nx.out_edges gr curr ->
  path_ok st s ->
  Routing.relax gamma_cdf curr pp pdt cbdt thr edge s st = Ok (s', st') ->
  path_ok st' s'.
Proof.
  intros Hedge Hinv H.
  pose proof (relax_frame _ _ _ _ _ _ _ _ _ _ _ H) as Hext.
  unfold Routing.relax in H.
  apply M_bind_Ok in H as (p1 & st1 & [_ ->]%read_Ok & H).
  apply M_bind_Ok in H as (e & st2 & [He%deref_Ok ->]%read_Ok & H).
  apply M_bind_Ok in H as (ok & st3 & [_ ->]%lift_Ok & H).
  destruct ok;
    [|apply mret_Ok in H as [-> ->]; by eapply path_ok_extends].
  apply M_bind_Ok in H as (dcurr & st4 & [Hcurr%getitem_dict_Ok ->]%lift_Ok & H).
  apply M_bind_Ok in H as (new_dist & st5 & Hadd & H).
  apply M_bind_Ok in H as (dn & st6 & [_ ->]%lift_Ok & H).
  destruct (TimeDistance.__lt__ new_dist dn);
    [|apply mret_Ok in H as [-> ->]; by eapply path_ok_extends].
  pose proof Hinv as (Hg & Hv & Hp & Hend).
  destruct (Hv _ _ Hcurr) as [sp Hsp].
  destruct (travel_time e) as [t|] eqn:Ht;
    [|by rewrite (add_without_travel_time _ _ _ _ _ He Hsp Ht) in Hadd].
  rewrite (add_Ok _ _ _ _ _ _ He Hsp Ht) in Hadd.
  injection Hadd as <- <-.
  set (new := TimeDistance.updated
         {| TimeDistance.first := TimeDistance.first dcurr;
            TimeDistance.cum_time :=
              TimeDistance.cum_time dcurr + dep_time sp
              - arr_time (rewritten (dep_time sp) e) + t;
            TimeDistance.prev_props :=
              if String.eqb (ttype e) "Foot" then length (dicts st)
              else edge.2 |}) in *.
  assert (Hst' : st' = {|
          dicts :=
            if String.eqb (ttype e) "Foot"
            then (dicts st ++ [rewritten (dep_time sp) e])%list else dicts st;
          graphs := graphs st |}).
  { destruct (bool_decide _); by apply mret_Ok in H as [_ ->]. }
  assert (Hs' : Routing.distances s' = <[edge.1.2 := new]> (Routing.distances s)
                /\ Routing.prev s' = <[edge.1.2 := curr]> (Routing.prev s)).
  { destruct (bool_decide _); by apply mret_Ok in H as [-> _]. }
  destruct Hs' as [Hd' Hp'].
  assert (Hnew : dicts st' !! TimeDistance.prev_props new
                 = Some (rewritten (dep_time sp) e)).
  { rewrite Hst'. simpl. unfold rewritten. rewrite Ht.
    destruct (String.eqb (ttype e) "Foot"); [|done].
    by apply list_lookup_middle. }
  assert (Hhop : hop_ok st' curr edge.1.2 new).
  { exists edge.2, e, (dep_time sp).
    split; [|split; [by eapply extends_lookup|by split]].
    pose proof (out_edges_src _ _ _ Hedge) as Hsrc.
    destruct edge as [[a b] c]. simpl in *. by subst. }
  destruct (path_ok_extends _ _ _ Hinv Hext) as (Hg' & Hv' & Hpp' & Hend').
  split; [done|]. rewrite Hd', Hp'. split; [|split].
  - intros v l. destruct (decide (edge.1.2 = v)) as [<-|Hne].
    + rewrite lookup_insert_eq. intros [= <-]. by eexists.
    + rewrite lookup_insert_ne by done. apply Hv'.
  - intros v u. destruct (decide (edge.1.2 = v)) as [<-|Hne].
    + rewrite !lookup_insert_eq. intros [= <-]. by exists new.
    + rewrite !lookup_insert_ne by done. apply Hpp'.
  - intros l. destruct (decide (edge.1.2 = end_)) as [<-|Hne].
    + rewrite lookup_insert_eq. by intros [= <-].
    + rewrite lookup_insert_ne by done. apply Hend'.
Qed.

Lemma relax_edges_path es : forall curr pp pdt cbdt thr s st s' st',
  Forall (fun x => x ∈ nx.out_edges gr curr) es ->
  path_ok st s ->
  Routing.relax_edges gamma_cdf es curr pp pdt cbdt thr s st = Ok (s', st') ->
  path_ok st' s'.
Proof.
  induction es as [|edge es IH]; intros curr pp pdt cbdt thr s st s' st'
    Hes Hinv H; simpl in H.
  - by apply mret_Ok in H as [-> ->].
  - apply M_bind_Ok in H as (s1 & st1 & H1 & H).
    apply Forall_cons in Hes as [He Hes].
    eapply IH; [exact Hes| |exact H]. eapply relax_path; eauto.
Qed.

Lemma visit_path start t thr curr s st s' st' :
  path_ok st s ->
  Routing.visit gamma_cdf G start t thr curr s st = Ok (s', st') ->
  path_ok st' s'.
Proof.
  intros Hinv H. unfold Routing.visit in H.
  apply M_bind_Ok in H as (dcurr & st1 & [_ ->]%lift_Ok & H).
  apply M_bind_Ok in H as (pdt & st2 & [_ ->]%read_Ok & H).
  apply M_bind_Ok in H as (dstart & st3 & [_ ->]%lift_Ok & H).
  apply M_bind_Ok in H as (gr' & st4 & [Hgr ->]%read_Ok & H).
  assert (gr' = gr) as ->.
  { destruct Hinv as [Hg _]. unfold get_graph in Hgr. rewrite Hg in Hgr.
    by injection Hgr. }
  eapply relax_edges_path; [|exact Hinv|exact H].
  by apply Forall_forall.
Qed.

Lemma search_loop_path fuel : forall start t thr s st s' st',
  path_ok st s ->
  Routing.search_loop gamma_cdf fuel G start t thr s st = Ok (s', st') ->
  path_ok st' s'.
Proof.
  induction fuel as [|fuel IH]; intros start t thr s st s' st' Hinv H;
    simpl in H;
    destruct (heappop Routing.entry_lt (Routing.queue s)) as [[entry q']|];
    try discriminate;
    try (by apply mret_Ok in H as [-> ->]).
  apply M_bind_Ok in H as (s1 & st1 & H1 & H).
  eapply IH; [|exact H].
  eapply visit_path; [|exact H1]. by eapply path_ok_tables.
Qed.

(** The route under construction, before [node] is appended. *)
Definition path_upto (st : State) (start : ID) (route : Route.t) (node : ID)
    : Prop :=
  length (Route.connections route) = length (Route.distances route)
  /\ (Route.connections route ++ [node])%list !! 0%nat = Some start
  /\ (forall i v u l,
        Route.connections route !! i = Some v ->
        (Route.connections route ++ [node])%list !! S i = Some u ->
        Route.distances route !! i = Some l -> hop_ok st u v l)
  /\ (forall i l, Route.distances route !! i = Some l ->
        TimeDistance.first l = false
        /\ is_Some (dicts st !! TimeDistance.prev_props l))
  /\ (forall i v, Route.connections route !! i = Some v -> v <> end_).

(** A finished route: a path from [start] to [end_], which it meets only
    at its last stop. *)
Definition route_path (st : State) (start : ID) (r : Route.t) : Prop :=
  length (Route.connections r) = length (Route.distances r)
  /\ Route.connections r !! 0%nat = Some start
  /\ last (Route.connections r) = Some end_
  /\ (forall i v u l,
        Route.connections r !! i = Some v ->
        Route.connections r !! S i = Some u ->
        Route.distances r !! i = Some l -> hop_ok st u v l)
  /\ (forall i l, Route.distances r !! i = Some l ->
        TimeDistance.first l = false
        /\ is_Some (dicts st !! TimeDistance.prev_props l))
  /\ (forall i v, Route.connections r !! i = Some v ->
        (S i < length (Route.connections r))%nat -> v <> end_).

Lemma build_loop_finish st s start route node dist :
  path_ok st s ->
  Routing.distances s !! node = Some dist ->
  path_upto st start route node ->
  node = end_ ->
  route_path st start (Route.append route node dist).
Proof.
  intros (Hg & Hv & Hp & Hend) Hnode (Hlen & Hstart & Hhops & Hlab & Hne) ->.
  unfold route_path. simpl.
  split; [rewrite !length_app; simpl; lia|].
  split; [done|]. split; [by rewrite last_snoc|].
  split; [|split].
  - intros i v u l Hi HSi Hl.
    assert (i < length (Route.connections route))%nat.
    { apply lookup_lt_Some in HSi. rewrite length_app in HSi. simpl in HSi.
      lia. }
    rewrite lookup_app_l in Hi by done.
    rewrite lookup_app_l in Hl by lia.
    by eapply Hhops.
  - intros i l Hl.
    apply lookup_snoc_Some in Hl as [[Hi Hl]|[-> <-]]; [by eapply Hlab|].
    split; [by apply Hend | by eapply Hv].
  - intros i v Hi Hlt. rewrite length_app in Hlt. simpl in Hlt.
    rewrite lookup_app_l in Hi by lia. by eapply Hne.
Qed.

Lemma build_loop_path st s start fuel : forall route node dist r,
  path_ok st s ->
  Routing.distances s !! node = Some dist ->
  path_upto st start route node ->
  Routing.build_loop fuel s end_ route node dist = Ok r ->
  route_path st start r.
Proof.
  induction fuel as [|fuel IH]; intros route node dist r Hinv Hnode Hacc H;
    simpl in H; destruct (String.eqb_spec node end_) as [Heq|Hneq];
    simpl in H; try discriminate.
  - injection H as <-. by eapply build_loop_finish.
  - injection H as <-. by eapply build_loop_finish.
  - destruct (getitem_dict (Routing.prev s) node) as [node'|] eqn:Hp;
      [|discriminate].
    simpl in H.
    destruct (getitem_dict (Routing.distances s) node') as [dist'|] eqn:Hd;
      [|discriminate].
    simpl in H. apply getitem_dict_Ok in Hp, Hd.
    eapply IH; [exact Hinv|exact Hd| |exact H].
    pose proof Hinv as (Hg & Hv & Hpr & Hend).
    destruct Hacc as (Hlen & Hstart & Hhops & Hlab & Hne).
    unfold path_upto. simpl.
    split; [rewrite !length_app; simpl; lia|].
    split; [|split; [|split]].
    + rewrite lookup_app_l; [done|]. rewrite length_app. simpl. lia.
    + intros i v u l Hi HSi Hl.
      apply lookup_snoc_Some in Hi as [[Hlt Hi]|[-> <-]].
      * rewrite lookup_app_l in HSi by (rewrite length_app; simpl; lia).
        rewrite lookup_app_l in Hl by lia.
        by eapply Hhops.
      * rewrite Hlen in Hl. rewrite list_lookup_middle in Hl by done.
        injection Hl as <-.
        rewrite lookup_app_r in HSi by (rewrite length_app; simpl; lia).
        rewrite length_app in HSi. simpl in HSi.
        replace (S (length (Route.connections route))
                 - (length (Route.connections route) + 1))%nat
          with 0%nat in HSi by lia.
        injection HSi as <-.
        destruct (Hpr _ _ Hp) as (l & Hl & Hh). by simplify_eq.
    + intros i l Hl.
      apply lookup_snoc_Some in Hl as [[Hi Hl]|[-> <-]]; [by eapply Hlab|].
      destruct (Hpr _ _ Hp) as (l & Hl & (? & ? & ? & _ & _ & _ & Hf)).
      simplify_eq. split; [done | by eapply Hv].
    + intros i v Hi.
      apply lookup_snoc_Some in Hi as [[Hlt Hi]|[-> <-]];
        [by eapply Hne | done].
Qed.

Lemma init_distances_valid vs : forall t d st d' st',
  (forall v l, d !! v = Some l ->
     is_Some (dicts st !! TimeDistance.prev_props l)) ->
  Routing.init_distances vs t d st = Ok (d', st') ->
  forall v l, d' !! v = Some l ->
    is_Some (dicts st' !! TimeDistance.prev_props l).
Proof.
  induction vs as [|v vs IH]; intros t d st d' st' Hinv H; simpl in H.
  - by apply mret_Ok in H as [-> ->].
  - apply M_bind_Ok in H as (l & st1 & Hl & H).
    eapply IH; [|exact H].
    unfold TimeDistance.__init__ in Hl.
    apply M_bind_Ok in Hl as (l0 & st2 & Hl0 & Hl).
    apply mret_Ok in Hl as [-> ->].
    unfold alloc in Hl0. injection Hl0 as <- <-.
    intros v' l'. destruct (decide (v = v')) as [<-|Hne].
    + rewrite lookup_insert_eq. intros [= <-]. simpl.
      eexists. by apply list_lookup_middle.
    + rewrite lookup_insert_ne by done. intros Hl'.
      destruct (Hinv _ _ Hl') as [p Hp]. exists p. simpl.
      by apply lookup_app_l_Some.
Qed.

End SearchPath.

(** The stop that a [start] or [end] argument of the search stands for. *)
Definition resolves (self : Routing.t) (names_format : bool) (name : string)
    (stop : ID) : Prop :=
  if names_format then Routing.stop_name_to_id self !! name = Some stop
  else stop = name.

Lemma resolve_Ok self (nf : bool) name st stop st1 :
  (if nf then lift (getitem_dict (Routing.stop_name_to_id self) name)
   else mret name) st = Ok (stop, st1) ->
  resolves self nf name stop /\ st1 = st.
Proof.
  unfold resolves. destruct nf.
  - by intros [?%getitem_dict_Ok ->]%lift_Ok.
  - by intros [-> ->]%mret_Ok.
Qed.

Lemma stochastic_dijkstra_path gamma_cdf gr fuel self start end_ t thr nf st
    r st' :
  graphs st !! Routing.G self = Some gr ->
  Routing.stochastic_dijkstra gamma_cdf fuel self start end_ t thr nf st
  = Ok (Some r, st') ->
  exists start' end',
    resolves self nf start start' /\ resolves self nf end_ end'
    /\ route_path gr end' st' start' r.
Proof.
  intros Hgr H. unfold Routing.stochastic_dijkstra in H.
  apply M_bind_Ok in H as (start' & st1 & [Hs ->]%resolve_Ok & H).
  apply M_bind_Ok in H as (end' & st2 & [He ->]%resolve_Ok & H).
  exists start', end'. split; [done|]. split; [done|].
  apply M_bind_Ok in H as (gr' & st3 & [_ ->]%read_Ok & H).
  apply M_bind_Ok in H as (d & st4 & Hinit & H).
  pose proof (init_distances_frame _ _ _ _ _ _ Hinit) as Hext.
  pose proof (init_distances_valid _ _ _ _ _ _
                ltac:(by intros v l; rewrite lookup_empty) Hinit) as Hvalid.
  apply M_bind_Ok in H as (dend & st5 & [Hend%getitem_dict_Ok ->]%lift_Ok & H).
  apply M_bind_Ok in H as (dend' & st6 & [_ ->]%lift_Ok & H).
  apply M_bind_Ok in H as (s & st7 & Hloop & H).
  apply lift_Ok in H as [H ->].
  apply (search_loop_path gamma_cdf gr (Routing.G self) end') in Hloop.
  - unfold Routing.build_route in H.
    destruct (Routing.prev s !! start') as [x|]; [|discriminate].
    destruct (getitem_dict (Routing.distances s) start') as [dist|] eqn:Hd;
      [|discriminate].
    simpl in H.
    destruct (Routing.build_loop fuel s end' (Route.__init__ (Routing.G self))
                start' dist) as [r'|] eqn:Hb; [|discriminate].
    simpl in H. injection H as <-.
    refine (build_loop_path gr (Routing.G self) end' _ _ start' _ _ _ _ _
              Hloop _ _ Hb).
    + by apply getitem_dict_Ok.
    + unfold path_upto. simpl. repeat split; try done;
        intros i; by rewrite ?lookup_nil.
  - split; [|split; [|split]]; simpl.
    + destruct Hext as [_ ->]. done.
    + intros v l. destruct (decide (end' = v)) as [<-|Hne].
      * rewrite lookup_insert_eq. intros [= <-]. simpl. by eapply Hvalid.
      * rewrite lookup_insert_ne by done. apply Hvalid.
    + intros v u. by rewrite lookup_empty.
    + intros l. rewrite lookup_insert_eq. by intros [= <-].
Qed.

(** X7. A route returned by the search is a path of the graph: it has as many
    labels as stops, starts at [start] and ends at [end], which it does not
    meet before; and for every two consecutive stops [v], [u] the graph has
    an edge from [u] to [v] such that the label of [v] points to the
    dictionary of that edge (to a copy with rewritten times for a walk).
    Every label of the route is an assigned one. *)
Theorem route_is_path (gamma_cdf : GammaParams -> Z -> Q) (gr : Graph)
    (fuel : nat) (self : Routing.t) (start end_ : string) (t : Z) (thr : Q)
    (nf : bool) (st : State) (r : Route.t) (st' : State) :
  graphs st !! Routing.G self = Some gr ->
  Routing.stochastic_dijkstra gamma_cdf fuel self start end_ t thr nf st
  = Ok (Some r, st') ->
  exists start' end',
    resolves self nf start start' /\ resolves self nf end_ end'
    /\ length (Route.connections r) = length (Route.distances r)
    /\ Route.connections r !! 0%nat = Some start'
    /\ last (Route.connections r) = Some end'
    /\ (forall i v, Route.connections r !! i = Some v ->
          (S i < length (Route.connections r))%nat -> v <> end')
    /\ (forall i l, Route.distances r !! i = Some l ->
          TimeDistance.first l = false)
    /\ forall i v u l,
         Route.connections r !! i = Some v ->
         Route.connections r !! S i = Some u ->
         Route.distances r !! i = Some l ->
         exists eloc e d,
           (u, v, eloc) ∈ nx.out_edges gr u
           /\ dicts st' !! eloc = Some e
           /\ dicts st' !! TimeDistance.prev_props l
              = Some (rewritten d e).
Proof.
  intros Hgr H.
  destruct (stochastic_dijkstra_path _ _ _ _ _ _ _ _ _ _ _ _ Hgr H)
    as (start' & end' & Hs & He & Hlen & H0 & Hlast & Hhops & Hlab & Hne).
  exists start', end'. repeat (split; [done|]).
  split; [intros i l Hl; by apply (Hlab i l)|].
  intros i v u l Hv Hu Hl.
  destruct (Hhops i v u l Hv Hu Hl) as (eloc & e & d & ? & ? & ? & _).
  by exists eloc, e, d.
Qed.

Lemma route_is_path_witness :
  exists r st',
    Routing.stochastic_dijkstra Sample.cdf 10 Sample.planner "A" "C" 30400
      (1 # 2)%Q true Sample.store = Ok (Some r, st')
    /\ Route.connections r !! 0%nat = Some "A"
    /\ last (Route.connections r) = Some "C".
Proof.
  destruct (Routing.stochastic_dijkstra Sample.cdf 10 Sample.planner "A" "C"
              30400 (1 # 2)%Q true Sample.store) as [[[r|] st']|] eqn:H;
    try (vm_compute in H; discriminate).
  destruct (route_is_path Sample.cdf Sample.graph 10 Sample.planner "A" "C"
              30400 (1 # 2)%Q true Sample.store r st' eq_refl H)
    as (start' & end' & Hs & He & _ & H0 & Hlast & _).
  exists r, st'. split; [done|].
  unfold resolves in Hs, He. vm_compute in Hs, He.
  injection Hs as <-. injection He as <-. by split.
Defined.

(** ** routing.py: finding the edge to remove *)

(** The adjacency of a graph is a dictionary of dictionaries: no node and
    no successor of a node is listed twice. *)
Definition graph_wf (gr : Graph) : Prop :=
  NoDup gr.*1 /\ forall u nbrs, (u, nbrs) ∈ gr -> NoDup nbrs.*1.

Lemma alist_get_NoDup {V} (d : list (string * V)) k v :
  NoDup d.*1 -> (k, v) ∈ d -> alist_get String.eqb d k = Some v.
Proof.
  induction d as [|[k' v'] d IH]; simpl; intros Hnd Hin.
  - by apply elem_of_nil in Hin.
  - apply NoDup_cons in Hnd as [Hk Hnd].
    apply elem_of_cons in Hin as [[= <- <-]|Hin].
    + by rewrite String.eqb_refl.
    + destruct (String.eqb_spec k' k) as [->|Hne]; [|by apply IH].
      exfalso. apply Hk. apply list_elem_of_fmap. by exists (k, v).
Qed.

Lemma alist_get_Z_is_Some {V} (d : list (Z * V)) k v :
  (k, v) ∈ d -> is_Some (alist_get Z.eqb d k).
Proof.
  induction d as [|[k' v'] d IH]; simpl; intros Hin.
  - by apply elem_of_nil in Hin.
  - destruct (Z.eqb_spec k' k) as [->|Hne]; [by eexists|].
    apply elem_of_cons in Hin as [[= <- <-]|Hin]; [done | by apply IH].
Qed.

Lemma out_edges_getitem gr u v l :
  graph_wf gr -> (u, v, l) ∈ nx.out_edges gr u ->
  exists nbrs kd k,
    alist_get String.eqb gr u = Some nbrs
    /\ alist_get String.eqb nbrs v = Some kd
    /\ (k, l) ∈ kd
    /\ forall k' l', (k', l') ∈ kd -> l' ∈ edge_locs gr.
Proof.
  intros [Hnd Hnd'] Hin. unfold nx.out_edges in Hin.
  destruct (alist_get String.eqb gr u) as [nbrs|] eqn:Hu;
    [|by apply elem_of_nil in Hin].
  pose proof (alist_get_In _ _ _ Hu) as Hu'.
  rewrite list_elem_of_In, in_flat_map in Hin.
  destruct Hin as ([v' kd] & Hv & Hx). simpl in Hx.
  apply in_map_iff in Hx as ([k l'] & [= <- <-] & Hkl). simpl in *.
  exists nbrs, kd, k. split; [done|].
  split; [apply alist_get_NoDup; [by eapply Hnd' | by apply list_elem_of_In]|].
  split; [by apply list_elem_of_In|].
  intros k' l'' Hk'. unfold edge_locs.
  apply list_elem_of_In, in_flat_map. exists (u, nbrs).
  split; [by apply list_elem_of_In|]. simpl.
  apply in_flat_map. exists (v', kd). split; [done|]. simpl.
  apply list_elem_of_In, list_elem_of_fmap. by exists (k', l'').
Qed.

Lemma isSameEdge_rewritten d e : Routing.isSameEdge e (rewritten d e) = true.
Proof.
  unfold Routing.isSameEdge, rewritten.
  destruct (travel_time e) as [t|].
  - destruct (String.eqb (ttype e) "Foot") eqn:Hf; simpl.
    + rewrite Hf. by rewrite orb_true_r.
    + by rewrite !Z.eqb_refl, (proj2 (trip_eqb_eq _ _) eq_refl).
  - by rewrite !Z.eqb_refl, (proj2 (trip_eqb_eq _ _) eq_refl).
Qed.

(** [find_loop] returns the key of the first edge that matches, and [None]
    only if none does. *)
Lemma find_loop_first st kd p : forall r,
  Routing.find_loop st kd p = Ok r ->
  match r with
  | Some key =>
      exists before l e after,
        kd = (before ++ (key, l) :: after)%list
        /\ dicts st !! l = Some e /\ Routing.isSameEdge e p = true
        /\ Forall (fun kl => exists e', dicts st !! kl.2 = Some e'
                     /\ Routing.isSameEdge e' p = false) before
  | None =>
      Forall (fun kl => exists e', dicts st !! kl.2 = Some e'
                /\ Routing.isSameEdge e' p = false) kd
  end.
Proof.
  induction kd as [|[k l] kd IH]; intros r H; simpl in H.
  - injection H as <-. constructor.
  - unfold deref in H. destruct (dicts st !! l) as [e|] eqn:He;
      [|discriminate].
    simpl in H. destruct (Routing.isSameEdge e p) eqn:Hsame.
    + injection H as <-. exists [], l, e, kd. by repeat split.
    + specialize (IH r H). destruct r as [key|].
      * destruct IH as (before & l' & e' & after & -> & He' & Hs' & Hb).
        exists ((k, l) :: before), l', e', after.
        repeat split; try done. constructor; [by exists e | done].
      * constructor; [by exists e | done].
Qed.

Lemma find_loop_total st kd p :
  Forall (fun kl => is_Some (dicts st !! kl.2)) kd ->
  exists r, Routing.find_loop st kd p = Ok r.
Proof.
  induction kd as [|[k l] kd IH]; intros Hall; simpl; [by eexists|].
  apply Forall_cons in Hall as [[e He] Hall]. simpl in He.
  unfold deref. rewrite He. simpl.
  destruct (Routing.isSameEdge e p); [by eexists | by apply IH].
Qed.

(** The edge triple that [success_proba] returns comes from a pair of
    consecutive stops. *)
Lemma success_loop_edge gamma_cdf st cs ds pairs :
  forall i proba least edge p' u v l,
  pairs = drop i (zip cs (tail cs)) ->
  (forall u v l, edge = Some (u, v, l) ->
     exists k d, cs !! k = Some v /\ cs !! S k = Some u /\ ds !! k = Some d
       /\ l = TimeDistance.prev_props d) ->
  Route.success_loop gamma_cdf st ds pairs i proba least edge
  = Ok (p', Some (u, v, l)) ->
  exists k d, cs !! k = Some v /\ cs !! S k = Some u /\ ds !! k = Some d
    /\ l = TimeDistance.prev_props d.
Proof.
  induction pairs as [|[dep_stop arr_stop] pairs IH];
    intros i proba least edge p' u v l Hpairs Hinv H; simpl in H.
  - injection H as _ ->. by apply Hinv.
  - assert (Hi : zip cs (tail cs) !! i = Some (dep_stop, arr_stop)).
    { rewrite <- (Nat.add_0_r i), <- lookup_drop, <- Hpairs. done. }
    assert (Hrest : pairs = drop (S i) (zip cs (tail cs))).
    { rewrite (drop_S _ _ _ Hi) in Hpairs. by injection Hpairs. }
    apply lookup_zip_with_Some in Hi as (v0 & u0 & [= -> ->] & Hv & Hu).
    rewrite lookup_tail in Hu.
    unfold getitem_list in H.
    destruct (ds !! i) as [d|] eqn:Hd; [|discriminate]. simpl in H.
    destruct (deref st (TimeDistance.prev_props d)); [|discriminate].
    simpl in H.
    destruct (ds !! S i) as [d'|]; [|discriminate]. simpl in H.
    destruct (deref st (TimeDistance.prev_props d')); [|discriminate].
    simpl in H.
    destruct (Delay.connection_probability gamma_cdf _ _) as [q|];
      [|discriminate].
    simpl in H.
    destruct (Qle_bool q least).
    + eapply IH; [exact Hrest| |exact H].
      intros u1 v1 l1 [= <- <- <-]. by exists i, d.
    + eapply IH; [exact Hrest|exact Hinv|exact H].
Qed.

(** X8. After a search on a well-formed graph has returned a route,
    [find_edge_key], asked for the weakest edge of that route in that
    graph, finds a key: there are parallel edges between the two stops,
    the edge at the key matches the weakest edge, and no edge before it
    does. [remove_edge] then succeeds with that key; the planner never
    calls it with [None] for a route found in the graph it removes from. *)
Theorem weakest_edge_found (gamma_cdf : GammaParams -> Z -> Q) (gr : Graph)
    (fuel : nat) (self : Routing.t) (start end_ : string) (t : Z) (thr : Q)
    (nf : bool) (st : State) (r : Route.t) (st' : State) (p : Q) (u v : ID)
    (props : loc) :
  graphs st !! Routing.G self = Some gr ->
  graph_wf gr ->
  (forall l, l ∈ edge_locs gr -> is_Some (dicts st !! l)) ->
  Routing.stochastic_dijkstra gamma_cdf fuel self start end_ t thr nf st
  = Ok (Some r, st') ->
  Route.success_proba gamma_cdf st' r = Ok (p, (u, v, props)) ->
  exists key kd before l after e pp st'',
    Routing.find_edge_key st' (Routing.G self) u v props = Ok (Some key)
    /\ nx.getitem_uv gr u v = Ok kd
    /\ kd = (before ++ (key, l) :: after)%list
    /\ dicts st' !! l = Some e
    /\ dicts st' !! props = Some pp
    /\ Routing.isSameEdge e pp = true
    /\ Forall (fun kl => exists e', dicts st' !! kl.2 = Some e'
                 /\ Routing.isSameEdge e' pp = false) before
    /\ nx.remove_edge (Routing.G self) u v (Some key) st' = Ok (tt, st'').
Proof.
  intros Hgr Hwf Hvalid Hs Hp.
  pose proof (stochastic_dijkstra_frame _ _ _ _ _ _ _ _ _ _ _ Hs) as Hext.
  destruct (stochastic_dijkstra_path _ _ _ _ _ _ _ _ _ _ _ _ Hgr Hs)
    as (start' & end' & _ & _ & Hlen & _ & _ & Hhops & _ & _).
  unfold Route.success_proba in Hp.
  destruct (Route.assert_not_empty r); [|discriminate]. simpl in Hp.
  destruct (Route.success_loop _ _ _ _ _ _ _ _) as [[p' edge']|] eqn:Hloop;
    [|discriminate].
  simpl in Hp. destruct edge' as [[[u' v'] l']|]; [|discriminate].
  injection Hp as -> -> -> ->.
  destruct (success_loop_edge _ _ (Route.connections r) _ _ 0%nat _ _ None
              _ _ _ _ ltac:(by rewrite drop_0) ltac:(done) Hloop)
    as (k & d & Hv & Hu & Hd & ->).
  destruct (Hhops k v u d Hv Hu Hd) as (eloc & e0 & d0 & Hin & He0 & Hpp & _).
  destruct (out_edges_getitem _ _ _ _ Hwf Hin)
    as (nbrs & kd & k0 & Hgu & Hgv & Hk0 & Hlocs).
  assert (Hgraph : graphs st' !! Routing.G self = Some gr).
  { destruct Hext as [_ ->]. done. }
  assert (Hall : Forall (fun kl => is_Some (dicts st' !! kl.2)) kd).
  { apply Forall_forall. intros [k' l'] Hkl. simpl.
    destruct (Hvalid l' (Hlocs _ _ Hkl)) as [e' He'].
    exists e'. by eapply extends_lookup. }
  destruct (find_loop_total st' kd (rewritten d0 e0) Hall) as [res Hres].
  pose proof (find_loop_first _ _ _ _ Hres) as Hfirst.
  destruct res as [key|].
  - destruct Hfirst as (before & l & e & after & Hkd & He & Hsame & Hbefore).
    assert (Hkey : is_Some (alist_get Z.eqb kd key)).
    { apply (alist_get_Z_is_Some _ _ l). rewrite Hkd.
      apply elem_of_app. right. by left. }
    destruct Hkey as [lk Hlk].
    eexists key, kd, before, l, after, e, (rewritten d0 e0), _.
    split.
    { unfold Routing.find_edge_key, get_graph, nx.getitem_uv, deref.
      rewrite Hgraph. simpl. rewrite Hgu, Hgv. simpl. rewrite Hpp. simpl.
      exact Hres. }
    split; [unfold nx.getitem_uv; by rewrite Hgu, Hgv|].
    do 5 (split; [done|]).
    unfold nx.remove_edge, nx.remove_edge_in. rewrite Hgraph, Hgu, Hgv, Hlk.
    simpl. reflexivity.
  - exfalso. apply Forall_forall with (x := (k0, eloc)) in Hfirst; [|done].
    destruct Hfirst as (e' & He' & Hneq). simpl in He'.
    rewrite He0 in He'. injection He' as <-.
    by rewrite isSameEdge_rewritten in Hneq.
Qed.

Lemma sample_graph_wf : graph_wf Sample.graph.
Proof.
  split.
  - apply (bool_decide_unpack _). by vm_compute.
  - intros u nbrs Hin. unfold Sample.graph in Hin.
    repeat (apply elem_of_cons in Hin as [[= -> ->]|Hin];
            [apply (bool_decide_unpack _); by vm_compute|]).
    by apply elem_of_nil in Hin.
Qed.

Lemma sample_graph_valid l :
  l ∈ edge_locs Sample.graph -> is_Some (dicts Sample.store !! l).
Proof.
  simpl. intros Hl.
  repeat (apply elem_of_cons in Hl as [->|Hl]; [by eexists|]).
  by apply elem_of_nil in Hl.
Qed.

Lemma weakest_edge_found_witness :
  exists r st' key,
    Routing.stochastic_dijkstra Sample.cdf 10 Sample.planner "A" "C" 30330
      (1 # 2)%Q true Sample.store = Ok (Some r, st')
    /\ Route.success_proba Sample.cdf st' r
       = Ok ((1 # 4)%Q, ("C", "B", 1%nat))
    /\ Routing.find_edge_key st' (Routing.G Sample.planner) "C" "B" 1%nat
       = Ok (Some key).
Proof.
  destruct (Routing.stochastic_dijkstra Sample.cdf 10 Sample.planner "A" "C"
              30330 (1 # 2)%Q true Sample.store) as [[[r|] st']|] eqn:H;
    try (vm_compute in H; discriminate).
  assert (Hp : Route.success_proba Sample.cdf st' r
               = Ok ((1 # 4)%Q, ("C", "B", 1%nat))).
  { pose proof H as H'. vm_compute in H'. injection H' as <- <-.
    reflexivity. }
  destruct (weakest_edge_found Sample.cdf Sample.graph 10 Sample.planner
              "A" "C" 30330 (1 # 2)%Q true Sample.store r st' (1 # 4)%Q
              "C" "B" 1%nat eq_refl sample_graph_wf sample_graph_valid H Hp)
    as (key & kd & before & l & after & e & pp & st'' & Hfind & _).
  by exists r, st', key.
Defined.

(** ** routing.py: what the robust planner returns *)

Section RobustResult.
Variable gamma_cdf : GammaParams -> Z -> Q.













End RobustResult.


(** ** routing.py: stops that are not known *)

Lemma init_distances_total vs : forall t d st,
  exists d' st',
    Routing.init_distances vs t d st = Ok (d', st')
    /\ forall v, is_Some (d' !! v) <-> is_Some (d !! v) \/ v ∈ vs.
Proof.
  induction vs as [|v0 vs IH]; intros t d st; simpl.
  - exists d, st. split; [done|]. intros v. split; [by left|].
    intros [?|?%elem_of_nil]; done.
  - unfold mbind at 1, M_bind, TimeDistance.__init__, alloc. simpl.
    destruct (IH t (<[v0 := TimeDistance.mk true 0 (length (dicts st))]> d)
                (mkState (dicts st ++ [TimeDistance.INIT_PROPS t]) (graphs st)))
      as (d' & st' & Hd' & Hdom).
    exists d', st'. split; [exact Hd'|].
    intros v. rewrite Hdom, lookup_insert_is_Some, elem_of_cons.
    destruct (decide (v0 = v)) as [->|Hne]; [by split; auto|].
    split.
    + intros [[?|[_ ?]]|?]; [done | by left | by right; right].
    + intros [?|[?|?]]; [by left; right | done | by right].
Qed.

Lemma getitem_dict_None {A} (d : gmap string A) k :
  d !! k = None -> getitem_dict d k = Raise (KeyError k).
Proof. unfold getitem_dict. by intros ->. Qed.

Lemma visit_start_missing gamma_cdf G start t thr curr s st dcurr p :
  Routing.distances s !! curr = Some dcurr ->
  dicts st !! TimeDistance.prev_props dcurr = Some p ->
  Routing.distances s !! start = None ->
  Routing.visit gamma_cdf G start t thr curr s st = Raise (KeyError start).
Proof.
  intros Hc%getitem_dict_Ok Hp Hs%getitem_dict_None.
  unfold Routing.visit, mbind, M_bind, lift, read.
  rewrite Hc. cbn beta iota.
  unfold TimeDistance.previous_dep_time, deref, mbind, res_mbind, res_bind.
  rewrite Hp. cbn beta iota. by rewrite Hs.
Qed.

(** X10. The search fails with a [KeyError] on a name that the index does not
    have, on an [end] that is not a node of the graph, and, as soon as the
    first node is popped, on a [start] that is not a node of the graph: it
    does not answer [None] in these cases. *)
Theorem unknown_stop_raises (gamma_cdf : GammaParams -> Z -> Q) (fuel : nat)
    (self : Routing.t) (start end_ : string) (t : Z) (thr : Q) (st : State) :
  (Routing.stop_name_to_id self !! start = None ->
   Routing.stochastic_dijkstra gamma_cdf fuel self start end_ t thr true st
   = Raise (KeyError start))
  /\ (is_Some (Routing.stop_name_to_id self !! start) ->
      Routing.stop_name_to_id self !! end_ = None ->
      Routing.stochastic_dijkstra gamma_cdf fuel self start end_ t thr true st
      = Raise (KeyError end_))
  /\ (forall gr,
        graphs st !! Routing.G self = Some gr ->
        end_ ∉ nx.nodes gr ->
        Routing.stochastic_dijkstra gamma_cdf fuel self start end_ t thr false
          st = Raise (KeyError end_))
  /\ (forall gr,
        graphs st !! Routing.G self = Some gr ->
        end_ ∈ nx.nodes gr ->
        start ∉ nx.nodes gr ->
        Routing.stochastic_dijkstra gamma_cdf (S fuel) self start end_ t thr
          false st = Raise (KeyError start)).
Proof.
  split; [|split; [|split]].
  - intros Hs%getitem_dict_None.
    unfold Routing.stochastic_dijkstra, mbind, M_bind, lift, read.
    by rewrite Hs.
  - intros [s Hs%getitem_dict_Ok] He%getitem_dict_None.
    unfold Routing.stochastic_dijkstra, mbind, M_bind, lift, read.
    by rewrite Hs, He.
  - intros gr Hgr Hend.
    destruct (init_distances_total (nx.nodes gr) t ∅ st)
      as (d & st1 & Hinit & Hdom).
    assert (Hnone : getitem_dict d end_ = Raise (KeyError end_)).
    { apply getitem_dict_None, eq_None_not_Some. rewrite Hdom, lookup_empty.
      intros [[? [=]]|?]; done. }
    unfold Routing.stochastic_dijkstra, mbind, M_bind, mret, M_ret, lift,
      read, get_graph.
    by rewrite Hgr, Hinit, Hnone.
  - intros gr Hgr Hend Hstart.
    destruct (init_distances_total (nx.nodes gr) t ∅ st)
      as (d & st1 & Hinit & Hdom).
    assert (Hsome : is_Some (d !! end_)) by (apply Hdom; by right).
    destruct Hsome as [dend Hdend].
    assert (Hne : end_ <> start) by (by intros ->).
    destruct (init_distances_valid _ _ _ _ _ _
                ltac:(by intros v l; rewrite lookup_empty) Hinit _ _ Hdend)
      as [p Hp].
    assert (H1 : getitem_dict d end_ = Ok dend) by by apply getitem_dict_Ok.
    assert (Hnone : d !! start = None).
    { apply eq_None_not_Some. rewrite Hdom, lookup_empty.
      intros [[? [=]]|?]; done. }
    unfold Routing.stochastic_dijkstra, mbind, M_bind, mret, M_ret, lift,
      read, get_graph.
    rewrite Hgr, Hinit, H1. cbn beta iota.
    match goal with
    | |- context [getitem_dict ?m end_] =>
        replace (getitem_dict m end_) with (Ok (TimeDistance.updated dend))
          by (symmetry; apply getitem_dict_Ok, lookup_insert_eq)
    end.
    cbn beta iota.
    match goal with
    | |- context [Routing.search_loop _ _ _ _ _ _ ?s0 ?st0] =>
        rewrite (search_loop_first gamma_cdf fuel (Routing.G self) start t
                   thr s0 st0 (TimeDistance.updated dend, end_) [] eq_refl)
    end.
    match goal with
    | |- context [Routing.visit _ _ _ _ _ ?cu ?s0 ?st0] =>
        rewrite (visit_start_missing gamma_cdf (Routing.G self) start t thr
                   cu s0 st0 (TimeDistance.updated dend) p)
    end; [done | apply lookup_insert_eq | exact Hp |].
    cbn [Routing.distances]. by rewrite lookup_insert_ne by done.
Qed.

Lemma unknown_stop_raises_witness :
  Routing.stochastic_dijkstra Sample.cdf 9 Sample.planner "Z" "C" 30400
    (1 # 2)%Q true Sample.store = Raise (KeyError "Z")
  /\ Routing.stochastic_dijkstra Sample.cdf 10 Sample.planner "Z" "C" 30400
       (1 # 2)%Q false Sample.store = Raise (KeyError "Z").
Proof.
  destruct (unknown_stop_raises Sample.cdf 9 Sample.planner "Z" "C" 30400
              (1 # 2)%Q Sample.store) as (H1 & _ & _ & H4).
  split; [apply H1; vm_compute; reflexivity|].
  change 10%nat with (S 9).
  apply (H4 Sample.graph); [reflexivity| |].
  - apply list_elem_of_In. simpl. tauto.
  - intros Hin%list_elem_of_In. simpl in Hin.
    destruct Hin as [?|[?|[?|[]]]]; discriminate.
Defined.

(** ** routing.py: the destination is never relaxed *)

(** A travel time that is not negative. *)
Definition nonneg_edge (e : EdgeProps) : Prop :=
  forall t, travel_time e = Some t -> 0 <= t.

Lemma time_filter_wait gamma_cdf sp cbdt thr e :
  Routing.time_filter gamma_cdf sp (dep_time sp) cbdt thr e = Ok true ->
  ttype e = "Foot" \/ arr_time e <= dep_time sp.
Proof.
  unfold Routing.time_filter. intros Hf.
  destruct (String.eqb_spec (ttype e) "Foot") as [Hfoot|Hfoot]; [by left|].
  simpl in Hf.
  destruct (dep_time sp >=? arr_time e) eqn:H1; [|simpl in Hf; discriminate].
  right. by apply Z.geb_le.
Qed.

Lemma lt_true_inv (a b : TimeDistance.t) :
  TimeDistance.__lt__ a b = true ->
  TimeDistance.first a = false
  /\ (TimeDistance.first b = true
      \/ TimeDistance.cum_time a < TimeDistance.cum_time b).
Proof.
  unfold TimeDistance.__lt__, TimeDistance.__call__.
  destruct (TimeDistance.first a), (TimeDistance.first b); simpl;
    try discriminate; [by auto|].
  intros H%Z.ltb_lt. auto.
Qed.

Section NonNegative.
Variable gamma_cdf : GammaParams -> Z -> Q.
Variable G : gref.
Variable end_ : ID.

(** No label has a negative [cum_time], and the label of the destination
    is the one the search started with. *)
Definition costs_ok (st : State) (s : Routing.tables) : Prop :=
  (forall v l, Routing.distances s !! v = Some l ->
     0 <= TimeDistance.cum_time l
     /\ is_Some (dicts st !! TimeDistance.prev_props l))
  /\ Routing.prev s !! end_ = None
  /\ (forall l, Routing.distances s !! end_ = Some l ->
        TimeDistance.first l = false /\ TimeDistance.cum_time l = 0).

Lemma costs_ok_extends st st' s :
  costs_ok st s -> extends st st' -> costs_ok st' s.
Proof.
  intros (Hc & Hp & He) Hext. split; [|done].
  intros v l Hl. destruct (Hc v l Hl) as [H0 [p Hp']].
  split; [done|]. exists p. by eapply extends_lookup.
Qed.

Lemma relax_costs curr dcurr sp cbdt thr edge s st s' st' e :
  dicts st !! edge.2 = Some e -> nonneg_edge e ->
  Routing.distances s !! curr = Some dcurr ->
  dicts st !! TimeDistance.prev_props dcurr = Some sp ->
  costs_ok st s ->
  Routing.relax gamma_cdf curr (TimeDistance.prev_props dcurr) (dep_time sp)
    cbdt thr edge s st = Ok (s', st') ->
  costs_ok st' s' /\ Routing.distances s' !! curr = Some dcurr.
Proof.
  intros He Hnn Hcurr Hsp Hinv H.
  pose proof (relax_frame _ _ _ _ _ _ _ _ _ _ _ H) as Hext.
  unfold Routing.relax in H.
  apply M_bind_Ok in H as (p1 & st1 & [Hp1%deref_Ok ->]%read_Ok & H).
  apply M_bind_Ok in H as (p2 & st2 & [Hp2%deref_Ok ->]%read_Ok & H).
  assert (p1 = sp) as -> by congruence.
  assert (p2 = e) as -> by congruence.
  apply M_bind_Ok in H as (ok & st3 & [Hok ->]%lift_Ok & H).
  destruct ok;
    [|apply mret_Ok in H as [-> ->]; split; [by eapply costs_ok_extends|done]].
  apply M_bind_Ok in H as (dcurr' & st4 & [Hcurr'%getitem_dict_Ok ->]%lift_Ok & H).
  assert (dcurr' = dcurr) as ->
    by (by injection (eq_trans (eq_sym Hcurr') Hcurr)).
  apply M_bind_Ok in H as (new_dist & st5 & Hadd & H).
  apply M_bind_Ok in H as (dn & st6 & [Hdn%getitem_dict_Ok ->]%lift_Ok & H).
  destruct (TimeDistance.__lt__ new_dist dn) eqn:Hlt;
    [|apply mret_Ok in H as [-> ->]; split; [by eapply costs_ok_extends|done]].
  destruct (travel_time e) as [t|] eqn:Ht;
    [|by rewrite (add_without_travel_time _ _ _ _ _ He Hsp Ht) in Hadd].
  rewrite (add_Ok _ _ _ _ _ _ He Hsp Ht) in Hadd.
  injection Hadd as <- <-.
  pose proof Hinv as (Hc & Hpe & Hend).
  destruct (Hc _ _ Hcurr) as [Hc0 _].
  apply lt_true_inv in Hlt as [Hfirst Hless]. simpl in Hfirst, Hless.
  assert (Hge : TimeDistance.cum_time dcurr
                <= TimeDistance.cum_time dcurr + dep_time sp
                   - arr_time (rewritten (dep_time sp) e) + t).
  { pose proof (Hnn t Ht). unfold rewritten. rewrite Ht.
    destruct (String.eqb_spec (ttype e) "Foot") as [Hf|Hf]; simpl; [lia|].
    destruct (time_filter_wait _ _ _ _ _ Hok) as [?|?]; [done | lia]. }
  assert (Hne_end : edge.1.2 <> end_).
  { intros Heq. rewrite Heq in Hdn. destruct (Hend _ Hdn) as [Hf0 Hc00].
    destruct Hless as [?|?]; [congruence | lia]. }
  assert (Hne_curr : edge.1.2 <> curr).
  { intros Heq. rewrite Heq in Hdn.
    assert (dn = dcurr) as -> by (by injection (eq_trans (eq_sym Hdn) Hcurr)).
    destruct Hless as [?|?]; [congruence | lia]. }
  assert (Hst' : st' = {|
          dicts :=
            if String.eqb (ttype e) "Foot"
            then (dicts st ++ [rewritten (dep_time sp) e])%list else dicts st;
          graphs := graphs st |}).
  { destruct (bool_decide _); by apply mret_Ok in H as [_ ->]. }
  match type of H with
  | context [<[_ := ?l]> (Routing.distances s)] => set (new := l) in *
  end.
  assert (Hs' : Routing.distances s' = <[edge.1.2 := new]> (Routing.distances s)
                /\ Routing.prev s' = <[edge.1.2 := curr]> (Routing.prev s)).
  { destruct (bool_decide _); by apply mret_Ok in H as [-> _]. }
  destruct Hs' as [Hd' Hp'].
  destruct (costs_ok_extends _ _ _ Hinv Hext) as (Hc' & _ & _).
  unfold costs_ok. rewrite Hd', Hp'. split; [split; [|split]|].
  - intros v l. destruct (decide (edge.1.2 = v)) as [<-|Hne].
    + rewrite lookup_insert_eq. intros [= <-]. subst new. simpl.
      split; [lia|]. rewrite Hst'. simpl.
      destruct (String.eqb (ttype e) "Foot");
        [eexists; by apply list_lookup_middle | by eexists].
    + rewrite lookup_insert_ne by done. apply Hc'.
  - by rewrite lookup_insert_ne.
  - intros l. rewrite lookup_insert_ne by done. apply Hend.
  - by rewrite lookup_insert_ne.
Qed.

Lemma relax_edges_costs es : forall curr dcurr sp cbdt thr s st s' st',
  Forall (fun x => exists e, dicts st !! x.2 = Some e /\ nonneg_edge e) es ->
  Routing.distances s !! curr = Some dcurr ->
  dicts st !! TimeDistance.prev_props dcurr = Some sp ->
  costs_ok st s ->
  Routing.relax_edges gamma_cdf es curr (TimeDistance.prev_props dcurr)
    (dep_time sp) cbdt thr s st = Ok (s', st') ->
  costs_ok st' s'.
Proof.
  induction es as [|edge es IH];
    intros curr dcurr sp cbdt thr s st s' st' Hes Hcurr Hsp Hinv H;
    simpl in H.
  - by apply mret_Ok in H as [-> ->].
  - apply M_bind_Ok in H as (s1 & st1 & H1 & H).
    apply Forall_cons in Hes as [(e & He & Hnn) Hes].
    pose proof (relax_frame _ _ _ _ _ _ _ _ _ _ _ H1) as Hext.
    destruct (relax_costs _ _ _ _ _ _ _ _ _ _ _ He Hnn Hcurr Hsp Hinv H1)
      as [Hinv1 Hcurr1].
    eapply IH; [|exact Hcurr1| |exact Hinv1|exact H].
    + eapply Forall_impl; [exact Hes|]. intros x (e' & Hx & HG).
      exists e'. split; [by eapply extends_lookup | done].
    + by eapply extends_lookup.
Qed.

Lemma visit_costs start t thr curr s st s' st' :
  graph_ok nonneg_edge st G ->
  costs_ok st s ->
  Routing.visit gamma_cdf G start t thr curr s st = Ok (s', st') ->
  costs_ok st' s'.
Proof.
  intros Hg Hinv H. unfold Routing.visit in H.
  apply M_bind_Ok in H as (dcurr & st1 & [Hcurr%getitem_dict_Ok ->]%lift_Ok & H).
  apply M_bind_Ok in H as (pdt & st2 & [Hpdt ->]%read_Ok & H).
  unfold TimeDistance.previous_dep_time, deref in Hpdt.
  destruct (dicts st !! TimeDistance.prev_props dcurr) as [sp|] eqn:Hsp;
    [|discriminate].
  simpl in Hpdt. injection Hpdt as <-.
  apply M_bind_Ok in H as (dstart & st3 & [_ ->]%lift_Ok & H).
  apply M_bind_Ok in H as (gr & st4 & [Hgr ->]%read_Ok & H).
  eapply relax_edges_costs; [|exact Hcurr|exact Hsp|exact Hinv|exact H].
  apply Forall_forall. intros x Hx%out_edges_locs.
  apply (Hg gr); [|done].
  unfold get_graph in Hgr. by destruct (graphs st !! G) as [?|]; simplify_eq.
Qed.

Lemma search_loop_costs fuel : forall start t thr s st s' st',
  graph_ok nonneg_edge st G ->
  costs_ok st s ->
  Routing.search_loop gamma_cdf fuel G start t thr s st = Ok (s', st') ->
  costs_ok st' s'.
Proof.
  induction fuel as [|fuel IH]; intros start t thr s st s' st' Hg Hinv H;
    simpl in H;
    destruct (heappop Routing.entry_lt (Routing.queue s)) as [[entry q']|];
    try discriminate;
    try (by apply mret_Ok in H as [-> ->]).
  apply M_bind_Ok in H as (s1 & st1 & H1 & H).
  pose proof (visit_frame _ _ _ _ _ _ _ _ _ _ H1) as Hext.
  eapply IH; [| |exact H].
  - by eapply graph_ok_extends.
  - eapply visit_costs; [exact Hg| |exact H1]. done.
Qed.

Lemma init_distances_costs vs : forall t d st d' st',
  (forall v l, d !! v = Some l ->
     TimeDistance.cum_time l = 0
     /\ is_Some (dicts st !! TimeDistance.prev_props l)) ->
  Routing.init_distances vs t d st = Ok (d', st') ->
  forall v l, d' !! v = Some l ->
    TimeDistance.cum_time l = 0
    /\ is_Some (dicts st' !! TimeDistance.prev_props l).
Proof.
  induction vs as [|v vs IH]; intros t d st d' st' Hinv H; simpl in H.
  - by apply mret_Ok in H as [-> ->].
  - apply M_bind_Ok in H as (l & st1 & Hl & H).
    eapply IH; [|exact H].
    unfold TimeDistance.__init__ in Hl.
    apply M_bind_Ok in Hl as (l0 & st2 & Hl0 & Hl).
    apply mret_Ok in Hl as [-> ->].
    unfold alloc in Hl0. injection Hl0 as <- <-.
    intros v' l'. destruct (decide (v = v')) as [<-|Hne].
    + rewrite lookup_insert_eq. intros [= <-]. simpl.
      split; [done|]. eexists. by apply list_lookup_middle.
    + rewrite lookup_insert_ne by done. intros Hl'.
      destruct (Hinv _ _ Hl') as [H0 [p Hp]]. split; [done|].
      exists p. simpl. by apply lookup_app_l_Some.
Qed.

End NonNegative.

Lemma stochastic_dijkstra_costs gamma_cdf fuel self start end_ t thr nf st r
    st' :
  graph_ok nonneg_edge st (Routing.G self) ->
  Routing.stochastic_dijkstra gamma_cdf fuel self start end_ t thr nf st
  = Ok (Some r, st') ->
  exists start' end',
    resolves self nf start start' /\ resolves self nf end_ end'
    /\ start' <> end'
    /\ route_ok (fun cum _ => 0 <= cum) (fun _ => True) st' r.
Proof.
  intros Hgr H. unfold Routing.stochastic_dijkstra in H.
  apply M_bind_Ok in H as (start' & st1 & [Hs ->]%resolve_Ok & H).
  apply M_bind_Ok in H as (end' & st2 & [He ->]%resolve_Ok & H).
  exists start', end'. split; [done|]. split; [done|].
  apply M_bind_Ok in H as (gr' & st3 & [_ ->]%read_Ok & H).
  apply M_bind_Ok in H as (d & st4 & Hinit & H).
  pose proof (init_distances_frame _ _ _ _ _ _ Hinit) as Hext.
  pose proof (init_distances_costs _ _ _ _ _ _
                ltac:(by intros v l; rewrite lookup_empty) Hinit) as Hvalid.
  apply M_bind_Ok in H as (dend & st5 & [Hend%getitem_dict_Ok ->]%lift_Ok & H).
  apply M_bind_Ok in H as (dend' & st6 & [_ ->]%lift_Ok & H).
  apply M_bind_Ok in H as (s & st7 & Hloop & H).
  apply lift_Ok in H as [H ->].
  apply (search_loop_costs gamma_cdf (Routing.G self) end') in Hloop;
    [|by eapply graph_ok_extends|].
  - destruct Hloop as (Hc & Hpe & Hle).
    unfold Routing.build_route in H.
    destruct (Routing.prev s !! start') as [x|] eqn:Hps; [|discriminate].
    split; [by intros ->; rewrite Hpe in Hps|].
    destruct (getitem_dict (Routing.distances s) start') as [dist|] eqn:Hd;
      [|discriminate].
    simpl in H.
    destruct (Routing.build_loop fuel s end' (Route.__init__ (Routing.G self))
                start' dist) as [r'|] eqn:Hb; [|discriminate].
    simpl in H. injection H as <-.
    refine (build_loop_inv _ _ _ _ _ _ _ _ _ _ _ _ _ _ Hb).
    + intros v l Hl. destruct (Hc v l Hl) as [H0 [p Hp]]. by exists p.
    + by apply getitem_dict_Ok.
    + reflexivity.
    + intros i l. simpl. by rewrite lookup_nil.
  - split; [|split]; simpl.
    + intros v l. destruct (decide (end' = v)) as [<-|Hne].
      * rewrite lookup_insert_eq. intros [= <-]. simpl.
        destruct (Hvalid _ _ Hend) as [-> ?]. by split.
      * rewrite lookup_insert_ne by done. intros Hl.
        destruct (Hvalid _ _ Hl) as [-> ?]. by split.
    + by rewrite lookup_empty.
    + intros l. rewrite lookup_insert_eq. intros [= <-]. simpl.
      destruct (Hvalid _ _ Hend) as [-> ?]. by split.
Qed.

Lemma resolves_fun self nf name a b :
  resolves self nf name a -> resolves self nf name b -> a = b.
Proof. unfold resolves. destruct nf; congruence. Qed.

Lemma connection_probability_errors gamma_cdf p p' err :
  Delay.connection_probability gamma_cdf p p' = Raise err ->
  exists k, err = KeyError k.
Proof.
  unfold Delay.connection_probability, Delay.__compute_delay, Delay.penalty.
  destruct (negb _); [|discriminate].
  destruct (Delay.dict_get _ _); [discriminate|].
  simpl. intros [= <-]. eauto.
Qed.

Section RouteAssigned.
Variable gamma_cdf : GammaParams -> Z -> Q.
Hypothesis gamma_cdf_le_1 : forall g x, (gamma_cdf g x <= 1)%Q.

(** The loop of [success_proba] never un-assigns the weakest edge, assigns
    it at the first pair, and fails only where an index, an address or the
    lookup of a penalty fails. *)
Lemma success_loop_assigned st ds pairs : forall i proba least edge,
  (edge = None -> least = 1%Q) ->
  match Route.success_loop gamma_cdf st ds pairs i proba least edge with
  | Ok (p', edge') => edge' = None -> edge = None /\ pairs = []
  | Raise err =>
      err = IndexError \/ err = DanglingRef \/ exists k, err = KeyError k
  end.
Proof.
  induction pairs as [|[dep_stop arr_stop] pairs IH];
    intros i proba least edge Hedge; simpl; [done|].
  unfold getitem_list, deref.
  destruct (ds !! i) as [d|]; [simpl|by left].
  destruct (dicts st !! TimeDistance.prev_props d) as [pk|];
    [simpl|by right; left].
  destruct (ds !! S i) as [d'|]; [simpl|by left].
  destruct (dicts st !! TimeDistance.prev_props d') as [pk'|];
    [simpl|by right; left].
  destruct (Delay.connection_probability gamma_cdf pk pk') as [q|err] eqn:Hq;
    [simpl|right; right; by eapply connection_probability_errors].
  pose proof (connection_probability_le_1 gamma_cdf gamma_cdf_le_1 _ _ _ Hq)
    as Hq1.
  destruct (Qle_bool q least) eqn:Hle.
  - specialize (IH (S i) (proba * q)%Q q
                  (Some (arr_stop, dep_stop, TimeDistance.prev_props d))
                  ltac:(done)).
    destruct (Route.success_loop _ _ _ _ _ _ _ _) as [[p' edge']|err];
      [|done].
    intros He. by destruct (IH He).
  - specialize (IH (S i) (proba * q)%Q least edge Hedge).
    destruct (Route.success_loop _ _ _ _ _ _ _ _) as [[p' edge']|err];
      [|done].
    intros He. destruct (IH He) as [-> _]. rewrite (Hedge eq_refl) in Hle.
    apply Qle_bool_iff in Hq1. congruence.
Qed.

(** X11. On a graph whose travel times are not negative, a relaxation never
    decreases [cum_time], so the label of the destination is never
    replaced. A route returned by the search therefore has at least two
    stops (a search from a stop to itself returns no route), labels with
    [cum_time >= 0], and [success_proba] never fails on it for want of a
    weakest edge. *)
Theorem search_route_two_stops (gr : Graph) (fuel : nat) (self : Routing.t)
    (start end_ : string) (t : Z) (thr : Q) (nf : bool) (st : State)
    (r : Route.t) (st' : State) :
  graphs st !! Routing.G self = Some gr ->
  (forall l, l ∈ edge_locs gr ->
     exists e, dicts st !! l = Some e /\ nonneg_edge e) ->
  Routing.stochastic_dijkstra gamma_cdf fuel self start end_ t thr nf st
  = Ok (Some r, st') ->
  (2 <= length (Route.connections r))%nat
  /\ (forall s, resolves self nf start s -> resolves self nf end_ s -> False)
  /\ (forall i l, Route.distances r !! i = Some l ->
        0 <= TimeDistance.cum_time l)
  /\ (forall x,
        Route.success_proba gamma_cdf st' r <> Raise (UnboundLocalError x)).
Proof.
  intros Hgr Hnn H.
  assert (Hg : graph_ok nonneg_edge st (Routing.G self)).
  { intros gr' l Hgr' Hl. rewrite Hgr in Hgr'. injection Hgr' as <-.
    by apply Hnn. }
  destruct (stochastic_dijkstra_costs _ _ _ _ _ _ _ _ _ _ _ Hg H)
    as (start' & end' & Hs & He & Hne & Hlen & Hnil & Hlab).
  destruct (stochastic_dijkstra_path _ _ _ _ _ _ _ _ _ _ _ _ Hgr H)
    as (start'' & end'' & Hs' & He' & _ & H0 & Hlast & _).
  rewrite <- (resolves_fun _ _ _ _ _ Hs Hs') in H0.
  rewrite <- (resolves_fun _ _ _ _ _ He He') in Hlast.
  assert (Hlen2 : (2 <= length (Route.connections r))%nat).
  { destruct (Route.connections r) as [|c0 [|c1 cs]]; simpl in *;
      [discriminate| |lia].
    congruence. }
  split; [done|]. split; [|split].
  - intros s Hss Hse. apply Hne.
    by rewrite (resolves_fun _ _ _ _ _ Hs Hss), (resolves_fun _ _ _ _ _ He Hse).
  - intros i l Hl. by destruct (Hlab i l Hl) as (p & _ & Hp & _).
  - intros x. unfold Route.success_proba, Route.assert_not_empty.
    destruct (Route.connections r) as [|c0 [|c1 cs]] eqn:Hcs;
      simpl in Hlen2; try lia.
    cbn [mbind res_mbind res_bind].
    pose proof (success_loop_assigned st' (Route.distances r)
                  (zip (c0 :: c1 :: cs) (tail (c0 :: c1 :: cs))) 0 1%Q 1%Q
                  None ltac:(done)) as Hloop.
    destruct (Route.success_loop _ _ _ _ _ _ _ _) as [[p' edge']|err].
    + cbn [res_bind snd]. simpl. destruct edge' as [edge'|]; [discriminate|].
      by destruct (Hloop eq_refl) as [_ ?].
    + simpl. destruct Hloop as [->|[->|[k ->]]]; discriminate.
Qed.

End RouteAssigned.

Lemma sample_graph_nonneg l :
  l ∈ edge_locs Sample.graph ->
  exists e, dicts Sample.store !! l = Some e /\ nonneg_edge e.
Proof.
  simpl. intros Hl.
  repeat (apply elem_of_cons in Hl as [->|Hl];
          [eexists; split; [reflexivity|]; intros t [= <-]; lia|]).
  by apply elem_of_nil in Hl.
Qed.

Lemma search_route_two_stops_witness :
  exists r st',
    Routing.stochastic_dijkstra Sample.cdf 10 Sample.planner "A" "C" 30400
      (1 # 2)%Q true Sample.store = Ok (Some r, st')
    /\ (2 <= length (Route.connections r))%nat.
Proof.
  destruct (Routing.stochastic_dijkstra Sample.cdf 10 Sample.planner "A" "C"
              30400 (1 # 2)%Q true Sample.store) as [[[r|] st']|] eqn:H;
    try (vm_compute in H; discriminate).
  destruct (search_route_two_stops Sample.cdf sample_cdf_le_1 Sample.graph 10
              Sample.planner "A" "C" 30400 (1 # 2)%Q true Sample.store r st'
              eq_refl sample_graph_nonneg H) as (Hlen & _).
  by exists r, st'.
Defined.

(** X12. [find_edge_key] fails with a [KeyError] when the graph has no edge from
    [u] to [v]. When it returns a key, that key is the one of the first
    parallel edge from [u] to [v] with the departure time, arrival time
    and trip of [props], or, for a [props] on foot, of the first edge on
    foot if it comes before; when it returns [None] no parallel edge
    matches. Two dictionaries match exactly when their departure times,
    arrival times and trips agree or both are on foot, so two edges on
    foot always match. *)
Theorem find_edge_key_spec (st : State) (graph : gref) (u v : ID)
    (props : loc) :
  (forall gr : Graph,
     graphs st !! graph = Some gr -> alist_get String.eqb gr u = None ->
     Routing.find_edge_key st graph u v props = Raise (KeyError u))
  /\ (forall (gr : Graph) nbrs,
        graphs st !! graph = Some gr ->
        alist_get String.eqb gr u = Some nbrs ->
        alist_get String.eqb nbrs v = None ->
        Routing.find_edge_key st graph u v props = Raise (KeyError v))
  /\ (forall res,
        Routing.find_edge_key st graph u v props = Ok res ->
        exists gr kd pp,
          graphs st !! graph = Some gr
          /\ nx.getitem_uv gr u v = Ok kd
          /\ dicts st !! props = Some pp
          /\ match res with
             | Some key =>
                 exists before l e after,
                   kd = (before ++ (key, l) :: after)%list
                   /\ dicts st !! l = Some e
                   /\ Routing.isSameEdge e pp = true
                   /\ Forall (fun kl => exists e',
                                dicts st !! kl.2 = Some e'
                                /\ Routing.isSameEdge e' pp = false) before
             | None =>
                 Forall (fun kl => exists e',
                           dicts st !! kl.2 = Some e'
                           /\ Routing.isSameEdge e' pp = false) kd
             end)
  /\ (forall e pp, ttype e = "Foot" -> ttype pp = "Foot" ->
        Routing.isSameEdge e pp = true)
  /\ (forall e pp, Routing.isSameEdge e pp = true <->
        (dep_time e = dep_time pp /\ arr_time e = arr_time pp
         /\ trip_id e = trip_id pp)
        \/ (ttype pp = "Foot" /\ ttype e = "Foot")).
Proof.
  split; [|split; [|split; [|split]]].
  - intros gr Hgr Hu.
    unfold Routing.find_edge_key, get_graph, nx.getitem_uv.
    rewrite Hgr. simpl. by rewrite Hu.
  - intros gr nbrs Hgr Hu Hv.
    unfold Routing.find_edge_key, get_graph, nx.getitem_uv.
    rewrite Hgr. simpl. by rewrite Hu, Hv.
  - intros res H. unfold Routing.find_edge_key, get_graph, deref in H.
    destruct (graphs st !! graph) as [gr|]; [|discriminate]. simpl in H.
    destruct (nx.getitem_uv gr u v) as [kd|] eqn:Hkd; [|discriminate].
    simpl in H.
    destruct (dicts st !! props) as [pp|]; [|discriminate]. simpl in H.
    exists gr, kd, pp. repeat (split; [done|]).
    by apply find_loop_first.
  - intros e pp He Hpp. unfold Routing.isSameEdge. rewrite He, Hpp. simpl.
    by rewrite orb_true_r.
  - intros e pp. unfold Routing.isSameEdge.
    rewrite orb_true_iff, !andb_true_iff, !Z.eqb_eq, trip_eqb_eq,
      !String.eqb_eq.
    tauto.
Qed.

(** ** routing.py: the main loop of the search terminates *)

Section HeapLength.
Context {A : Type} (lt : A -> A -> bool).

Lemma _siftdown_length fuel : forall (heap : list A) startpos pos newitem,
  length (_siftdown lt fuel heap startpos pos newitem) = length heap.
Proof.
  induction fuel as [|fuel IH]; intros heap startpos pos newitem; simpl.
  - apply length_insert.
  - destruct (startpos <? pos)%nat; [|apply length_insert].
    destruct (heap !! Nat.div2 (pos - 1)) as [parent|];
      [|apply length_insert].
    destruct (lt newitem parent); [|apply length_insert].
    rewrite IH. apply length_insert.
Qed.

Lemma _siftup_loop_length fuel : forall (heap : list A) pos,
  length (_siftup_loop lt fuel heap pos).1 = length heap.
Proof.
  induction fuel as [|fuel IH]; intros heap pos; [done|].
  cbn [_siftup_loop].
  destruct (_ <? _)%nat; [|done].
  match goal with
  | |- context [match heap !! ?c with Some _ => _siftup_loop _ _ _ _ | None => _ end] =>
      destruct (heap !! c) as [x|]; [|done]
  end.
  rewrite IH. apply length_insert.
Qed.

Lemma _siftup_length (heap : list A) pos :
  length (_siftup lt heap pos) = length heap.
Proof.
  unfold _siftup. destruct (heap !! pos) as [newitem|]; [|done].
  pose proof (_siftup_loop_length (length heap) heap pos) as Hl.
  destruct (_siftup_loop lt (length heap) heap pos) as [heap' pos'].
  simpl in Hl. by rewrite _siftdown_length, length_insert.
Qed.

Lemma heappush_length (heap : list A) item :
  length (heappush lt heap item) = S (length heap).
Proof.
  unfold heappush. rewrite _siftdown_length, length_app. simpl. lia.
Qed.

Lemma last_removelast (heap : list A) x :
  last heap = Some x -> length heap = S (length (removelast heap)).
Proof.
  induction heap as [|a heap IH]; [done|].
  destruct heap as [|b heap]; [done|].
  intros H. simpl in *. f_equal. by apply IH.
Qed.

Lemma heappop_length (heap : list A) x heap' :
  heappop lt heap = Some (x, heap') -> length heap = S (length heap').
Proof.
  unfold heappop. destruct (last heap) as [lastelt|] eqn:Hlast; [|done].
  apply last_removelast in Hlast.
  destruct (removelast heap) as [|returnitem rest]; intros [= <- <-].
  - done.
  - by rewrite _siftup_length.
Qed.

End HeapLength.

Lemma M_bind_Raise {A B} (m : M A) (k : A -> M B) st e :
  (a ← m; k a) st = Raise e ->
  m st = Raise e \/ exists a st1, m st = Ok (a, st1) /\ k a st1 = Raise e.
Proof.
  unfold mbind, M_bind. destruct (m st) as [[a st1]|e']; [eauto|].
  intros [= ->]. by left.
Qed.

(** The errors of the program itself, as opposed to the bound of the
    model. *)
Definition genuine (e : error) : Prop := e <> OutOfFuel.

Lemma read_deref_genuine l st e :
  read (fun st => deref st l) st = Raise e -> genuine e.
Proof.
  unfold read, deref. destruct (dicts st !! l); [discriminate|].
  by intros [= <-].
Qed.

Lemma lift_getitem_genuine {A} (d : gmap string A) k st e :
  lift (getitem_dict d k) st = Raise e -> genuine e.
Proof.
  unfold lift, read, getitem_dict. destruct (d !! k); [discriminate|].
  by intros [= <-].
Qed.

Lemma lift_travel_time_genuine p st e :
  lift (getitem_travel_time p) st = Raise e -> genuine e.
Proof.
  unfold lift, read, getitem_travel_time.
  destruct (travel_time p); [discriminate|]. by intros [= <-].
Qed.

Lemma setitem_genuine l f st e : setitem l f st = Raise e -> genuine e.
Proof.
  unfold setitem. destruct (dicts st !! l); [discriminate|].
  by intros [= <-].
Qed.

Lemma add_genuine self props st e :
  TimeDistance.__add__ self props st = Raise e -> genuine e.
Proof.
  unfold TimeDistance.__add__. intros H.
  apply M_bind_Raise in H as [H|(p & st1 & _ & H)];
    [by eapply read_deref_genuine|].
  apply M_bind_Raise in H as [H|(props' & st2 & _ & H)].
  - destruct (String.eqb (ttype p) "Foot"); [|discriminate].
    apply M_bind_Raise in H as [H|(l & st3 & _ & H)].
    { unfold dict_copy in H.
      apply M_bind_Raise in H as [H|(? & ? & _ & H)];
        [by eapply read_deref_genuine | discriminate]. }
    apply M_bind_Raise in H as [H|(sp & st4 & _ & H)];
      [by eapply read_deref_genuine|].
    apply M_bind_Raise in H as [H|(p' & st5 & _ & H)];
      [by eapply read_deref_genuine|].
    apply M_bind_Raise in H as [H|(t & st6 & _ & H)];
      [by eapply lift_travel_time_genuine|].
    apply M_bind_Raise in H as [H|(? & st7 & _ & H)];
      [by eapply setitem_genuine|].
    apply M_bind_Raise in H as [H|(sp' & st8 & _ & H)];
      [by eapply read_deref_genuine|].
    apply M_bind_Raise in H as [H|(? & st9 & _ & H)];
      [by eapply setitem_genuine | discriminate].
  - apply M_bind_Raise in H as [H|(sp & st3 & _ & H)];
      [by eapply read_deref_genuine|].
    apply M_bind_Raise in H as [H|(p' & st4 & _ & H)];
      [by eapply read_deref_genuine|].
    apply M_bind_Raise in H as [H|(t & st5 & _ & H)];
      [by eapply lift_travel_time_genuine | discriminate].
Qed.

Section SearchTerminates.
Variable gamma_cdf : GammaParams -> Z -> Q.

Lemma time_filter_genuine pp pdt cbdt thr p st e :
  lift (Routing.time_filter gamma_cdf pp pdt cbdt thr p) st = Raise e ->
  genuine e.
Proof.
  unfold lift, read, Routing.time_filter.
  destruct (_ && _); [|discriminate].
  destruct (Delay.connection_probability gamma_cdf p pp) as [q|err] eqn:Hq;
    [discriminate|].
  simpl. intros [= <-].
  destruct (connection_probability_errors _ _ _ _ Hq) as [k ->]. done.
Qed.

(** What is left to pop: the entries of the queue, and the stops that may
    still enter it. *)
Definition budget (s : Routing.tables) : nat :=
  length (Routing.queue s)
  + size (dom (Routing.distances s) ∖ Routing.visited s).

Lemma relax_budget curr pp pdt cbdt thr edge s st :
  match Routing.relax gamma_cdf curr pp pdt cbdt thr edge s st with
  | Ok (s', _) =>
      (budget s' <= budget s)%nat
  | Raise e => genuine e
  end.
Proof.
  destruct (Routing.relax gamma_cdf curr pp pdt cbdt thr edge s st)
    as [[s' st']|e] eqn:H; unfold Routing.relax in H.
  - apply M_bind_Ok in H as (p1 & st1 & _ & H).
    apply M_bind_Ok in H as (p2 & st2 & _ & H).
    apply M_bind_Ok in H as (ok & st3 & _ & H).
    destruct ok; [|by apply mret_Ok in H as [-> _]].
    apply M_bind_Ok in H as (dcurr & st4 & _ & H).
    apply M_bind_Ok in H as (new_dist & st5 & _ & H).
    apply M_bind_Ok in H as (dn & st6 & [Hdn%getitem_dict_Ok _]%lift_Ok & H).
    destruct (TimeDistance.__lt__ new_dist dn);
      [|by apply mret_Ok in H as [-> _]].
    assert (Hdom : forall x : TimeDistance.t,
              dom (<[edge.1.2 := x]> (Routing.distances s))
              = dom (Routing.distances s)).
    { intros x. apply dom_insert_lookup_L. by eexists. }
    destruct (bool_decide (edge.1.2 ∈ Routing.visited s)) eqn:Hvis;
      apply mret_Ok in H as [-> _]; unfold budget; simpl; rewrite Hdom.
    + done.
    + apply bool_decide_eq_false in Hvis.
      rewrite heappush_length.
      assert (Hin : edge.1.2 ∈ dom (Routing.distances s))
        by (apply elem_of_dom; by eexists).
      assert (Hlt : (size (dom (Routing.distances s)
                           ∖ ({[edge.1.2]} ∪ Routing.visited s))
                     < size (dom (Routing.distances s) ∖ Routing.visited s))%nat).
      { apply subset_size. split.
        - intros y. rewrite !elem_of_difference, elem_of_union. tauto.
        - intros Hc. specialize (Hc edge.1.2).
          rewrite !elem_of_difference, elem_of_union, elem_of_singleton in Hc.
          tauto. }
      lia.
  - apply M_bind_Raise in H as [H|(p1 & st1 & _ & H)];
      [by eapply read_deref_genuine|].
    apply M_bind_Raise in H as [H|(p2 & st2 & _ & H)];
      [by eapply read_deref_genuine|].
    apply M_bind_Raise in H as [H|(ok & st3 & _ & H)];
      [by eapply time_filter_genuine|].
    destruct ok; [|discriminate].
    apply M_bind_Raise in H as [H|(dcurr & st4 & _ & H)];
      [by eapply lift_getitem_genuine|].
    apply M_bind_Raise in H as [H|(new_dist & st5 & _ & H)];
      [by eapply add_genuine|].
    apply M_bind_Raise in H as [H|(dn & st6 & _ & H)];
      [by eapply lift_getitem_genuine|].
    destruct (TimeDistance.__lt__ new_dist dn); [|discriminate].
    destruct (bool_decide _); discriminate.
Qed.

Lemma relax_edges_budget es : forall curr pp pdt cbdt thr s st,
  match Routing.relax_edges gamma_cdf es curr pp pdt cbdt thr s st with
  | Ok (s', _) => (budget s' <= budget s)%nat
  | Raise e => genuine e
  end.
Proof.
  induction es as [|edge es IH]; intros curr pp pdt cbdt thr s st; simpl;
    [done|].
  unfold mbind, M_bind.
  pose proof (relax_budget curr pp pdt cbdt thr edge s st) as H1.
  destruct (Routing.relax gamma_cdf curr pp pdt cbdt thr edge s st)
    as [[s1 st1]|e]; [|done].
  specialize (IH curr pp pdt cbdt thr s1 st1).
  destruct (Routing.relax_edges gamma_cdf es curr pp pdt cbdt thr s1 st1)
    as [[s2 st2]|e]; [lia | done].
Qed.

Lemma visit_budget G start t thr curr s st :
  match Routing.visit gamma_cdf G start t thr curr s st with
  | Ok (s', _) => (budget s' <= budget s)%nat
  | Raise e => genuine e
  end.
Proof.
  destruct (Routing.visit gamma_cdf G start t thr curr s st)
    as [[s' st']|e] eqn:H; unfold Routing.visit in H.
  - apply M_bind_Ok in H as (dcurr & st1 & _ & H).
    apply M_bind_Ok in H as (pdt & st2 & _ & H).
    apply M_bind_Ok in H as (dstart & st3 & _ & H).
    apply M_bind_Ok in H as (gr & st4 & _ & H).
    match type of H with
    | Routing.relax_edges _ ?es ?c ?pp ?pd ?cb ?th ?s0 ?st0 = _ =>
        pose proof (relax_edges_budget es c pp pd cb th s0 st0) as Hb
    end.
    by rewrite H in Hb.
  - apply M_bind_Raise in H as [H|(dcurr & st1 & _ & H)];
      [by eapply lift_getitem_genuine|].
    apply M_bind_Raise in H as [H|(pdt & st2 & _ & H)].
    { unfold read, TimeDistance.previous_dep_time, deref in H.
      destruct (dicts st1 !! TimeDistance.prev_props dcurr);
        [discriminate|].
      simpl in H. by injection H as <-. }
    apply M_bind_Raise in H as [H|(dstart & st3 & _ & H)];
      [by eapply lift_getitem_genuine|].
    apply M_bind_Raise in H as [H|(gr & st4 & _ & H)].
    { unfold read, get_graph in H. destruct (graphs st3 !! G);
        [discriminate|].
      by injection H as <-. }
    match type of H with
    | Routing.relax_edges _ ?es ?c ?pp ?pd ?cb ?th ?s0 ?st0 = _ =>
        pose proof (relax_edges_budget es c pp pd cb th s0 st0) as Hb
    end.
    by rewrite H in Hb.
Qed.

Lemma search_loop_budget (fuel : nat) (G : gref) (start : ID) (t : Z)
    (thr : Q) (s : Routing.tables) (st : State) :
  (budget s <= fuel)%nat ->
  Routing.search_loop gamma_cdf fuel G start t thr s st <> Raise OutOfFuel.
Proof.
  revert s st. induction fuel as [|fuel IH]; intros s st Hb; simpl.
  - destruct (heappop Routing.entry_lt (Routing.queue s)) as [[entry q']|]
      eqn:Hpop; [|done].
    apply heappop_length in Hpop. unfold budget in Hb. lia.
  - destruct (heappop Routing.entry_lt (Routing.queue s)) as [[entry q']|]
      eqn:Hpop; [|done].
    apply heappop_length in Hpop.
    unfold mbind, M_bind.
    match goal with
    | |- context [Routing.visit _ _ _ _ _ ?c ?s0 ?st0] =>
        pose proof (visit_budget G start t thr c s0 st0) as Hv;
        destruct (Routing.visit gamma_cdf G start t thr c s0 st0)
          as [[s1 st1]|e]
    end.
    + apply IH.
      assert (budget (Routing.mkTables (Routing.distances s) (Routing.prev s)
                        ({[entry.2]} ∪ Routing.visited s) q')
              <= fuel)%nat; [|lia].
      unfold budget in *. simpl.
      assert (size (dom (Routing.distances s)
                    ∖ ({[entry.2]} ∪ Routing.visited s))
              <= size (dom (Routing.distances s) ∖ Routing.visited s))%nat
        by (apply subseteq_size; intros y;
            rewrite !elem_of_difference, elem_of_union; tauto).
      lia.
    + intros [= ->]. by apply Hv.
Qed.

Lemma init_distances_dom vs : forall t d st d' st',
  Routing.init_distances vs t d st = Ok (d', st') ->
  (size (dom d') <= size (dom d) + length vs)%nat.
Proof.
  induction vs as [|v vs IH]; intros t d st d' st' H; simpl in H.
  - apply mret_Ok in H as [-> ->]. lia.
  - apply M_bind_Ok in H as (l & st1 & _ & H).
    apply IH in H. rewrite dom_insert_L in H.
    assert (size ({[v]} ∪ dom d) <= S (size (dom d)))%nat; [|simpl; lia].
    destruct (decide (v ∈ dom d)) as [Hin|Hout].
    + assert (size ({[v]} ∪ dom d) <= size (dom d))%nat; [|lia].
      apply subseteq_size. intros y.
      rewrite elem_of_union, elem_of_singleton. intros [->|Hy]; done.
    + rewrite size_union, size_singleton; [lia|].
      intros y. rewrite elem_of_singleton. intros -> Hy. done.
Qed.

(** X13. Every stop enters the queue at most once: a stop is pushed only while
    it is not yet visited, and it is marked visited with the push. So the
    main loop of a search on a graph of [n] stops ends within [n + 1]
    turns, with the tables or with an error of the program: with more fuel
    than stops, the bound of the model is never what stops it. *)
Theorem search_loop_terminates (fuel : nat) (G : gref) (start end_ : ID)
    (t : Z) (thr : Q) (vs : list ID) (d : gmap ID TimeDistance.t)
    (dend dend' : TimeDistance.t) (st st1 : State) :
  Routing.init_distances vs t ∅ st = Ok (d, st1) ->
  d !! end_ = Some dend ->
  (length vs < fuel)%nat ->
  match
    Routing.search_loop gamma_cdf fuel G start t thr
      (Routing.mkTables (<[end_ := TimeDistance.updated dend]> d) ∅ ∅
         (heappush Routing.entry_lt [] (dend', end_))) st1
  with
  | Ok _ => True
  | Raise e => e <> OutOfFuel
  end.
Proof.
  intros Hinit Hend Hfuel.
  match goal with
  | |- match ?m with _ => _ end =>
      assert (Hne : m <> Raise OutOfFuel); [|by destruct m as [?|[]]]
  end.
  apply search_loop_budget.
  apply init_distances_dom in Hinit. rewrite dom_empty_L, size_empty in Hinit.
  unfold budget. simpl.
  rewrite dom_insert_lookup_L by (by eexists).
  assert (size (dom d ∖ (∅ : gset ID)) <= size (dom d))%nat
    by (apply subseteq_size; intros y; rewrite elem_of_difference; tauto).
  lia.
Qed.

End SearchTerminates.

Lemma search_loop_terminates_witness :
  exists d st1 dend,
    Routing.init_distances (nx.nodes Sample.graph) 30400 ∅ Sample.store
    = Ok (d, st1)
    /\ d !! "C" = Some dend
    /\ match
         Routing.search_loop Sample.cdf 4 0%nat "A" 30400 (1 # 2)%Q
           (Routing.mkTables (<["C" := TimeDistance.updated dend]> d) ∅ ∅
              (heappush Routing.entry_lt [] (dend, "C"))) st1
       with
       | Ok _ => True
       | Raise e => e <> OutOfFuel
       end.
Proof.
  destruct (Routing.init_distances (nx.nodes Sample.graph) 30400 ∅
              Sample.store) as [[d st1]|] eqn:H;
    [|vm_compute in H; discriminate].
  destruct (d !! "C") as [dend|] eqn:Hc.
  - exists d, st1, dend. split; [done|]. split; [done|].
    apply (search_loop_terminates Sample.cdf 4 0%nat "A" "C" 30400 (1 # 2)%Q
             (nx.nodes Sample.graph) d dend dend Sample.store st1 H Hc).
    simpl. lia.
  - exfalso. vm_compute in H. injection H as <- <-.
    vm_compute in Hc. discriminate.
Defined.

(** ** routing.py: the predecessors form a tree, the search terminates *)







(** The stops of the walk, as [build_route] appends them. *)
Fixpoint walk (p : gmap ID ID) (n : nat) (v : ID) : list ID :=
  match n with
  | O => [v]
  | S n' =>
      v :: match p !! v with
           | Some u => walk p n' u
           | None => []
           end
  end.



Section PrevTree.
Variable gamma_cdf : GammaParams -> Z -> Q.
Variable G : gref.
Variable end_ : ID.
Variable D : gset ID.









End PrevTree.






(** ** routing.py: a route passes through no stop twice *)




